(** * botfront-external-trainer: the control side (job_manager.py) and the
    worker script (templates/train.py), embedded as Rocq functions.

    Python values are a tree type (mappings keep their insertion order, as
    Python dicts do); where it matters that two places of a document can
    hold one object, lists and dicts are objects in a store and
    [dict_set] assigns in place.  Exceptions are an error result, and
    every call that leaves the process (orchestrator API, object storage,
    file system, subprocess) goes through an interface record whose
    answers are arbitrary, so that the theorems hold for every behaviour
    of the outside world. *)

From Stdlib Require Import ZArith Lia List Ascii String Bool.
From Stdlib Require OrderedTypeEx.
From stdpp Require Import base option list strings pretty gmap sorting.

Set Warnings "-register-all".

Local Open Scope Z_scope.

(** ** Python values and exceptions *)

(** Keys of a mapping and subscripts: a text or an int ([d[k]], [d[i]]). *)
Inductive key :=
| KStr (s : string)
| KInt (i : Z).

(** The documents [yaml.safe_load] produces, as a tree: scalars, sequences
    and mappings.  A mapping lists its items in insertion order. *)
Inductive value :=
| VNone
| VBool (b : bool)
| VInt (i : Z)
| VStr (s : string)
| VList (l : list value)
| VDict (m : list (key * value)).

#[global] Instance key_eq_dec : EqDecision key.
Proof. solve_decision. Defined.

(** The body of a [kubernetes.client.ApiException], as far as
    [json.loads(exception.body).get('reason')] looks at it. *)
Inductive api_body :=
| BodyObject (reason : option string)
| BodyMalformed.

Record ApiException := mkApiException {
  api_status : Z;
  api_body_of : api_body
}.

Inductive exn :=
| KeyError (k : key)
| IndexError
| TypeError
| ValueError
| AttributeError
| ApiError (e : ApiException)
| FailToCreateError (api_exceptions : list ApiException)
| OtherError (msg : string)
| SystemExit (code : Z).

(** [except Exception] catches everything but [SystemExit] (a
    [BaseException]). *)
Definition is_exception (e : exn) : bool :=
  match e with
  | SystemExit _ => false
  | _ => true
  end.

Inductive result (A : Type) :=
| Ok (a : A)
| Raise (e : exn).
Arguments Ok {A} a.
Arguments Raise {A} e.

#[global] Instance result_ret : MRet result := fun _ a => Ok a.
#[global] Instance result_bind : MBind result := fun _ _ f r =>
  match r with
  | Ok a => f a
  | Raise e => Raise e
  end.

Definition is_ok {A} (r : result A) : Prop :=
  match r with Ok _ => True | Raise _ => False end.

(** ** Text helpers: [str.split] and [int] *)

Fixpoint split_on (sep : ascii) (s : string) : list string :=
  match s with
  | EmptyString => [EmptyString]
  | String c s' =>
      if Ascii.eqb c sep then EmptyString :: split_on sep s'
      else match split_on sep s' with
           | [] => [String c EmptyString]
           | h :: t => String c h :: t
           end
  end.

(** Whitespace that [int] strips in an ASCII text: tab to carriage return
    and the space (the separators 28-31, which [str.strip] drops, are not
    blanks for [int]). *)
Definition is_space (c : ascii) : bool :=
  let n := nat_of_ascii c in
  ((9 <=? n)%nat && (n <=? 13)%nat) || (n =? 32)%nat.

Definition digit_of (c : ascii) : option Z :=
  let n := nat_of_ascii c in
  if ((48 <=? n)%nat && (n <=? 57)%nat) then Some (Z.of_nat n - 48) else None.

Fixpoint lstrip (s : list ascii) : list ascii :=
  match s with
  | c :: s' => if is_space c then lstrip s' else s
  | [] => []
  end.

Definition strip (s : list ascii) : list ascii :=
  rev (lstrip (rev (lstrip s))).

(** Decimal digits, single underscores allowed between two digits. *)
Fixpoint digits (acc : Z) (after_digit : bool) (s : list ascii) : option Z :=
  match s with
  | [] => if after_digit then Some acc else None
  | c :: s' =>
      match digit_of c with
      | Some d => digits (10 * acc + d) true s'
      | None =>
          if Ascii.eqb c "_"%char && after_digit then digits acc false s'
          else None
      end
  end.

(** [int(k)] on a text: [Some i], or [None] for [ValueError].  Texts are
    ASCII here; the interpreter's limit on the number of digits is not
    modelled. *)
Definition py_int (k : string) : option Z :=
  match strip (list_ascii_of_string k) with
  | c :: s' =>
      if Ascii.eqb c "-"%char then Z.opp <$> digits 0 false s'
      else if Ascii.eqb c "+"%char then digits 0 false s'
      else digits 0 false (c :: s')
  | [] => None
  end.

(** ** Subscripting: [current[i]], [current[k]] and their assignments *)

Fixpoint dict_get {A} (k : key) (m : list (key * A)) : option A :=
  match m with
  | [] => None
  | (k', v) :: m' => if decide (k' = k) then Some v else dict_get k m'
  end.

(** [m[k] = v]: an existing key keeps its place, a new key goes last. *)
Fixpoint dict_put {A} (k : key) (v : A) (m : list (key * A))
  : list (key * A) :=
  match m with
  | [] => [(k, v)]
  | (k', v') :: m' =>
      if decide (k' = k) then (k', v) :: m' else (k', v') :: dict_put k v m'
  end.

(** The position a Python int subscript denotes in a sequence of length
    [n]: negative subscripts count from the end. *)
Definition seq_pos (n : nat) (i : Z) : option nat :=
  if (0 <=? i) && (i <? Z.of_nat n) then Some (Z.to_nat i)
  else if (i <? 0) && (- Z.of_nat n <=? i) then Some (Z.to_nat (Z.of_nat n + i))
  else None.

Definition in_bounds (n : nat) (i : Z) : Prop := - Z.of_nat n <= i < Z.of_nat n.

Fixpoint string_nth (n : nat) (s : string) : option ascii :=
  match s, n with
  | EmptyString, _ => None
  | String c _, O => Some c
  | String _ s', S n' => string_nth n' s'
  end.

Definition getitem (cur : value) (ix : key) : result value :=
  match cur, ix with
  | VDict m, _ =>
      match dict_get ix m with Some v => Ok v | None => Raise (KeyError ix) end
  | VList l, KInt i =>
      match seq_pos (length l) i with
      | Some p => match l !! p with Some v => Ok v | None => Raise IndexError end
      | None => Raise IndexError
      end
  | VStr s, KInt i =>
      match seq_pos (String.length s) i with
      | Some p =>
          match string_nth p s with
          | Some c => Ok (VStr (String c EmptyString))
          | None => Raise IndexError
          end
      | None => Raise IndexError
      end
  | _, _ => Raise TypeError
  end.

Definition setitem (cur : value) (ix : key) (v : value) : result value :=
  match cur, ix with
  | VDict m, _ => Ok (VDict (dict_put ix v m))
  | VList l, KInt i =>
      match seq_pos (length l) i with
      | Some p => Ok (VList (<[p := v]> l))
      | None => Raise IndexError
      end
  | _, _ => Raise TypeError
  end.

(** ** job_manager.py: [dict_set] *)

(** [try: i = int(k); ... current[i] except ValueError: ... current[k]]:
    the subscript a path segment stands for.  Subscripting raises
    [KeyError], [IndexError] or [TypeError], never [ValueError], so the
    handler runs exactly when [int] rejects the segment. *)
Definition subscript (k : string) : key :=
  match py_int k with
  | Some i => KInt i
  | None => KStr k
  end.

(** The loop over [keys[:-1]], then the assignment at [keys[-1]], on a
    document read as a tree: Python assigns in place inside the object
    the loop reached, and on a tree that is the document with the
    reached child replaced.  The assignment in place, on objects that
    two places of a document may hold, is [dict_set_in_place] below; on
    a document without aliases the two agree. *)
Fixpoint dict_set_keys (cur : value) (keys : list string) (final : string)
    (v : value) : result value :=
  match keys with
  | [] => setitem cur (subscript final) v
  | k :: ks =>
      child ← getitem cur (subscript k);
      child' ← dict_set_keys child ks final v;
      setitem cur (subscript k) child'
  end.

Definition dict_set (d : value) (path : string) (v : value) : result value :=
  let keys := split_on "."%char path in
  dict_set_keys d (removelast keys) (List.last keys EmptyString) v.

(** The object the loop of [dict_set] holds in [current] after the
    segments [keys]. *)
Fixpoint resolve (cur : value) (keys : list string) : result value :=
  match keys with
  | [] => Ok cur
  | k :: ks => child ← getitem cur (subscript k); resolve child ks
  end.

(** [obj[k1][k2]...]: reading along subscripts. *)
Fixpoint get_at (cur : value) (keys : list key) : result value :=
  match keys with
  | [] => Ok cur
  | k :: ks => child ← getitem cur k; get_at child ks
  end.

Definition path_init (path : string) : list string :=
  removelast (split_on "."%char path).

Definition path_final (path : string) : string :=
  List.last (split_on "."%char path) EmptyString.



(** A small template with two containers, used to run the definitions. *)
Definition example_pod : value :=
  VDict [(KStr "kind", VStr "Pod");
         (KStr "spec",
          VDict [(KStr "containers",
                  VList [VDict [(KStr "name", VStr "train");
                                (KStr "image", VStr "placeholder")];
                         VDict [(KStr "name", VStr "sidecar")]]);
                 (KStr "restartPolicy", VStr "Never")])].

(** ** Calls that leave the process *)

(** A computation reads and changes the outside world [W] and returns a
    value or raises. *)
Definition io (W A : Type) : Type := W -> result A * W.

#[global] Instance io_ret {W} : MRet (io W) := fun _ a w => (Ok a, w).
#[global] Instance io_bind {W} : MBind (io W) := fun _ _ f c w =>
  match c w with
  | (Ok a, w') => f a w'
  | (Raise e, w') => (Raise e, w')
  end.

(** A pure step that may raise. *)
Definition lift {W A} (r : result A) : io W A := fun w => (r, w).

(** ** Configuration read from the environment at import time *)

Record Config := mkConfig {
  LOCAL_VOLUME_PATH : option string;
  LOCAL_VOLUME_PVC_NAME : option string;
  S3_BUCKET_NAME : option string;
  S3_ENDPOINT : option string;
  S3_REGION : option string;
  S3_DIR : string;
  S3_CACHE_DIR : string;
  JOB_TEMPLATE_PATH : string;
  TRAIN_PY_TEMPLATE_PATH : string;
  CM_TEMPLATE_PATH : string;
  KUBE_NAMESPACE : string;
  KUBE_DEFAULT_NAME_PREFIX : string;
  KUBE_REGCRED_SECRET_NAME : string;
  KUBE_S3_SECRET_NAME : string;
  IS_RASA_FOR_BOTFRONT : option string
}.

(** Truth value of an [Optional[str]]: [None] and [''] are false. *)
Definition truthy_str (o : option string) : bool :=
  match o with
  | Some s => negb (String.eqb s EmptyString)
  | None => false
  end.

(** Truth value of an [Optional[int]]: [None] and [0] are false. *)
Definition truthy_int (o : option Z) : bool :=
  match o with
  | Some n => negb (n =? 0)
  | None => false
  end.

Definition opt_str (o : option string) : value :=
  match o with
  | Some s => VStr s
  | None => VNone
  end.

(** ** Orchestrator objects *)

Record V1JobStatus := mkJobStatus {
  succeeded : option Z;
  active : option Z;
  failed : option Z
}.

(** A Job as [read_namespaced_job] returns it: the API always fills in
    [status]; its counters are optional ints. *)
Record V1Job := mkJob {
  job_uid : string;
  job_labels : list (string * string);
  job_status : V1JobStatus
}.

Record V1DeleteOptions := mkDeleteOptions {
  propagation_policy : string
}.

(** An object [create_from_dict] returns; [train] reads its
    [metadata.uid]. *)
Record Created := mkCreated {
  created_uid : string
}.

Module Status.
Inductive t := none | training | success | failed.
End Status.

#[global] Instance Status_eq_dec : EqDecision Status.t.
Proof. solve_decision. Defined.

(** A record handed to [logger.info].  The message of [kube_apply]
    interpolates two values of the manifest, kept as values. *)
Inductive log_record :=
| Info (text : string)
| InfoAlreadyExists (kind name : value).

(** The world of the control process: the orchestrator API, the storage
    of the training data, the template files, the identifier source and
    the logger.  Nothing is assumed about the answers. *)
Class ControlWorld (W : Type) := {
  read_namespaced_job : string -> string -> io W V1Job;
  delete_namespaced_job : string -> string -> V1DeleteOptions -> io W unit;
  create_from_dict : value -> string -> io W (list Created);
  uuid4 : io W string;
  makedirs_exist_ok : string -> io W unit;
  write_text : string -> string -> io W unit;
  s3_put : option string -> string -> string -> io W unit;
  load_yml : string -> io W value;
  read_file : string -> io W string;
  logger_info : log_record -> W -> W
}.

(** ** [yaml.safe_dump(_, sort_keys=True)]

    The representer of the YAML library takes the items of every mapping
    and tries [sorted(items)]; when two keys do not compare (an int and a
    text) the [TypeError] is swallowed and the items keep the order they
    have.  The ordered document is then written out. *)

(** Python's order on keys of one kind.  Ints are put before texts only
    to make the order total: comparing across kinds raises in Python,
    and [yaml_sort_keys] sorts the keys of one kind only. *)
Definition key_leb (a b : key) : bool :=
  match a, b with
  | KInt i, KInt j => i <=? j
  | KStr s, KStr t => String.leb s t
  | KInt _, KStr _ => true
  | KStr _, KInt _ => false
  end.

Fixpoint insert_item {A} (kv : key * A) (m : list (key * A)) : list (key * A) :=
  match m with
  | [] => [kv]
  | kv' :: m' =>
      if key_leb kv.1 kv'.1 then kv :: m else kv' :: insert_item kv m'
  end.

Definition sort_items {A} (m : list (key * A)) : list (key * A) :=
  foldr insert_item [] m.

Definition is_text_key (k : key) : bool :=
  match k with KStr _ => true | KInt _ => false end.

(** The keys of a mapping compare with each other: all texts or all ints. *)
Definition keys_compare {A} (m : list (key * A)) : bool :=
  forallb (fun kv => is_text_key kv.1) m
  || forallb (fun kv => negb (is_text_key kv.1)) m.

Fixpoint yaml_sort_keys (v : value) : value :=
  match v with
  | VList l => VList (List.map yaml_sort_keys l)
  | VDict m =>
      let m' := List.map (fun kv => (kv.1, yaml_sort_keys kv.2)) m in
      VDict (if keys_compare m then sort_items m' else m')
  | _ => v
  end.

(** The libraries [train] computes with: [yaml.safe_load] (a document
    without aliases, as a tree), the writer of [yaml.safe_dump] for a
    document whose items are in their final order, and
    [md5(_).hexdigest()]. *)
Record Libraries := mkLibraries {
  yaml_safe_load : string -> result value;
  yaml_emit : value -> string;
  md5_hexdigest : string -> string
}.

Definition yaml_safe_dump_sorted (lib : Libraries) (doc : value) : string :=
  yaml_emit lib (yaml_sort_keys doc).

(** ** job_manager.py: orchestrator errors and [kube_apply] *)

(** [json.loads] of a malformed body raises [JSONDecodeError], a
    [ValueError]. *)
Fixpoint check_already_exists_error (api_exceptions : list ApiException)
  : result bool :=
  match api_exceptions with
  | [] => Ok true
  | exception :: rest =>
      match api_body_of exception with
      | BodyMalformed => Raise ValueError
      | BodyObject reason =>
          if decide (reason = Some "AlreadyExists")
          then check_already_exists_error rest
          else Ok false
      end
  end.

(** [data.get(k, default)]. *)
Definition dict_get_default (data : value) (k : key) (default : value)
  : result value :=
  match data with
  | VDict m => Ok (match dict_get k m with Some v => v | None => default end)
  | _ => Raise AttributeError
  end.

(** [os.path.dirname] (posixpath): everything before the last slash,
    trailing slashes dropped unless the head is slashes only. *)
Fixpoint drop_to_slash (r : list ascii) : list ascii :=
  match r with
  | [] => []
  | c :: r' => if Ascii.eqb c "/"%char then r else drop_to_slash r'
  end.

Fixpoint drop_slashes (r : list ascii) : list ascii :=
  match r with
  | [] => []
  | c :: r' => if Ascii.eqb c "/"%char then drop_slashes r' else r
  end.

Definition dirname (p : string) : string :=
  let head := drop_to_slash (rev (list_ascii_of_string p)) in
  match drop_slashes head with
  | [] => string_of_list_ascii (rev head)
  | stripped => string_of_list_ascii (rev stripped)
  end.

(** [obj[k1][k2]...append(item)], in place in Python. *)
Fixpoint append_at (cur : value) (keys : list key) (item : value)
  : result value :=
  match keys with
  | [] =>
      match cur with
      | VList l => Ok (VList (l ++ [item]))
      | _ => Raise AttributeError
      end
  | k :: ks =>
      child ← getitem cur k;
      child' ← append_at child ks item;
      setitem cur k child'
  end.

Definition env_entry (name : string) (v : value) : value :=
  VDict [(KStr "name", VStr name); (KStr "value", v)].

(** [data.get('kind')] and [data.get('metadata', {}).get('name')]. *)
Definition kind_and_name (data : value) : result (value * value) :=
  kind ← dict_get_default data (KStr "kind") VNone;
  meta ← dict_get_default data (KStr "metadata") (VDict []);
  name ← dict_get_default meta (KStr "name") VNone;
  Ok (kind, name).

(** ** job_manager.py: [K8sJobManager] *)

Section K8sJobManager.
Context (cfg : Config) (lib : Libraries) {W : Type} `{!ControlWorld W}.

Definition kube_apply (data : value) (allow_exists : bool)
  : io W (option (list Created)) :=
  fun w =>
    match create_from_dict data (KUBE_NAMESPACE cfg) w with
    | (Ok created, w') => (Ok (Some created), w')
    | (Raise (FailToCreateError errs), w') =>
        if allow_exists then
          match check_already_exists_error errs with
          | Ok true =>
              match kind_and_name data with
              | Ok (kind, name) =>
                  (Ok None, logger_info (InfoAlreadyExists kind name) w')
              | Raise e => (Raise e, w')
              end
          | Ok false => (Raise (FailToCreateError errs), w')
          | Raise e => (Raise e, w')
          end
        else (Raise (FailToCreateError errs), w')
    | (Raise e, w') => (Raise e, w')
    end.

Definition job_name (job_id : string) : string :=
  KUBE_DEFAULT_NAME_PREFIX cfg +:+ "-job-" +:+ job_id.

Definition s3_model_dir (project_id data_hash : string) : string :=
  S3_DIR cfg +:+ "/" +:+ project_id +:+ "/" +:+ data_hash.

(** Lines 134-135: the canonical text of the training data and its
    digest. *)
Definition canonical_training_data (training_data : string) : result string :=
  doc ← yaml_safe_load lib training_data;
  Ok (yaml_safe_dump_sorted lib doc).

Definition content_hash (training_data : string) : result string :=
  canonical ← canonical_training_data training_data;
  Ok (md5_hexdigest lib canonical).

(** Lines 157-177: the environment of the training container. *)
Definition job_envs (project_id td_hash : string)
    (rasa_extra_args : option string) (use_cache is_rasa_for_botfront : bool)
  : list value :=
  [ env_entry "S3_MODEL_DIR" (VStr (s3_model_dir project_id td_hash));
    env_entry "S3_BUCKET_NAME" (opt_str (S3_BUCKET_NAME cfg));
    env_entry "S3_ENDPOINT" (opt_str (S3_ENDPOINT cfg));
    env_entry "S3_REGION" (opt_str (S3_REGION cfg)) ]
  ++ (if truthy_str rasa_extra_args
      then [env_entry "RASA_EXTRA_ARGS" (opt_str rasa_extra_args)] else [])
  ++ (if use_cache
      then [env_entry "S3_CACHE_PATH"
              (VStr (S3_CACHE_DIR cfg +:+ "/" +:+ project_id +:+ "/cache.tar.gz"))]
      else [])
  ++ (if truthy_str (LOCAL_VOLUME_PATH cfg)
      then [env_entry "LOCAL_VOLUME_PATH" (opt_str (LOCAL_VOLUME_PATH cfg))]
      else [])
  ++ (if is_rasa_for_botfront || truthy_str (IS_RASA_FOR_BOTFRONT cfg)
      then [env_entry "IS_RASA_FOR_BOTFRONT" (opt_str (IS_RASA_FOR_BOTFRONT cfg))]
      else []).

(** Lines 179-206: the Job manifest patched into the template. *)
Definition build_job (job : value) (project_id image td_hash job_id : string)
    (rasa_extra_args node : option string)
    (use_cache is_rasa_for_botfront : bool) : result value :=
  let envs := job_envs project_id td_hash rasa_extra_args use_cache
                is_rasa_for_botfront in
  let cm_name := KUBE_DEFAULT_NAME_PREFIX cfg +:+ "-cm-" +:+ job_id in
  job ← dict_set job "metadata.name" (VStr (job_name job_id));
  job ← dict_set job "metadata.labels.et/project-id" (VStr project_id);
  job ← dict_set job "metadata.labels.et/data-hash" (VStr td_hash);
  job ← dict_set job "spec.template.spec.containers.0.env" (VList envs);
  job ← dict_set job "spec.template.spec.containers.0.envFrom.0.secretRef.name"
          (VStr (KUBE_S3_SECRET_NAME cfg));
  job ← dict_set job "spec.template.spec.containers.0.image" (VStr image);
  job ← dict_set job "spec.template.spec.volumes.0.configMap.name" (VStr cm_name);
  job ← dict_set job "spec.template.spec.imagePullSecrets.0.name"
          (VStr (KUBE_REGCRED_SECRET_NAME cfg));
  job ← match node with
        | Some n => dict_set job "spec.template.spec.nodeName" (VStr n)
        | None => Ok job
        end;
  if truthy_str (LOCAL_VOLUME_PATH cfg) && truthy_str (LOCAL_VOLUME_PVC_NAME cfg)
  then
    job ← append_at job
            [KStr "spec"; KStr "template"; KStr "spec"; KStr "volumes"]
            (VDict [(KStr "name", VStr "train-data");
                    (KStr "persistentVolumeClaim",
                     VDict [(KStr "claimName",
                             opt_str (LOCAL_VOLUME_PVC_NAME cfg))])]);
    append_at job
      [KStr "spec"; KStr "template"; KStr "spec"; KStr "containers"; KInt 0;
       KStr "volumeMounts"]
      (VDict [(KStr "name", VStr "train-data");
              (KStr "mountPath", opt_str (LOCAL_VOLUME_PATH cfg))])
  else Ok job.

(** Lines 216-222: the ConfigMap manifest, before the script body. *)
Definition build_cm (cm : value) (project_id td_hash job_id job_uid : string)
  : result value :=
  let cm_name := KUBE_DEFAULT_NAME_PREFIX cfg +:+ "-cm-" +:+ job_id in
  cm ← dict_set cm "metadata.labels.et/job-id" (VStr job_id);
  cm ← dict_set cm "metadata.labels.et/project-id" (VStr project_id);
  cm ← dict_set cm "metadata.labels.et/data-hash" (VStr td_hash);
  cm ← dict_set cm "metadata.ownerReferences.0.name" (VStr (job_name job_id));
  cm ← dict_set cm "metadata.ownerReferences.0.uid" (VStr job_uid);
  dict_set cm "metadata.name" (VStr cm_name).

Definition log (r : log_record) : io W unit :=
  fun w => (Ok tt, logger_info r w).

(** Lines 141-151: the training data goes to the shared volume or to
    the bucket. *)
Definition upload_train_data (train_data_path training_data : string)
  : io W unit :=
  if truthy_str (LOCAL_VOLUME_PATH cfg) then
    let train_data_full_path :=
      default EmptyString (LOCAL_VOLUME_PATH cfg) +:+ "/" +:+ train_data_path in
    _ ← makedirs_exist_ok (dirname train_data_full_path);
    write_text train_data_full_path training_data
  else
    s3_put (S3_BUCKET_NAME cfg) train_data_path training_data.

(** Lines 134-206 of [train]: everything before the Job is created.
    Returns the job id, the content hash and the Job manifest. *)
Definition prepare_job (project_id image training_data : string)
    (rasa_extra_args node : option string)
    (use_cache is_rasa_for_botfront : bool) : io W (string * string * value) :=
  training_data ← lift (canonical_training_data training_data);
  let td_hash := md5_hexdigest lib training_data in
  job_id ← uuid4;
  let model_dir := s3_model_dir project_id td_hash in
  let train_data_path := model_dir +:+ "/train_data.yml" in
  _ ← log (Info ("Uploading train data to " +:+ training_data));
  _ ← upload_train_data train_data_path training_data;
  _ ← log (Info "Train data uploaded");
  job ← load_yml (JOB_TEMPLATE_PATH cfg);
  job ← lift (build_job job project_id image td_hash job_id rasa_extra_args
                node use_cache is_rasa_for_botfront);
  mret (job_id, td_hash, job).

(** Lines 214-223: the uid of the created Job and the ConfigMap
    manifest. *)
Definition prepare_cm (project_id td_hash job_id : string)
    (created_job : list Created) : io W value :=
  job_uid ← lift (match created_job with
                  | c :: _ => Ok (created_uid c)
                  | [] => Raise IndexError
                  end);
  cm ← load_yml (CM_TEMPLATE_PATH cfg);
  cm ← lift (build_cm cm project_id td_hash job_id job_uid);
  train_py ← read_file (TRAIN_PY_TEMPLATE_PATH cfg);
  lift (dict_set cm "data.train_py" (VStr train_py)).

Definition train (project_id image training_data : string)
    (rasa_extra_args node : option string)
    (use_cache is_rasa_for_botfront : bool) : io W (string * bool) :=
  prepared ← prepare_job project_id image training_data rasa_extra_args node
               use_cache is_rasa_for_botfront;
  let '(job_id, td_hash, job) := prepared in
  created_job ← create_from_dict job (KUBE_NAMESPACE cfg);
  _ ← log (Info ("Created job " +:+ job_name job_id));
  cm ← prepare_cm project_id td_hash job_id created_job;
  _ ← create_from_dict cm (KUBE_NAMESPACE cfg);
  _ ← log (Info ("Created cm " +:+ KUBE_DEFAULT_NAME_PREFIX cfg +:+ "-cm-" +:+ job_id));
  mret (job_id, true).

Definition _get_job (job_id : string) : io W (option V1Job) :=
  fun w =>
    match read_namespaced_job (job_name job_id) (KUBE_NAMESPACE cfg) w with
    | (Ok job, w') => (Ok (Some job), w')
    | (Raise (ApiError e), w') =>
        if api_status e =? 404 then (Ok None, w') else (Raise (ApiError e), w')
    | (Raise e, w') => (Raise e, w')
    end.

(** Lines 246-253: the status of a Job the orchestrator returned. *)
Definition status_of_job (job : V1Job) : Status.t :=
  let job_status := job_status job in
  if truthy_int (succeeded job_status) then Status.success
  else if truthy_int (active job_status) then Status.training
  else if truthy_int (failed job_status) then Status.failed
  else Status.none.

Definition status (job_id : string) : io W Status.t :=
  job ← _get_job job_id;
  match job with
  | None => mret Status.none
  | Some job => mret (status_of_job job)
  end.

Definition cancel (job_id : string) : io W bool :=
  st ← status job_id;
  if decide (st <> Status.training) then mret false
  else
    fun w =>
      let opts := mkDeleteOptions "Background" in
      match delete_namespaced_job (job_name job_id) (KUBE_NAMESPACE cfg) opts w with
      | (Ok _, w') => (Ok true, w')
      | (Raise (ApiError e), w') =>
          if api_status e =? 404 then (Ok false, w') else (Raise (ApiError e), w')
      | (Raise e, w') => (Raise e, w')
      end.

End K8sJobManager.

(** ** A model cluster to run the control side on

    A small orchestrator with Jobs and ConfigMaps by name, a bucket, a
    volume, template files and an identifier supply.  [cl_faults] scripts
    the outside world: every call that can fail takes the head of the
    list, and [Some e] makes that call raise [e]. *)

Record Cluster := mkCluster {
  cl_jobs : gmap string V1Job;
  cl_configmaps : gset string;
  cl_uuids : list string;
  cl_templates : gmap string value;
  cl_texts : gmap string string;
  cl_stored : list (string * string);
  cl_faults : list (option exn);
  cl_logs : list log_record
}.

Definition conflict_409 : ApiException :=
  mkApiException 409 (BodyObject (Some "AlreadyExists")).

Definition not_found_404 : ApiException :=
  mkApiException 404 (BodyObject (Some "NotFound")).

Definition cl_with_jobs (jobs : gmap string V1Job) (c : Cluster) : Cluster :=
  mkCluster jobs (cl_configmaps c) (cl_uuids c) (cl_templates c) (cl_texts c)
    (cl_stored c) (cl_faults c) (cl_logs c).

Definition cl_with_configmaps (cms : gset string) (c : Cluster) : Cluster :=
  mkCluster (cl_jobs c) cms (cl_uuids c) (cl_templates c) (cl_texts c)
    (cl_stored c) (cl_faults c) (cl_logs c).

Definition cl_with_uuids (ids : list string) (c : Cluster) : Cluster :=
  mkCluster (cl_jobs c) (cl_configmaps c) ids (cl_templates c) (cl_texts c)
    (cl_stored c) (cl_faults c) (cl_logs c).

Definition cl_with_stored (files : list (string * string)) (c : Cluster) : Cluster :=
  mkCluster (cl_jobs c) (cl_configmaps c) (cl_uuids c) (cl_templates c) (cl_texts c)
    files (cl_faults c) (cl_logs c).

Definition cl_with_faults (faults : list (option exn)) (c : Cluster) : Cluster :=
  mkCluster (cl_jobs c) (cl_configmaps c) (cl_uuids c) (cl_templates c) (cl_texts c)
    (cl_stored c) faults (cl_logs c).

Definition cl_with_logs (logs : list log_record) (c : Cluster) : Cluster :=
  mkCluster (cl_jobs c) (cl_configmaps c) (cl_uuids c) (cl_templates c) (cl_texts c)
    (cl_stored c) (cl_faults c) logs.

(** Run [normal] unless the script makes this call fail. *)
Definition cl_call {A} (normal : io Cluster A) : io Cluster A :=
  fun c =>
    match cl_faults c with
    | Some e :: rest => (Raise e, cl_with_faults rest c)
    | None :: rest => normal (cl_with_faults rest c)
    | [] => normal c
    end.

Definition manifest_text (data : value) (keys : list key) : string :=
  match get_at data keys with
  | Ok (VStr s) => s
  | _ => EmptyString
  end.

Definition cl_create (data : value) (ns : string) : io Cluster (list Created) :=
  cl_call (fun c =>
    let name := manifest_text data [KStr "metadata"; KStr "name"] in
    if String.eqb (manifest_text data [KStr "kind"]) "Job" then
      match cl_jobs c !! name with
      | Some _ => (Raise (FailToCreateError [conflict_409]), c)
      | None =>
          let job := mkJob ("uid-" +:+ name) [] (mkJobStatus None None None) in
          (Ok [mkCreated (job_uid job)], cl_with_jobs (<[name := job]> (cl_jobs c)) c)
      end
    else if decide (name ∈ cl_configmaps c) then
      (Raise (FailToCreateError [conflict_409]), c)
    else
      (Ok [mkCreated ("uid-" +:+ name)],
       cl_with_configmaps ({[name]} ∪ cl_configmaps c) c)).

#[global] Instance cluster_world : ControlWorld Cluster := {
  read_namespaced_job name ns := cl_call (fun c =>
    match cl_jobs c !! name with
    | Some job => (Ok job, c)
    | None => (Raise (ApiError not_found_404), c)
    end);
  delete_namespaced_job name ns opts := cl_call (fun c =>
    match cl_jobs c !! name with
    | Some _ => (Ok tt, cl_with_jobs (delete name (cl_jobs c)) c)
    | None => (Raise (ApiError not_found_404), c)
    end);
  create_from_dict := cl_create;
  uuid4 := fun c =>
    match cl_uuids c with
    | id :: rest => (Ok id, cl_with_uuids rest c)
    | [] => (Ok EmptyString, c)
    end;
  makedirs_exist_ok dir := cl_call (fun c => (Ok tt, c));
  write_text path text := cl_call (fun c =>
    (Ok tt, cl_with_stored ((path, text) :: cl_stored c) c));
  s3_put bucket path text := cl_call (fun c =>
    (Ok tt, cl_with_stored ((path, text) :: cl_stored c) c));
  load_yml path := cl_call (fun c =>
    match cl_templates c !! path with
    | Some doc => (Ok doc, c)
    | None => (Raise (OtherError "FileNotFoundError"), c)
    end);
  read_file path := cl_call (fun c =>
    match cl_texts c !! path with
    | Some text => (Ok text, c)
    | None => (Raise (OtherError "FileNotFoundError"), c)
    end);
  logger_info r c := cl_with_logs (cl_logs c ++ [r]) c
}.

(** Stand-ins for the libraries, enough to run [train]: a document is
    read as one plain scalar (surrounding blanks dropped), written back
    with a line end, and the digest is the text itself. *)
Definition plain_scalar_lib : Libraries := {|
  yaml_safe_load s := Ok (VStr (string_of_list_ascii (strip (list_ascii_of_string s))));
  yaml_emit doc :=
    match doc with
    | VStr s => s +:+ String (ascii_of_nat 10) EmptyString
    | _ => EmptyString
    end;
  md5_hexdigest s := s
|}.

Definition example_config : Config := {|
  LOCAL_VOLUME_PATH := None;
  LOCAL_VOLUME_PVC_NAME := None;
  S3_BUCKET_NAME := Some "bucket";
  S3_ENDPOINT := None;
  S3_REGION := None;
  S3_DIR := "models";
  S3_CACHE_DIR := "models-cache";
  JOB_TEMPLATE_PATH := "templates/job.yml";
  TRAIN_PY_TEMPLATE_PATH := "templates/train.py";
  CM_TEMPLATE_PATH := "templates/cm.yml";
  KUBE_NAMESPACE := "external-training";
  KUBE_DEFAULT_NAME_PREFIX := "et";
  KUBE_REGCRED_SECRET_NAME := "bet-regcred";
  KUBE_S3_SECRET_NAME := "bet-s3-secret";
  IS_RASA_FOR_BOTFRONT := None
|}.

(** Templates with the fields [train] patches. *)
Definition example_job_template : value :=
  VDict [(KStr "kind", VStr "Job");
         (KStr "metadata", VDict [(KStr "name", VStr EmptyString); (KStr "labels", VDict [])]);
         (KStr "spec",
          VDict [(KStr "template",
            VDict [(KStr "spec",
              VDict [(KStr "containers",
                      VList [VDict [(KStr "name", VStr "train");
                                    (KStr "image", VStr EmptyString);
                                    (KStr "env", VList []);
                                    (KStr "envFrom",
                                     VList [VDict [(KStr "secretRef",
                                                    VDict [(KStr "name", VStr EmptyString)])]]);
                                    (KStr "volumeMounts", VList [])]]);
                     (KStr "volumes",
                      VList [VDict [(KStr "name", VStr "script");
                                    (KStr "configMap", VDict [(KStr "name", VStr EmptyString)])]]);
                     (KStr "imagePullSecrets", VList [VDict [(KStr "name", VStr EmptyString)]])])])])].

Definition example_cm_template : value :=
  VDict [(KStr "kind", VStr "ConfigMap");
         (KStr "metadata",
          VDict [(KStr "name", VStr EmptyString);
                 (KStr "labels", VDict []);
                 (KStr "ownerReferences",
                  VList [VDict [(KStr "kind", VStr "Job");
                                (KStr "name", VStr EmptyString);
                                (KStr "uid", VStr EmptyString)]])]);
         (KStr "data", VDict [])].

Definition example_cluster : Cluster := {|
  cl_jobs := ∅;
  cl_configmaps := ∅;
  cl_uuids := ["u1"; "u2"];
  cl_templates := {["templates/job.yml" := example_job_template;
                    "templates/cm.yml" := example_cm_template]};
  cl_texts := {["templates/train.py" := "main()"]};
  cl_stored := [];
  cl_faults := [];
  cl_logs := []
|}.

(** The number a status counter stands for; the orchestrator leaves a
    counter out ([None]) when it is zero. *)
Definition count (o : option Z) : Z := default 0 o.

(** The orchestrator answers a read of the Job with 404. *)
Definition job_absent {W} `{!ControlWorld W} (cfg : Config) (job_id : string)
    (w : W) : Prop :=
  exists e w', read_namespaced_job (job_name cfg job_id) (KUBE_NAMESPACE cfg) w
               = (Raise (ApiError e), w') /\ api_status e = 404.

Definition training_job : V1Job :=
  mkJob "uid-1" [] (mkJobStatus None (Some 1) None).

Definition finishing_job : V1Job :=
  mkJob "uid-2" [] (mkJobStatus (Some 1) (Some 1) (Some 2)).

Definition cluster_with (name : string) (job : V1Job) : Cluster :=
  cl_with_jobs {[name := job]} example_cluster.

Definition example_manifest : value :=
  VDict [(KStr "kind", VStr "Job");
         (KStr "metadata", VDict [(KStr "name", VStr "et-job-u1")])].

(** Two subscript paths part ways: at the first position where they
    differ, the two subscripts are not both ints (two different ints may
    denote one position of a sequence). *)
Fixpoint diverges_b (p q : list key) : bool :=
  match p, q with
  | a :: p', b :: q' =>
      if decide (a = b) then diverges_b p' q'
      else match a, b with
           | KInt _, KInt _ => false
           | _, _ => true
           end
  | _, _ => false
  end.

(** Where [train] puts the environment of the training container. *)
Definition env_path : list key :=
  [KStr "spec"; KStr "template"; KStr "spec"; KStr "containers"; KInt 0; KStr "env"].

(** ** templates/train.py: the worker *)

Module Worker.

(** The environment of the worker process. *)
Record Env := mkEnv {
  LOCAL_VOLUME_PATH : option string;
  S3_BUCKET_NAME : string;
  S3_MODEL_DIR : string;
  S3_CACHE_PATH : option string;
  RASA_EXTRA_ARGS : option string
}.

Definition TRAIN_DATA_DIR : string := "data".

(** What the script prints. *)
Inductive line :=
| Text (s : string)
| Running (cmd : list string).

(** The world of the worker: the bucket client, the file system, the
    training subprocess, the clock and standard output.  Nothing is
    assumed about the answers. *)
Class OS (W : Type) := {
  make_s3_client : io W unit;
  s3_upload_file : string -> string -> string -> io W unit;
  s3_download_file : string -> string -> string -> io W unit;
  mkdir : string -> io W unit;
  makedirs_exist_ok : string -> io W unit;
  copy : string -> string -> io W unit;
  unpack_archive : string -> string -> io W unit;
  make_archive : string -> string -> string -> io W unit;
  path_exists : string -> W -> bool;
  subprocess_run : list string -> io W Z;
  print : line -> W -> W;
  print_exc : exn -> W -> W;
  sleep : Z -> W -> W
}.

(** A computation of the worker.  [None] stands for a run that is still
    inside the upload loop when the step budget of the model is used
    up; Python has no such budget. *)
Definition proc (W A : Type) : Type := W -> option (result A * W).

#[global] Instance proc_ret {W} : MRet (proc W) := fun _ a w => Some (Ok a, w).
#[global] Instance proc_bind {W} : MBind (proc W) := fun _ _ f c w =>
  match c w with
  | Some (Ok a, w') => f a w'
  | Some (Raise e, w') => Some (Raise e, w')
  | None => None
  end.

Definition call {W A} (c : io W A) : proc W A := fun w => Some (c w).

Definition say {W} `{!OS W} (l : line) : proc W unit :=
  fun w => Some (Ok tt, print l w).

Definition show_exc {W} `{!OS W} (e : exn) : proc W unit :=
  fun w => Some (Ok tt, print_exc e w).

Definition exists_path {W} `{!OS W} (path : string) : proc W bool :=
  fun w => Some (Ok (path_exists path w), w).

(** [exit(code)] raises [SystemExit]. *)
Definition exit {W} (code : Z) : proc W unit :=
  fun w => Some (Raise (SystemExit code), w).

(** [try: body except Exception: handler]. *)
Definition try_except {W A} (body : proc W A) (handler : exn -> proc W A)
  : proc W A :=
  fun w =>
    match body w with
    | Some (Raise e, w') =>
        if is_exception e then handler e w' else Some (Raise e, w')
    | r => r
    end.

(** [BaseStorage]: the two methods every storage has. *)
Record BaseStorage (W : Type) := mkStorage {
  upload_file : string -> string -> proc W unit;
  download_file : string -> string -> proc W unit
}.
Arguments upload_file {W} _ _ _.
Arguments download_file {W} _ _ _.

Section Script.
Context (env : Env) {W : Type} `{!OS W}.

(** The pause after the next failure: [if pause < max_pause: pause *= 2]. *)
Definition next_pause (pause max_pause : Z) : Z :=
  if pause <? max_pause then pause * 2 else pause.

(** The [while True] loop, one attempt per unit of [fuel]. *)
Fixpoint upload_to_s3 (fuel : nat) (local_path s3_path : string)
    (pause max_pause : Z) : proc W unit :=
  fun w =>
    match fuel with
    | O => None
    | S fuel' =>
        let w := print (Text ("Uploading " +:+ local_path +:+ " to " +:+ s3_path)) w in
        match s3_upload_file local_path (S3_BUCKET_NAME env) s3_path w with
        | (Ok _, w') => Some (Ok tt, print (Text (local_path +:+ " uploaded")) w')
        | (Raise e, w') =>
            if is_exception e then
              upload_to_s3 fuel' local_path s3_path
                (next_pause pause max_pause) max_pause
                (sleep pause (print_exc e w'))
            else Some (Raise e, w')
        end
    end.

Definition LocalStorage (base_path : option string) : BaseStorage W :=
  let base_path := if truthy_str base_path then default EmptyString base_path
                   else "." in
  {| upload_file local_path remote_path :=
       let r_file_path := base_path +:+ "/" +:+ remote_path in
       _ ← call (makedirs_exist_ok (dirname r_file_path));
       call (copy local_path r_file_path);
     download_file remote_path local_path :=
       call (copy (base_path +:+ "/" +:+ remote_path) local_path) |}.

(** [S3Storage()]: the client is made by [make_s3_client]; uploads go
    through [upload_to_s3] with its default pauses. *)
Definition S3Storage (fuel : nat) : proc W (BaseStorage W) :=
  _ ← call make_s3_client;
  mret {| upload_file local_path remote_path :=
            upload_to_s3 fuel local_path remote_path 10 2560;
          download_file remote_path local_path :=
            call (s3_download_file (S3_BUCKET_NAME env) remote_path local_path) |}.

(** Lines 95-104: the cache is fetched inside [try ... except Exception]. *)
Definition restore_cache (storage : BaseStorage W) (local_cache_dir : string)
  : proc W unit :=
  if truthy_str (S3_CACHE_PATH env) then
    let cache_path := default EmptyString (S3_CACHE_PATH env) in
    try_except
      (_ ← say (Text ("Trying to download cache " +:+ cache_path));
       _ ← download_file storage cache_path "cache.tar.gz";
       _ ← say (Text "Cache downloaded");
       _ ← say (Text "Extracting cache");
       call (unpack_archive "cache.tar.gz" local_cache_dir))
      (fun e =>
         _ ← say (Text ("Error downloading " +:+ cache_path));
         show_exc e)
  else mret tt.

(** Lines 128-130: the cache is packed and uploaded. *)
Definition store_cache (storage : BaseStorage W) (local_cache_dir : string)
  : proc W unit :=
  there ← (if truthy_str (S3_CACHE_PATH env) then exists_path local_cache_dir
           else mret false : proc W bool);
  if (there : bool) then
    _ ← call (make_archive "cache" "gztar" local_cache_dir);
    upload_file storage "cache.tar.gz" (default EmptyString (S3_CACHE_PATH env))
  else mret tt.

Definition train_command (train_data_path model_path : string) : list string :=
  ["rasa"; "train"; "-c"; train_data_path; "-d"; train_data_path;
   "--fixed-model-name"; model_path]
  ++ (if truthy_str (RASA_EXTRA_ARGS env)
      then List.filter (fun arg => negb (String.eqb arg EmptyString))
             (split_on " "%char (default EmptyString (RASA_EXTRA_ARGS env)))
      else []).

Definition main (fuel : nat) : proc W unit :=
  _ ← call (mkdir TRAIN_DATA_DIR);
  let train_data_path := TRAIN_DATA_DIR +:+ "/train_data.yml" in
  let model_path := "/app/model.tar.gz" in
  _ ← call (mkdir ".rasa");
  let local_cache_dir := ".rasa/cache" in
  storage ← (if truthy_str (LOCAL_VOLUME_PATH env)
             then mret (LocalStorage (LOCAL_VOLUME_PATH env))
             else S3Storage fuel : proc W (BaseStorage W));
  let remote_train_data_path := S3_MODEL_DIR env +:+ "/train_data.yml" in
  _ ← say (Text ("Downloading train data " +:+ remote_train_data_path));
  _ ← download_file storage remote_train_data_path train_data_path;
  _ ← say (Text "Train data downloaded");
  _ ← restore_cache storage local_cache_dir;
  let cmd := train_command train_data_path model_path in
  _ ← say (Running cmd);
  returncode ← call (subprocess_run cmd);
  _ ← (if returncode =? 0 then mret tt else exit returncode : proc W unit);
  produced ← exists_path model_path;
  let model_path := if (produced : bool) then model_path
                    else model_path +:+ ".tar.gz" in
  _ ← upload_file storage model_path (S3_MODEL_DIR env +:+ "/model.tar.gz");
  store_cache storage local_cache_dir.

(** *** The retry schedule, as the specification words it *)

(** The pause in force after [n] failed attempts. *)
Fixpoint pause_after (n : nat) (pause max_pause : Z) : Z :=
  match n with
  | O => pause
  | S k => next_pause (pause_after k pause max_pause) max_pause
  end.

(** One attempt: the announcement and the call of the client. *)
Definition attempt (local_path s3_path : string) (w : W) : result unit * W :=
  s3_upload_file local_path (S3_BUCKET_NAME env) s3_path
    (print (Text ("Uploading " +:+ local_path +:+ " to " +:+ s3_path)) w).

(** The world in which attempt [n+1] starts when the first [n]
    attempts all failed with an [Exception]: after failure [k+1] the
    traceback is printed and the process sleeps [pause_after k]. *)
Fixpoint before_attempt (n : nat) (local_path s3_path : string)
    (pause max_pause : Z) (w : W) : option W :=
  match n with
  | O => Some w
  | S k =>
      match before_attempt k local_path s3_path pause max_pause w with
      | Some wk =>
          match attempt local_path s3_path wk with
          | (Raise e, w') =>
              if is_exception e
              then Some (sleep (pause_after k pause max_pause) (print_exc e w'))
              else None
          | (Ok _, _) => None
          end
      | None => None
      end
  end.

End Script.

(** *** A model pod to run the worker on

    [pod_faults] scripts the outside world: every call that can fail
    takes the head of the list, and [Some e] makes that call raise [e].
    The trace records what the process did. *)

Inductive event :=
| Printed (l : line)
| Traceback (e : exn)
| Slept (seconds : Z)
| Did (operation : string) (arguments : list string).

Record Pod := mkPod {
  pod_faults : list (option exn);
  pod_paths : list string;
  pod_returncode : Z;
  pod_trace : list event
}.

Definition pod_note (ev : event) (p : Pod) : Pod :=
  mkPod (pod_faults p) (pod_paths p) (pod_returncode p) (pod_trace p ++ [ev]).

Definition pod_call (operation : string) (arguments : list string) : io Pod unit :=
  fun p =>
    match pod_faults p with
    | Some e :: rest =>
        (Raise e, mkPod rest (pod_paths p) (pod_returncode p) (pod_trace p))
    | None :: rest =>
        (Ok tt, pod_note (Did operation arguments)
                  (mkPod rest (pod_paths p) (pod_returncode p) (pod_trace p)))
    | [] => (Ok tt, pod_note (Did operation arguments) p)
    end.

#[global] Instance pod_os : OS Pod := {
  make_s3_client := pod_call "make_s3_client" [];
  s3_upload_file local_path bucket s3_path :=
    pod_call "s3.upload_file" [local_path; bucket; s3_path];
  s3_download_file bucket remote_path local_path :=
    pod_call "s3.download_file" [bucket; remote_path; local_path];
  mkdir path := pod_call "mkdir" [path];
  makedirs_exist_ok path := pod_call "makedirs" [path];
  copy src dst := pod_call "copy" [src; dst];
  unpack_archive archive dir := pod_call "unpack_archive" [archive; dir];
  make_archive base format dir := pod_call "make_archive" [base; format; dir];
  path_exists path p := bool_decide (path ∈ pod_paths p);
  subprocess_run cmd := fun p =>
    match pod_call "subprocess.run" cmd p with
    | (Ok _, p') => (Ok (pod_returncode p'), p')
    | (Raise e, p') => (Raise e, p')
    end;
  print l := pod_note (Printed l);
  print_exc e := pod_note (Traceback e);
  sleep seconds := pod_note (Slept seconds)
}.

Definition bucket_env : Env := {|
  LOCAL_VOLUME_PATH := None;
  S3_BUCKET_NAME := "bucket";
  S3_MODEL_DIR := "models/p1/h";
  S3_CACHE_PATH := Some "models-cache/p1/cache.tar.gz";
  RASA_EXTRA_ARGS := None
|}.

Definition volume_env : Env := {|
  LOCAL_VOLUME_PATH := Some "/mnt";
  S3_BUCKET_NAME := "bucket";
  S3_MODEL_DIR := "models/p1/h";
  S3_CACHE_PATH := Some "models-cache/p1/cache.tar.gz";
  RASA_EXTRA_ARGS := None
|}.

Definition os_error : exn := OtherError "OSError".

(** A pod in which training succeeds and leaves a model and a cache. *)
Definition trained_pod (faults : list (option exn)) : Pod := {|
  pod_faults := faults;
  pod_paths := ["/app/model.tar.gz"; ".rasa/cache"];
  pod_returncode := 0;
  pod_trace := []
|}.

(** A script in which the first [n] calls succeed. *)
Definition calls_ok (n : nat) : list (option exn) := replicate n None.

End Worker.

(** ** job_manager.py: [logs], [_get_s3_result_dir] and [result] *)

Record V1Pod := mkV1Pod {
  pod_name : string
}.

(** What [result] hands back: a [Path] on the shared volume (here the
    text the [Path] is made from), or the body of the stored object. *)
Inductive artifact :=
| ArtifactPath (path : string)
| ArtifactBody (body : string).

(** The calls of [logs] and [result]: listing pods by label selector,
    reading a pod log, and [s3.Object(bucket, key).get()['Body']]. *)
Class ReadWorld (W : Type) := {
  list_namespaced_pod : string -> string -> io W (list V1Pod);
  read_namespaced_pod_log : string -> string -> io W string;
  s3_get_body : option string -> string -> io W string
}.

(** [labels[k]] on the labels of a Job.  (A Job read back without any
    label has [labels = None] in Python, where the subscript is a
    [TypeError]; the properties below speak of Jobs that have labels.) *)
Fixpoint label (k : string) (labels : list (string * string)) : result string :=
  match labels with
  | [] => Raise (KeyError (KStr k))
  | (k', v) :: rest => if String.eqb k' k then Ok v else label k rest
  end.

Section K8sJobManagerReads.
Context (cfg : Config) {W : Type} `{!ControlWorld W} `{!ReadWorld W}.

Definition logs (job_id : string) : io W (option string) :=
  items ← list_namespaced_pod (KUBE_NAMESPACE cfg)
             ("job-name=" +:+ job_name cfg job_id);
  match items with
  | [] => mret None
  | pod :: _ =>
      fun w =>
        match read_namespaced_pod_log (pod_name pod) (KUBE_NAMESPACE cfg) w with
        | (Ok text, w') => (Ok (Some text), w')
        | (Raise (ApiError e), w') =>
            if api_status e =? 400 then (Ok None, w') else (Raise (ApiError e), w')
        | (Raise e, w') => (Raise e, w')
        end
  end.

Definition _get_s3_result_dir (job_id : string) : io W (option string) :=
  job ← _get_job cfg job_id;
  match job with
  | None => mret None
  | Some job =>
      if negb (truthy_int (succeeded (job_status job))) then mret None
      else
        project_id ← lift (label "et/project-id" (job_labels job));
        data_hash ← lift (label "et/data-hash" (job_labels job));
        mret (Some (s3_model_dir cfg project_id data_hash))
  end.

Definition result_ (job_id : string) : io W (option artifact) :=
  result_dir ← _get_s3_result_dir job_id;
  match result_dir with
  | None => mret None
  | Some result_dir =>
      let model_path := result_dir +:+ "/model.tar.gz" in
      if truthy_str (LOCAL_VOLUME_PATH cfg) then
        mret (Some (ArtifactPath
                      (default EmptyString (LOCAL_VOLUME_PATH cfg) +:+ "/"
                       +:+ model_path)))
      else
        body ← s3_get_body (S3_BUCKET_NAME cfg) model_path;
        mret (Some (ArtifactBody body))
  end.

End K8sJobManagerReads.

(** ** app.py: the routes *)

Module App.

(** What a route answers: a body, an [HTTPException] with its status
    code, or an exception nothing catches. *)
Inductive reply (A : Type) :=
| Responds (a : A)
| HTTPException (status_code : Z)
| Uncaught (e : exn).
Arguments Responds {A} a.
Arguments HTTPException {A} status_code.
Arguments Uncaught {A} e.

(** [request.headers.get("Authorization")]. *)
Record Request := mkRequest {
  authorization : option string
}.

(** [token != AUTH_TOKEN] on two [Optional[str]]. *)
Definition verify_token (AUTH_TOKEN : option string) (request : Request) : bool :=
  bool_decide (authorization request = AUTH_TOKEN).

(** Run a call of the job manager behind the token check. *)
Definition guarded {W A B} (AUTH_TOKEN : option string) (request : Request)
    (c : io W A) (answer : A -> reply B) : W -> reply B * W :=
  fun w =>
    if verify_token AUTH_TOKEN request then
      match c w with
      | (Ok a, w') => (answer a, w')
      | (Raise e, w') => (Uncaught e, w')
      end
    else (HTTPException 401, w).

(** The body of a [FileResponse] or [StreamingResponse], both served as
    [application/tar+gzip]. *)
Inductive download :=
| FileResponse (path : string)
| StreamingResponse (body : string).

(** The methods of the job manager the routes call
    ([get_job_manager()] is the manager made at startup). *)
Definition manager_train := @train.
Definition manager_status := @status.
Definition manager_cancel := @cancel.
Definition manager_logs := @logs.
Definition manager_result := @result_.

Section Routes.
Context (cfg : Config) (lib : Libraries) (AUTH_TOKEN : option string)
  {W : Type} `{!ControlWorld W} `{!ReadWorld W}.

(** [GET /] answers without looking at the request. *)
Definition root : string := "ok".

(** [training_data] is [training_data.file.read().decode()]: the text of
    the upload, or the decoding error. *)
Definition train (request : Request) (project_id image : string)
    (training_data : result string) (rasa_extra_args node : option string)
    (use_cache is_rasa_for_botfront : bool) : W -> reply (string * bool) * W :=
  guarded AUTH_TOKEN request
    (text ← lift training_data;
     manager_train cfg lib W _ project_id image text rasa_extra_args node
       use_cache is_rasa_for_botfront)
    Responds.

Definition status (request : Request) (job_id : string)
  : W -> reply Status.t * W :=
  guarded AUTH_TOKEN request (manager_status cfg W _ job_id) Responds.

Definition cancel (request : Request) (job_id : string) : W -> reply bool * W :=
  guarded AUTH_TOKEN request (manager_cancel cfg W _ job_id) Responds.

(** [return res or '']. *)
Definition logs (request : Request) (job_id : string) : W -> reply string * W :=
  guarded AUTH_TOKEN request (manager_logs cfg W _ job_id)
    (fun res =>
       match res with
       | Some text => Responds text
       | None => Responds EmptyString
       end).

Definition result (request : Request) (job_id : string)
  : W -> reply download * W :=
  guarded AUTH_TOKEN request (manager_result cfg W _ _ job_id)
    (fun res =>
       match res with
       | None => HTTPException 404
       | Some (ArtifactPath path) => Responds (FileResponse path)
       | Some (ArtifactBody body) => Responds (StreamingResponse body)
       end).

End Routes.

End App.

(** ** templates/train.py: the parts of [main] *)

Module WorkerPhases.
Import Worker.

Section Phases.
Context (env : Env) {W : Type} `{!OS W}.

(** Lines 78-104: directories, storage, training data, cache. *)
Definition before_training (fuel : nat) : proc W (BaseStorage W) :=
  _ ← call (mkdir TRAIN_DATA_DIR);
  _ ← call (mkdir ".rasa");
  storage ← (if truthy_str (LOCAL_VOLUME_PATH env)
             then mret (LocalStorage (LOCAL_VOLUME_PATH env))
             else S3Storage env fuel : proc W (BaseStorage W));
  _ ← say (Text ("Downloading train data " +:+ S3_MODEL_DIR env +:+ "/train_data.yml"));
  _ ← download_file storage (S3_MODEL_DIR env +:+ "/train_data.yml")
        (TRAIN_DATA_DIR +:+ "/train_data.yml");
  _ ← say (Text "Train data downloaded");
  _ ← restore_cache env storage ".rasa/cache";
  mret storage.

(** Lines 106-119: the training command is announced and run. *)
Definition run_training : proc W Z :=
  let cmd := train_command env (TRAIN_DATA_DIR +:+ "/train_data.yml")
               "/app/model.tar.gz" in
  _ ← say (Running cmd);
  call (subprocess_run cmd).

(** Lines 123-130: the model and the cache are uploaded. *)
Definition after_training (storage : BaseStorage W) : proc W unit :=
  produced ← exists_path "/app/model.tar.gz";
  let model_path := if (produced : bool) then "/app/model.tar.gz"
                    else "/app/model.tar.gz" +:+ ".tar.gz" in
  _ ← upload_file storage model_path (S3_MODEL_DIR env +:+ "/model.tar.gz");
  store_cache env storage ".rasa/cache".

End Phases.

End WorkerPhases.

(** ** Text helpers for the properties of paths and names *)

(** [sep.join(pieces)]. *)
Fixpoint join (sep : ascii) (pieces : list string) : string :=
  match pieces with
  | [] => EmptyString
  | [s] => s
  | s :: rest => s +:+ String sep (join sep rest)
  end.

Fixpoint has_char (c : ascii) (s : string) : bool :=
  match s with
  | EmptyString => false
  | String c' s' => Ascii.eqb c' c || has_char c s'
  end.

(** [example_pod] with the image of its first container patched. *)
Definition example_pod_patched : value :=
  VDict [(KStr "kind", VStr "Pod");
         (KStr "spec",
          VDict [(KStr "containers",
                  VList [VDict [(KStr "name", VStr "train");
                                (KStr "image", VStr "img:tag")];
                         VDict [(KStr "name", VStr "sidecar")]]);
                 (KStr "restartPolicy", VStr "Never")])].

(** A stand-in parser that rejects a document with a tab in it, as the
    YAML scanner does for indentation. *)
Definition picky_lib : Libraries := {|
  yaml_safe_load s :=
    if has_char (ascii_of_nat 9) s then Raise (OtherError "ScannerError")
    else Ok (VStr (string_of_list_ascii (strip (list_ascii_of_string s))));
  yaml_emit doc :=
    match doc with
    | VStr s => s +:+ String (ascii_of_nat 10) EmptyString
    | _ => EmptyString
    end;
  md5_hexdigest s := s
|}.

Definition tabbed_document : string := String (ascii_of_nat 9) "nlu".

(** ** A model cluster with pods and logs *)

Record Reader := mkReader {
  rd_cluster : Cluster;
  rd_pods : gmap string (list V1Pod);
  rd_logs : gmap string string
}.

Definition on_cluster {A} (c : io Cluster A) : io Reader A :=
  fun r =>
    match c (rd_cluster r) with
    | (a, cl) => (a, mkReader cl (rd_pods r) (rd_logs r))
    end.

#[global] Instance reader_world : ControlWorld Reader := {
  read_namespaced_job name ns := on_cluster (read_namespaced_job name ns);
  delete_namespaced_job name ns opts := on_cluster (delete_namespaced_job name ns opts);
  create_from_dict data ns := on_cluster (create_from_dict data ns);
  uuid4 := on_cluster uuid4;
  makedirs_exist_ok dir := on_cluster (makedirs_exist_ok dir);
  write_text path text := on_cluster (write_text path text);
  s3_put bucket path text := on_cluster (s3_put bucket path text);
  load_yml path := on_cluster (load_yml path);
  read_file path := on_cluster (read_file path);
  logger_info r rd := mkReader (logger_info r (rd_cluster rd)) (rd_pods rd) (rd_logs rd)
}.

(** Pods are listed by label selector; a pod without a log answers 400
    (its container has not started); the bucket holds what was stored. *)
#[global] Instance reader_reads : ReadWorld Reader := {
  list_namespaced_pod ns selector := fun r =>
    match on_cluster (cl_call (fun c => (Ok tt, c))) r with
    | (Ok _, r') => (Ok (default [] (rd_pods r' !! selector)), r')
    | (Raise e, r') => (Raise e, r')
    end;
  read_namespaced_pod_log name ns := fun r =>
    match on_cluster (cl_call (fun c => (Ok tt, c))) r with
    | (Ok _, r') =>
        match rd_logs r' !! name with
        | Some text => (Ok text, r')
        | None => (Raise (ApiError (mkApiException 400 (BodyObject (Some "BadRequest")))), r')
        end
    | (Raise e, r') => (Raise e, r')
    end;
  s3_get_body bucket path := fun r =>
    match on_cluster (cl_call (fun c => (Ok tt, c))) r with
    | (Ok _, r') =>
        match List.find (fun kv => String.eqb (fst kv) path) (cl_stored (rd_cluster r')) with
        | Some (_, body) => (Ok body, r')
        | None => (Raise (OtherError "NoSuchKey"), r')
        end
    | (Raise e, r') => (Raise e, r')
    end
}.

Definition succeeded_job : V1Job :=
  mkJob "uid-3" [("et/project-id", "p1"); ("et/data-hash", "0cc175b9")]
    (mkJobStatus (Some 1) None None).

Definition example_reader : Reader := {|
  rd_cluster :=
    cl_with_stored [("models/p1/0cc175b9/model.tar.gz", "model-bytes")]
      (cl_with_jobs {["et-job-j1" := succeeded_job; "et-job-j2" := training_job]}
         example_cluster);
  rd_pods := {["job-name=et-job-j1" := [mkV1Pod "et-job-j1-abc"; mkV1Pod "et-job-j1-def"];
               "job-name=et-job-j2" := [mkV1Pod "et-job-j2-xyz"]]};
  rd_logs := {["et-job-j1-abc" := "epoch 1"; "et-job-j1-def" := "other"]}
|}.

Definition volume_config : Config := {|
  LOCAL_VOLUME_PATH := Some "/mnt";
  LOCAL_VOLUME_PVC_NAME := Some "train-pvc";
  S3_BUCKET_NAME := None;
  S3_ENDPOINT := None;
  S3_REGION := None;
  S3_DIR := "models";
  S3_CACHE_DIR := "models-cache";
  JOB_TEMPLATE_PATH := "templates/job.yml";
  TRAIN_PY_TEMPLATE_PATH := "templates/train.py";
  CM_TEMPLATE_PATH := "templates/cm.yml";
  KUBE_NAMESPACE := "external-training";
  KUBE_DEFAULT_NAME_PREFIX := "et";
  KUBE_REGCRED_SECRET_NAME := "bet-regcred";
  KUBE_S3_SECRET_NAME := "bet-s3-secret";
  IS_RASA_FOR_BOTFRONT := None
|}.

(** ** Documents that differ in the order of their keys only *)

(** A document with the items of every mapping sorted by key.  Two
    documents are the same up to the order of their keys when this gives
    the same document for both. *)
Fixpoint canon (v : value) : value :=
  match v with
  | VList l => VList (List.map canon l)
  | VDict m => VDict (sort_items (List.map (fun kv => (kv.1, canon kv.2)) m))
  | _ => v
  end.

Definition same_up_to_key_order (a b : value) : Prop := canon a = canon b.

(** In every mapping of the document the keys compare with each other. *)
Fixpoint keys_sort (v : value) : bool :=
  match v with
  | VList l => forallb keys_sort l
  | VDict m => keys_compare m && forallb (fun kv => keys_sort kv.2) m
  | _ => true
  end.

(** A stand-in writer, flow style, and a stand-in reader that knows four
    one-line documents. *)
Fixpoint render (v : value) : string :=
  match v with
  | VNone => "null"
  | VBool b => if b then "true" else "false"
  | VInt i => pretty i
  | VStr s => s
  | VList l => "[" +:+ String.concat ", " (List.map render l) +:+ "]"
  | VDict m =>
      "{" +:+ String.concat ", "
                (List.map (fun kv =>
                             match kv.1 with
                             | KStr s => s
                             | KInt i => pretty i
                             end +:+ ": " +:+ render kv.2) m)
      +:+ "}"
  end.

Definition mixed_keys_first : value :=
  VDict [(KInt 1, VStr "a"); (KStr "b", VInt 2)].

Definition mixed_keys_second : value :=
  VDict [(KStr "b", VInt 2); (KInt 1, VStr "a")].

Definition text_keys_first : value :=
  VDict [(KStr "nlu", VList [VStr "hello"]); (KStr "language", VStr "en")].

Definition text_keys_second : value :=
  VDict [(KStr "language", VStr "en"); (KStr "nlu", VList [VStr "hello"])].

Definition flow_lib : Libraries := {|
  yaml_safe_load s :=
    if String.eqb s "{1: a, b: 2}" then Ok mixed_keys_first
    else if String.eqb s "{b: 2, 1: a}" then Ok mixed_keys_second
    else if String.eqb s "{nlu: [hello], language: en}" then Ok text_keys_first
    else if String.eqb s "{language: en, nlu: [hello]}" then Ok text_keys_second
    else Raise (OtherError "ScannerError");
  yaml_emit := render;
  md5_hexdigest s := s
|}.

(** ** [dict_set] on objects with an identity *)

(** A list or a dict is an object with an identity, and a variable, a
    list item or a dict value holds a reference to it.  One object may be
    held at several places of a document ([yaml.safe_load] builds an
    anchored node once and stores that object at each of its aliases),
    and an assignment inside it shows at all of them.  [None], booleans,
    ints and texts cannot be assigned into; they are held by value. *)
Definition loc := nat.
Bind Scope nat_scope with loc.

Inductive ref :=
| RNone
| RBool (b : bool)
| RInt (i : Z)
| RStr (s : string)
| RObj (l : loc).

Inductive object :=
| OList (items : list ref)
| ODict (items : list (key * ref)).

Abbreviation store := (gmap loc object).

(** [current[ix]].  A reference to no object of the store does not occur
    in a running program; the model answers it with an error of its
    own. *)
Definition getitem_in (h : store) (cur : ref) (ix : key) : result ref :=
  match cur with
  | RObj l =>
      match h !! l with
      | Some (ODict m) =>
          match dict_get ix m with Some v => Ok v | None => Raise (KeyError ix) end
      | Some (OList items) =>
          match ix with
          | KInt i =>
              match seq_pos (length items) i with
              | Some p =>
                  match items !! p with Some v => Ok v | None => Raise IndexError end
              | None => Raise IndexError
              end
          | KStr _ => Raise TypeError
          end
      | None => Raise (OtherError "no object at this reference")
      end
  | RStr s =>
      match ix with
      | KInt i =>
          match seq_pos (String.length s) i with
          | Some p =>
              match string_nth p s with
              | Some c => Ok (RStr (String c EmptyString))
              | None => Raise IndexError
              end
          | None => Raise IndexError
          end
      | KStr _ => Raise TypeError
      end
  | _ => Raise TypeError
  end.

(** [current[ix] = v]: the object [current] refers to changes, and
    nothing else of the store. *)
Definition setitem_in (h : store) (cur : ref) (ix : key) (v : ref)
  : result store :=
  match cur with
  | RObj l =>
      match h !! l with
      | Some (ODict m) => Ok (<[l := ODict (dict_put ix v m)]> h)
      | Some (OList items) =>
          match ix with
          | KInt i =>
              match seq_pos (length items) i with
              | Some p => Ok (<[l := OList (<[p := v]> items)]> h)
              | None => Raise IndexError
              end
          | KStr _ => Raise TypeError
          end
      | None => Raise (OtherError "no object at this reference")
      end
  | _ => Raise TypeError
  end.

(** The loop over [keys[:-1]]: [current] after the segments [keys]. *)
Fixpoint resolve_in (h : store) (cur : ref) (keys : list string) : result ref :=
  match keys with
  | [] => Ok cur
  | k :: ks => child ← getitem_in h cur (subscript k); resolve_in h child ks
  end.

(** [dict_set] as it runs: the loop, then one assignment in the object
    it reached. *)
Definition dict_set_in_place (h : store) (d : ref) (path : string) (v : ref)
  : result store :=
  let keys := split_on "."%char path in
  current ← resolve_in h d (removelast keys);
  setitem_in h current (subscript (List.last keys EmptyString)) v.

(** [obj[k1][k2]...] in a store. *)
Fixpoint get_at_in (h : store) (cur : ref) (keys : list key) : result ref :=
  match keys with
  | [] => Ok cur
  | k :: ks => child ← getitem_in h cur k; get_at_in h child ks
  end.

(** Two subscripts of one object denote the same slot: the same key of a
    dict, the same position of a list. *)
Definition same_slot (o : object) (k k' : key) : bool :=
  match o with
  | ODict _ => bool_decide (k = k')
  | OList items =>
      match k, k' with
      | KInt i, KInt j =>
          bool_decide (seq_pos (length items) i = seq_pos (length items) j)
      | _, _ => false
      end
  end.

(** Reading along [keys] from [cur] subscripts the object at [c] in the
    slot of [k] at some step. *)
Fixpoint reads_slot (h : store) (cur : ref) (keys : list key) (c : loc) (k : key)
  : bool :=
  match keys with
  | [] => false
  | k' :: ks =>
      match cur, h !! c with
      | RObj l, Some o => bool_decide (l = c) && same_slot o k k'
      | _, _ => false
      end
      || match getitem_in h cur k' with
         | Ok child => reads_slot h child ks c k
         | Raise _ => false
         end
  end.

(** The document a reference stands for, objects unfolded [fuel] deep. *)
Fixpoint contents (fuel : nat) (h : store) (r : ref) : option value :=
  match r with
  | RNone => Some VNone
  | RBool b => Some (VBool b)
  | RInt i => Some (VInt i)
  | RStr s => Some (VStr s)
  | RObj l =>
      match fuel with
      | O => None
      | S fuel' =>
          match h !! l with
          | Some (OList items) => VList <$> mapM (contents fuel' h) items
          | Some (ODict m) =>
              VDict <$> mapM (fun kr => pair kr.1 <$> contents fuel' h kr.2) m
          | None => None
          end
      end
  end.

(** A document built object by object, each list and dict a new object:
    what [yaml.safe_load] returns for a text without aliases. *)
Fixpoint alloc (t : value) (st : store * loc) : ref * (store * loc) :=
  match t with
  | VNone => (RNone, st)
  | VBool b => (RBool b, st)
  | VInt i => (RInt i, st)
  | VStr s => (RStr s, st)
  | VList l =>
      let fix go (l : list value) (st : store * loc) : list ref * (store * loc) :=
        match l with
        | [] => ([], st)
        | x :: l' =>
            let '(r, st1) := alloc x st in
            let '(rs, st2) := go l' st1 in
            (r :: rs, st2)
        end in
      let '(rs, (h, n)) := go l st in
      (RObj n, (<[n := OList rs]> h, S n))
  | VDict m =>
      let fix go (m : list (key * value)) (st : store * loc)
        : list (key * ref) * (store * loc) :=
        match m with
        | [] => ([], st)
        | (k, x) :: m' =>
            let '(r, st1) := alloc x st in
            let '(rs, st2) := go m' st1 in
            ((k, r) :: rs, st2)
        end in
      let '(rs, (h, n)) := go m st in
      (RObj n, (<[n := ODict rs]> h, S n))
  end.

(** [example_pod], as loaded from a text without aliases: the document
    is the object at 4, its [spec] the one at 3, the list of containers
    the one at 2 and the two containers those at 0 and 1. *)
Definition example_pod_store : store :=
  {[ 0%nat := ODict [(KStr "name", RStr "train"); (KStr "image", RStr "placeholder")];
     1%nat := ODict [(KStr "name", RStr "sidecar")];
     2%nat := OList [RObj 0; RObj 1];
     3%nat := ODict [(KStr "containers", RObj 2);
                     (KStr "restartPolicy", RStr "Never")];
     4%nat := ODict [(KStr "kind", RStr "Pod"); (KStr "spec", RObj 3)] ]}.

(** A template whose second container is an alias of the first:
<<
kind: Pod
spec:
  containers:
  - &c {name: train, image: placeholder}
  - *c
  restartPolicy: Never
>>
    The document is the object at 3, and the list of containers, at 1,
    holds the object at 0 twice. *)
Definition aliased_pod_store : store :=
  {[ 0%nat := ODict [(KStr "name", RStr "train"); (KStr "image", RStr "placeholder")];
     1%nat := OList [RObj 0; RObj 0];
     2%nat := ODict [(KStr "containers", RObj 1);
                     (KStr "restartPolicy", RStr "Never")];
     3%nat := ODict [(KStr "kind", RStr "Pod"); (KStr "spec", RObj 2)] ]}.

(** What [aliased_pod_store] reads as: two equal containers. *)
Definition aliased_pod : value :=
  VDict [(KStr "kind", VStr "Pod");
         (KStr "spec",
          VDict [(KStr "containers",
                  VList [VDict [(KStr "name", VStr "train");
                                (KStr "image", VStr "placeholder")];
                         VDict [(KStr "name", VStr "train");
                                (KStr "image", VStr "placeholder")]]);
                 (KStr "restartPolicy", VStr "Never")])].

(** ** Documents without shared objects *)

(** The items of two lists related one by one. *)
Definition all2 {A B} (P : A -> B -> Prop) : list A -> list B -> Prop :=
  fix go ts rs :=
    match ts, rs with
    | [], [] => True
    | t :: ts', r :: rs' => P t r /\ go ts' rs'
    | _, _ => False
    end.

(** The reference [r] stands in the store [h] for the document [t]. *)
Fixpoint stands_for (h : store) (t : value) (r : ref) : Prop :=
  match t with
  | VNone => r = RNone
  | VBool b => r = RBool b
  | VInt i => r = RInt i
  | VStr s => r = RStr s
  | VList ts =>
      exists l rs, r = RObj l /\ h !! l = Some (OList rs) /\
                   all2 (stands_for h) ts rs
  | VDict m =>
      exists l rm, r = RObj l /\ h !! l = Some (ODict rm) /\
                   all2 (fun kt kr => kt.1 = kr.1 /\ stands_for h kt.2 kr.2) m rm
  end.

(** The items of two lists related one by one over consecutive ranges of
    locations, from [lo] up to [hi]. *)
Definition chain {A B} (P : A -> B -> loc -> loc -> Prop)
  : list A -> list B -> loc -> loc -> Prop :=
  fix go ts rs lo hi :=
    match ts, rs with
    | [], [] => lo = hi
    | t :: ts', r :: rs' => exists mid, P t r lo mid /\ go ts' rs' mid hi
    | _, _ => False
    end.

(** [r] stands for [t] with the objects of [t] at the locations from [lo]
    up to [hi], the items of a list or dict one range after the other and
    the object itself last: every object is held at one place. *)
Fixpoint tree_at (h : store) (t : value) (r : ref) (lo hi : loc) : Prop :=
  match t with
  | VNone => r = RNone /\ lo = hi
  | VBool b => r = RBool b /\ lo = hi
  | VInt i => r = RInt i /\ lo = hi
  | VStr s => r = RStr s /\ lo = hi
  | VList ts =>
      exists l rs, r = RObj l /\ hi = S l /\ h !! l = Some (OList rs) /\
                   chain (tree_at h) ts rs lo l
  | VDict m =>
      exists l rm, r = RObj l /\ hi = S l /\ h !! l = Some (ODict rm) /\
                   chain (fun kt kr lo' hi' =>
                            kt.1 = kr.1 /\ tree_at h kt.2 kr.2 lo' hi') m rm lo l
  end.

(* ================================================================== *)
(** * Proofs *)

(** ** Facts about subscripting *)

Lemma split_on_nonempty sep s : split_on sep s <> [].
Proof.
  destruct s as [|c s]; simpl; [discriminate|].
  destruct (Ascii.eqb c sep); [discriminate|].
  destruct (split_on sep s); discriminate.
Qed.

Lemma path_keys path :
  split_on "."%char path = path_init path ++ [path_final path].
Proof.
  unfold path_init, path_final.
  apply app_removelast_last, split_on_nonempty.
Qed.

Lemma dict_get_put_same {A} k (v : A) m : dict_get k (dict_put k v m) = Some v.
Proof.
  induction m as [|[k' v'] m IH]; simpl.
  - destruct (decide (k = k)); congruence.
  - destruct (decide (k' = k)) as [->|Hne]; simpl.
    + destruct (decide (k = k)); congruence.
    + destruct (decide (k' = k)); congruence.
Qed.

Lemma dict_get_put_other {A} k k' (v : A) m :
  k' <> k -> dict_get k' (dict_put k v m) = dict_get k' m.
Proof.
  intros Hne. induction m as [|[k0 v0] m IH]; simpl.
  - destruct (decide (k = k')); congruence.
  - destruct (decide (k0 = k)) as [->|Hk]; simpl.
    + destruct (decide (k = k')); congruence.
    + destruct (decide (k0 = k')); congruence.
Qed.

Lemma dict_put_absent {A} k (v : A) m :
  dict_get k m = None -> dict_put k v m = m ++ [(k, v)].
Proof.
  induction m as [|[k0 v0] m IH]; simpl; [reflexivity|].
  destruct (decide (k0 = k)); [discriminate|].
  intros H. now rewrite IH.
Qed.

Lemma dict_put_present {A} k (v : A) m :
  is_Some (dict_get k m) ->
  List.map fst (dict_put k v m) = List.map fst m.
Proof.
  induction m as [|[k0 v0] m IH]; simpl.
  - intros [x Hx]. discriminate.
  - destruct (decide (k0 = k)); simpl; [reflexivity|].
    intros H. now rewrite IH.
Qed.

Lemma seq_pos_Some n i p : seq_pos n i = Some p -> (p < n)%nat /\ in_bounds n i.
Proof.
  unfold seq_pos, in_bounds.
  destruct (0 <=? i) eqn:H0; destruct (i <? Z.of_nat n) eqn:H1; simpl;
    try (destruct (i <? 0) eqn:H2; destruct (- Z.of_nat n <=? i) eqn:H3; simpl);
    intros H; inversion H; subst; lia.
Qed.


Lemma getitem_setitem cur ix v cur' :
  setitem cur ix v = Ok cur' -> getitem cur' ix = Ok v.
Proof.
  destruct cur as [|b|z|t|l|m]; destruct ix as [s|i]; simpl; try discriminate.
  - destruct (seq_pos (length l) i) as [p|] eqn:Hp; [|discriminate].
    intros H; inversion H; subst; simpl.
    rewrite length_insert, Hp.
    apply seq_pos_Some in Hp as [Hp _].
    now rewrite list_lookup_insert_eq.
  - intros H; inversion H; subst; simpl. now rewrite dict_get_put_same.
  - intros H; inversion H; subst; simpl. now rewrite dict_get_put_same.
Qed.






(** ** [dict_set]: the walk and the assignment *)



(** A successful [dict_set] walked to an object and assigned there; the
    same walk in the patched document reaches the assigned object. *)
Lemma dict_set_keys_ok cur ks fin v cur' :
  dict_set_keys cur ks fin v = Ok cur' ->
  exists c c', resolve cur ks = Ok c /\
               setitem c (subscript fin) v = Ok c' /\
               resolve cur' ks = Ok c'.
Proof.
  revert cur cur'. induction ks as [|k ks IH]; intros cur cur'; simpl.
  - intros H. exists cur, cur'. auto.
  - destruct (getitem cur (subscript k)) as [child|e1] eqn:Hg; simpl; [|discriminate].
    destruct (dict_set_keys child ks fin v) as [child'|e2] eqn:Hd; simpl; [|discriminate].
    intros Hs. destruct (IH _ _ Hd) as (c & c' & Hr & Hset & Hr').
    exists c, c'. split; [exact Hr|]. split; [exact Hset|].
    rewrite (getitem_setitem _ _ _ _ Hs). simpl. exact Hr'.
Qed.


(** An error below a resolved prefix is the error of the whole call. *)
Lemma dict_set_keys_app_raise cur pre rest fin v c e :
  resolve cur pre = Ok c ->
  dict_set_keys c rest fin v = Raise e ->
  dict_set_keys cur (pre ++ rest) fin v = Raise e.
Proof.
  revert cur. induction pre as [|k pre IH]; intros cur; simpl.
  - intros H; inversion H; subst. auto.
  - destruct (getitem cur (subscript k)) as [child|e1]; simpl; [|discriminate].
    intros Hr Hd. now rewrite (IH _ Hr Hd).
Qed.






(** ** The image patch *)

(** The image patch on a document read as a tree, no object of it held
    at two places.  On a template whose [spec.containers] has a first
    entry, patching ["spec.containers.0.image"] returns the template
    with the [image] key of container 0 set to the value: every other
    key of that container
    keeps its value, the remaining containers, the other keys of [spec]
    and the other top-level keys are the ones of the template, and no key
    of [spec] or of the top level moves or appears. *)
Theorem dict_set_image_frame (m sm c : list (key * value)) (cs : list value)
    (v : value) :
  dict_get (KStr "spec") m = Some (VDict sm) ->
  dict_get (KStr "containers") sm = Some (VList (VDict c :: cs)) ->
  let c' := dict_put (KStr "image") v c in
  let sm' := dict_put (KStr "containers") (VList (VDict c' :: cs)) sm in
  let m' := dict_put (KStr "spec") (VDict sm') m in
  dict_set (VDict m) "spec.containers.0.image" v = Ok (VDict m') /\
  dict_get (KStr "image") c' = Some v /\
  (forall k, k <> KStr "image" -> dict_get k c' = dict_get k c) /\
  (forall k, k <> KStr "containers" -> dict_get k sm' = dict_get k sm) /\
  dict_get (KStr "containers") sm' = Some (VList (VDict c' :: cs)) /\
  (forall k, k <> KStr "spec" -> dict_get k m' = dict_get k m) /\
  dict_get (KStr "spec") m' = Some (VDict sm') /\
  List.map fst sm' = List.map fst sm /\
  List.map fst m' = List.map fst m /\
  (is_Some (dict_get (KStr "image") c) -> List.map fst c' = List.map fst c) /\
  (dict_get (KStr "image") c = None -> c' = c ++ [(KStr "image", v)]).
Proof.
  intros Hspec Hcont c' sm' m'.
  split.
  { unfold dict_set.
    change (split_on "." "spec.containers.0.image")
      with ["spec"; "containers"; "0"; "image"].
    change (removelast ["spec"; "containers"; "0"; "image"])
      with ["spec"; "containers"; "0"].
    change (List.last ["spec"; "containers"; "0"; "image"] EmptyString)
      with "image".
    cbn [dict_set_keys].
    change (subscript "spec") with (KStr "spec").
    change (subscript "containers") with (KStr "containers").
    change (subscript "0") with (KInt 0).
    change (subscript "image") with (KStr "image").
    cbn [getitem]. rewrite Hspec. cbn [mbind result_bind getitem].
    rewrite Hcont. cbn. reflexivity. }
  split; [apply dict_get_put_same|].
  split; [intros k Hk; now apply dict_get_put_other|].
  split; [intros k Hk; now apply dict_get_put_other|].
  split; [apply dict_get_put_same|].
  split; [intros k Hk; now apply dict_get_put_other|].
  split; [apply dict_get_put_same|].
  split; [apply dict_put_present; rewrite Hcont; eauto|].
  split; [apply dict_put_present; rewrite Hspec; eauto|].
  split; [apply dict_put_present|apply dict_put_absent].
Qed.

Lemma dict_set_image_frame_witness :
  dict_set example_pod "spec.containers.0.image" (VStr "img:tag") =
    Ok (VDict [(KStr "kind", VStr "Pod");
               (KStr "spec",
                VDict [(KStr "containers",
                        VList [VDict [(KStr "name", VStr "train");
                                      (KStr "image", VStr "img:tag")];
                               VDict [(KStr "name", VStr "sidecar")]]);
                       (KStr "restartPolicy", VStr "Never")])]).
Proof.
  apply (dict_set_image_frame
           [(KStr "kind", VStr "Pod");
            (KStr "spec",
             VDict [(KStr "containers",
                     VList [VDict [(KStr "name", VStr "train");
                                   (KStr "image", VStr "placeholder")];
                            VDict [(KStr "name", VStr "sidecar")]]);
                    (KStr "restartPolicy", VStr "Never")])]
           [(KStr "containers",
             VList [VDict [(KStr "name", VStr "train");
                           (KStr "image", VStr "placeholder")];
                    VDict [(KStr "name", VStr "sidecar")]]);
            (KStr "restartPolicy", VStr "Never")]
           [(KStr "name", VStr "train"); (KStr "image", VStr "placeholder")]
           [VDict [(KStr "name", VStr "sidecar")]]
           (VStr "img:tag")); reflexivity.
Defined.

(** ** [status] and [cancel] *)

Lemma truthy_int_pos (o : option Z) : 0 <= count o -> truthy_int o = (0 <? count o).
Proof.
  destruct o as [n|]; simpl; [|reflexivity].
  intros Hn. destruct (Z.eqb_spec n 0) as [->|Hne]; simpl; [reflexivity|].
  symmetry. apply Z.ltb_lt. lia.
Qed.

Section K8sJobManagerFacts.
Context (cfg : Config) {W : Type} `{!ControlWorld W}.

Lemma status_read_ok job_id w job w' :
  read_namespaced_job (job_name cfg job_id) (KUBE_NAMESPACE cfg) w = (Ok job, w') ->
  status cfg job_id w = (Ok (status_of_job job), w').
Proof.
  intros Hr. unfold status, _get_job, mbind, io_bind. now rewrite Hr.
Qed.

Lemma status_read_404 job_id w e w' :
  read_namespaced_job (job_name cfg job_id) (KUBE_NAMESPACE cfg) w
    = (Raise (ApiError e), w') ->
  api_status e = 404 ->
  status cfg job_id w = (Ok Status.none, w').
Proof.
  intros Hr He. unfold status, _get_job, mbind, io_bind. rewrite Hr, He.
  reflexivity.
Qed.

(** C1.  [status] answers [none] when the orchestrator reports the Job
    absent (404); for a Job that is there it looks at the counters in
    the order succeeded, active, failed: [success] when succeeded > 0
    whatever the others are, else [training] when active > 0, else
    [failed] when failed > 0, else [none]. *)
Theorem status_priority_order (job_id : string) (w : W) :
  (forall e w',
      read_namespaced_job (job_name cfg job_id) (KUBE_NAMESPACE cfg) w
        = (Raise (ApiError e), w') ->
      api_status e = 404 ->
      status cfg job_id w = (Ok Status.none, w')) /\
  (forall job w',
      read_namespaced_job (job_name cfg job_id) (KUBE_NAMESPACE cfg) w
        = (Ok job, w') ->
      let s := job_status job in
      0 <= count (succeeded s) -> 0 <= count (active s) ->
      0 <= count (failed s) ->
      status cfg job_id w =
        (Ok (if 0 <? count (succeeded s) then Status.success
             else if 0 <? count (active s) then Status.training
             else if 0 <? count (failed s) then Status.failed
             else Status.none), w')).
Proof.
  split.
  - intros e w' Hr He. now apply status_read_404 with (e := e).
  - intros job w' Hr s Hs Ha Hf.
    rewrite (status_read_ok _ _ _ _ Hr). unfold status_of_job. fold s.
    now rewrite !truthy_int_pos.
Qed.

(** C9.  [cancel] answers [false] and leaves the orchestrator as the
    status query left it whenever the status is not [training].  When
    it is [training], [cancel] issues one delete of the Job with
    propagation policy [Background]: [true] when the delete succeeds,
    [false] when the orchestrator answers 404, and any other error of
    the delete is raised.  After a cancel that returned [true], once
    the orchestrator reports the deleted Job absent, a second cancel
    returns [false]. *)
Theorem cancel_only_while_training (job_id : string) (w : W) :
  let delete :=
    delete_namespaced_job (job_name cfg job_id) (KUBE_NAMESPACE cfg)
      (mkDeleteOptions "Background") in
  (forall st w1, status cfg job_id w = (Ok st, w1) -> st <> Status.training ->
     cancel cfg job_id w = (Ok false, w1)) /\
  (forall w1 w2, status cfg job_id w = (Ok Status.training, w1) ->
     delete w1 = (Ok tt, w2) ->
     cancel cfg job_id w = (Ok true, w2)) /\
  (forall w1 w2 e, status cfg job_id w = (Ok Status.training, w1) ->
     delete w1 = (Raise (ApiError e), w2) -> api_status e = 404 ->
     cancel cfg job_id w = (Ok false, w2)) /\
  (forall w1 w2 e, status cfg job_id w = (Ok Status.training, w1) ->
     delete w1 = (Raise e, w2) ->
     (forall a, e = ApiError a -> api_status a <> 404) ->
     cancel cfg job_id w = (Raise e, w2)) /\
  (forall w2, cancel cfg job_id w = (Ok true, w2) ->
     job_absent cfg job_id w2 ->
     exists w3, cancel cfg job_id w2 = (Ok false, w3)).
Proof.
  intros delete. repeat split.
  - intros st w1 Hst Hne. unfold cancel, mbind, io_bind. rewrite Hst.
    destruct (decide (st <> Status.training)); [reflexivity|contradiction].
  - intros w1 w2 Hst Hd. unfold cancel, mbind, io_bind. rewrite Hst.
    destruct (decide (Status.training <> Status.training)); [congruence|].
    fold delete. now rewrite Hd.
  - intros w1 w2 e Hst Hd He. unfold cancel, mbind, io_bind. rewrite Hst.
    destruct (decide (Status.training <> Status.training)); [congruence|].
    fold delete. rewrite Hd, He. reflexivity.
  - intros w1 w2 e Hst Hd He. unfold cancel, mbind, io_bind. rewrite Hst.
    destruct (decide (Status.training <> Status.training)); [congruence|].
    fold delete. rewrite Hd.
    destruct e as [| | | | |a| | |]; try reflexivity.
    destruct (Z.eqb_spec (api_status a) 404) as [Heq|Hne]; [|reflexivity].
    exfalso. exact (He a eq_refl Heq).
  - intros w2 _ (e & w3 & Hr & He). exists w3.
    unfold cancel, mbind, io_bind.
    rewrite (status_read_404 _ _ _ _ Hr He).
    destruct (decide (Status.none <> Status.training)); [reflexivity|].
    exfalso. apply n. discriminate.
Qed.

End K8sJobManagerFacts.

Lemma status_priority_order_witness :
  status example_config "j1" (cluster_with "et-job-j1" finishing_job)
    = (Ok Status.success, cluster_with "et-job-j1" finishing_job)
  /\ status example_config "j2" (cluster_with "et-job-j1" finishing_job)
    = (Ok Status.none, cluster_with "et-job-j1" finishing_job).
Proof.
  split.
  - apply (proj2 (status_priority_order example_config "j1"
                    (cluster_with "et-job-j1" finishing_job)) finishing_job);
      [reflexivity | simpl; lia | simpl; lia | simpl; lia].
  - apply (proj1 (status_priority_order example_config "j2"
                    (cluster_with "et-job-j1" finishing_job)) not_found_404);
      reflexivity.
Defined.

Lemma cancel_only_while_training_witness :
  cancel example_config "j1" (cluster_with "et-job-j1" training_job)
    = (Ok true, example_cluster)
  /\ (exists w3, cancel example_config "j1" example_cluster = (Ok false, w3))
  /\ cancel example_config "j1" (cluster_with "et-job-j1" finishing_job)
    = (Ok false, cluster_with "et-job-j1" finishing_job)
  /\ cancel example_config "j1"
       (cl_with_faults [None; Some (ApiError not_found_404)]
          (cluster_with "et-job-j1" training_job))
    = (Ok false, cluster_with "et-job-j1" training_job)
  /\ cancel example_config "j1"
       (cl_with_faults [None; Some (ApiError (mkApiException 500 BodyMalformed))]
          (cluster_with "et-job-j1" training_job))
    = (Raise (ApiError (mkApiException 500 BodyMalformed)),
       cluster_with "et-job-j1" training_job).
Proof.
  split; [|split; [|split; [|split]]].
  - apply (proj1 (proj2 (cancel_only_while_training example_config "j1"
             (cluster_with "et-job-j1" training_job)))
             (cluster_with "et-job-j1" training_job)); reflexivity.
  - apply (proj2 (proj2 (proj2 (proj2 (cancel_only_while_training example_config
             "j1" (cluster_with "et-job-j1" training_job)))))).
    + apply (proj1 (proj2 (cancel_only_while_training example_config "j1"
               (cluster_with "et-job-j1" training_job)))
               (cluster_with "et-job-j1" training_job)); reflexivity.
    + exists not_found_404, example_cluster. split; reflexivity.
  - apply (proj1 (cancel_only_while_training example_config "j1"
             (cluster_with "et-job-j1" finishing_job)) Status.success);
      [reflexivity | discriminate].
  - apply (proj1 (proj2 (proj2 (cancel_only_while_training example_config "j1"
             (cl_with_faults [None; Some (ApiError not_found_404)]
                (cluster_with "et-job-j1" training_job)))))
             (cl_with_faults [Some (ApiError not_found_404)]
                (cluster_with "et-job-j1" training_job)) _ not_found_404);
      reflexivity.
  - apply (proj1 (proj2 (proj2 (proj2 (cancel_only_while_training example_config
             "j1"
             (cl_with_faults [None; Some (ApiError (mkApiException 500 BodyMalformed))]
                (cluster_with "et-job-j1" training_job))))))
             (cl_with_faults [Some (ApiError (mkApiException 500 BodyMalformed))]
                (cluster_with "et-job-j1" training_job)));
      [reflexivity | reflexivity |].
    intros a Ha. inversion Ha; subst. simpl. lia.
Defined.

(** ** Creation errors in [train] and in [kube_apply] *)

Section CreationErrors.
Context (cfg : Config) (lib : Libraries) {W : Type} `{!ControlWorld W}.

Lemma train_after_prepare project_id image training_data rasa_extra_args node
    use_cache is_rasa_for_botfront (w w1 : W) job_id td_hash job :
  prepare_job cfg lib project_id image training_data rasa_extra_args node
    use_cache is_rasa_for_botfront w = (Ok (job_id, td_hash, job), w1) ->
  train cfg lib project_id image training_data rasa_extra_args node
    use_cache is_rasa_for_botfront w =
  (created_job ← create_from_dict job (KUBE_NAMESPACE cfg);
   _ ← log (Info ("Created job " +:+ job_name cfg job_id));
   cm ← prepare_cm cfg project_id td_hash job_id created_job;
   _ ← create_from_dict cm (KUBE_NAMESPACE cfg);
   _ ← log (Info ("Created cm " +:+ KUBE_DEFAULT_NAME_PREFIX cfg +:+ "-cm-"
                  +:+ job_id));
   mret (job_id, true)) w1.
Proof.
  intros Hp. unfold train. unfold mbind at 1. unfold io_bind at 1.
  now rewrite Hp.
Qed.

(** C2, as the code has it.  In [train] both objects are created by a
    direct call: whatever error the creation of the Job or of the
    ConfigMap raises, the already-exists conflict included, is raised
    by [train].  Swallowing is what [kube_apply] does, which [train]
    does not call: with [allow_exists], a creation error for which
    [check_already_exists_error] answers [True] is logged and [None] is
    returned, provided the kind and the name of the manifest can be
    read; when the check answers [False] or [allow_exists] is not set,
    the creation error is raised again, as is any error that is not a
    [FailToCreateError]; when the check itself raises (a body that is
    not JSON) or the name cannot be read, that error is raised instead;
    a creation that succeeds returns what was created. *)
Theorem train_creation_errors_surface project_id image training_data
    rasa_extra_args node use_cache is_rasa_for_botfront (w : W) :
  (forall job_id td_hash job w1 e w2,
      prepare_job cfg lib project_id image training_data rasa_extra_args node
        use_cache is_rasa_for_botfront w = (Ok (job_id, td_hash, job), w1) ->
      create_from_dict job (KUBE_NAMESPACE cfg) w1 = (Raise e, w2) ->
      train cfg lib project_id image training_data rasa_extra_args node
        use_cache is_rasa_for_botfront w = (Raise e, w2)) /\
  (forall job_id td_hash job w1 created w2 cm w3 e w4,
      prepare_job cfg lib project_id image training_data rasa_extra_args node
        use_cache is_rasa_for_botfront w = (Ok (job_id, td_hash, job), w1) ->
      create_from_dict job (KUBE_NAMESPACE cfg) w1 = (Ok created, w2) ->
      prepare_cm cfg project_id td_hash job_id created
        (logger_info (Info ("Created job " +:+ job_name cfg job_id)) w2)
        = (Ok cm, w3) ->
      create_from_dict cm (KUBE_NAMESPACE cfg) w3 = (Raise e, w4) ->
      train cfg lib project_id image training_data rasa_extra_args node
        use_cache is_rasa_for_botfront w = (Raise e, w4)) /\
  (forall data errs w' kind name,
      create_from_dict data (KUBE_NAMESPACE cfg) w
        = (Raise (FailToCreateError errs), w') ->
      check_already_exists_error errs = Ok true ->
      kind_and_name data = Ok (kind, name) ->
      kube_apply cfg data true w
        = (Ok None, logger_info (InfoAlreadyExists kind name) w')) /\
  (forall data allow_exists errs w',
      create_from_dict data (KUBE_NAMESPACE cfg) w
        = (Raise (FailToCreateError errs), w') ->
      allow_exists = false \/ check_already_exists_error errs = Ok false ->
      kube_apply cfg data allow_exists w = (Raise (FailToCreateError errs), w')) /\
  (forall data allow_exists e w',
      create_from_dict data (KUBE_NAMESPACE cfg) w = (Raise e, w') ->
      (forall errs, e <> FailToCreateError errs) ->
      kube_apply cfg data allow_exists w = (Raise e, w')) /\
  (forall data errs w' e,
      create_from_dict data (KUBE_NAMESPACE cfg) w
        = (Raise (FailToCreateError errs), w') ->
      check_already_exists_error errs = Raise e ->
      kube_apply cfg data true w = (Raise e, w')) /\
  (forall data errs w' e,
      create_from_dict data (KUBE_NAMESPACE cfg) w
        = (Raise (FailToCreateError errs), w') ->
      check_already_exists_error errs = Ok true ->
      kind_and_name data = Raise e ->
      kube_apply cfg data true w = (Raise e, w')) /\
  (forall data allow_exists created w',
      create_from_dict data (KUBE_NAMESPACE cfg) w = (Ok created, w') ->
      kube_apply cfg data allow_exists w = (Ok (Some created), w')).
Proof.
  repeat split.
  - intros job_id td_hash job w1 e w2 Hp Hc.
    rewrite (train_after_prepare _ _ _ _ _ _ _ _ _ _ _ _ Hp).
    unfold mbind at 1. unfold io_bind at 1. now rewrite Hc.
  - intros job_id td_hash job w1 created w2 cm w3 e w4 Hp Hc Hcm Hc2.
    rewrite (train_after_prepare _ _ _ _ _ _ _ _ _ _ _ _ Hp).
    unfold mbind at 1. unfold io_bind at 1. rewrite Hc.
    unfold mbind at 1. unfold io_bind at 1. unfold log at 1.
    unfold mbind at 1. unfold io_bind at 1. rewrite Hcm.
    unfold mbind at 1. unfold io_bind at 1. now rewrite Hc2.
  - intros data errs w' kind name Hc Hchk Hkn.
    unfold kube_apply. now rewrite Hc, Hchk, Hkn.
  - intros data allow_exists errs w' Hc [->|Hchk]; unfold kube_apply; rewrite Hc.
    + reflexivity.
    + rewrite Hchk. now destruct allow_exists.
  - intros data allow_exists e w' Hc Hne. unfold kube_apply. rewrite Hc.
    destruct e; try reflexivity. now destruct (Hne api_exceptions).
  - intros data errs w' e Hc Hchk. unfold kube_apply. now rewrite Hc, Hchk.
  - intros data errs w' e Hc Hchk Hkn. unfold kube_apply. now rewrite Hc, Hchk, Hkn.
  - intros data allow_exists created w' Hc. unfold kube_apply. now rewrite Hc.
Qed.

End CreationErrors.

(** C2 fails on [train]: the Job name is taken, the orchestrator answers
    with an already-exists conflict, and [train] raises it; nothing is
    logged about it. *)
Lemma train_conflict_is_raised :
  check_already_exists_error [conflict_409] = Ok true /\
  (train example_config plain_scalar_lib "p1" "img:tag" "nlu" None None true false
     (cluster_with "et-job-u1" training_job)).1
    = Raise (FailToCreateError [conflict_409]) /\
  cl_logs (train example_config plain_scalar_lib "p1" "img:tag" "nlu" None None
             true false (cluster_with "et-job-u1" training_job)).2
    = [Info ("Uploading train data to nlu" +:+ String (ascii_of_nat 10) EmptyString);
       Info "Train data uploaded"].
Proof. repeat split; vm_compute; reflexivity. Qed.

Lemma train_creation_errors_surface_witness :
  (exists w2,
      train example_config plain_scalar_lib "p1" "img:tag" "nlu" None None true false
        (cluster_with "et-job-u1" training_job)
      = (Raise (FailToCreateError [conflict_409]), w2)) /\
  kube_apply example_config example_manifest true
    (cluster_with "et-job-u1" training_job)
  = (Ok None,
     logger_info (InfoAlreadyExists (VStr "Job") (VStr "et-job-u1"))
       (cluster_with "et-job-u1" training_job)) /\
  kube_apply example_config example_manifest false
    (cluster_with "et-job-u1" training_job)
  = (Raise (FailToCreateError [conflict_409]), cluster_with "et-job-u1" training_job)
  /\
  kube_apply example_config example_manifest true
    (cl_with_faults
       [Some (FailToCreateError [mkApiException 500 BodyMalformed])] example_cluster)
  = (Raise ValueError, cl_with_faults [] example_cluster)
  /\
  kube_apply example_config
    (VDict [(KStr "kind", VStr "Job"); (KStr "metadata", VNone)]) true
    (cl_with_faults [Some (FailToCreateError [conflict_409])] example_cluster)
  = (Raise AttributeError, cl_with_faults [] example_cluster)
  /\
  kube_apply example_config example_manifest true example_cluster
  = (Ok (Some [mkCreated "uid-et-job-u1"]),
     cl_with_jobs
       (<["et-job-u1" := mkJob "uid-et-job-u1" [] (mkJobStatus None None None)]>
          (cl_jobs example_cluster)) example_cluster).
Proof.
  split; [|split; [|split; [|split; [|split]]]].
  - eexists.
    eapply (proj1 (train_creation_errors_surface example_config plain_scalar_lib
                     "p1" "img:tag" "nlu" None None true false
                     (cluster_with "et-job-u1" training_job)));
      vm_compute; reflexivity.
  - apply (proj1 (proj2 (proj2 (train_creation_errors_surface example_config
             plain_scalar_lib "p1" "img:tag" "nlu" None None true false
             (cluster_with "et-job-u1" training_job))))
             example_manifest [conflict_409]); reflexivity.
  - apply (proj1 (proj2 (proj2 (proj2 (train_creation_errors_surface example_config
             plain_scalar_lib "p1" "img:tag" "nlu" None None true false
             (cluster_with "et-job-u1" training_job)))))
             example_manifest false [conflict_409]); [reflexivity | left; reflexivity].
  - apply (proj1 (proj2 (proj2 (proj2 (proj2 (proj2
             (train_creation_errors_surface example_config plain_scalar_lib "p1"
                "img:tag" "nlu" None None true false
                (cl_with_faults
                   [Some (FailToCreateError [mkApiException 500 BodyMalformed])]
                   example_cluster))))))) example_manifest
             [mkApiException 500 BodyMalformed]); reflexivity.
  - apply (proj1 (proj2 (proj2 (proj2 (proj2 (proj2 (proj2
             (train_creation_errors_surface example_config plain_scalar_lib "p1"
                "img:tag" "nlu" None None true false
                (cl_with_faults [Some (FailToCreateError [conflict_409])]
                   example_cluster))))))))
             (VDict [(KStr "kind", VStr "Job"); (KStr "metadata", VNone)])
             [conflict_409]); reflexivity.
  - apply (proj2 (proj2 (proj2 (proj2 (proj2 (proj2 (proj2
             (train_creation_errors_surface example_config plain_scalar_lib "p1"
                "img:tag" "nlu" None None true false
                example_cluster)))))))); reflexivity.
Defined.

(** ** What a patch leaves alone *)

Lemma resolve_get_at cur ks : resolve cur ks = get_at cur (List.map subscript ks).
Proof.
  revert cur. induction ks as [|k ks IH]; intros cur; simpl; [reflexivity|].
  destruct (getitem cur (subscript k)); simpl; [apply IH|reflexivity].
Qed.

Lemma get_at_app cur p q :
  get_at cur (p ++ q) = (c ← get_at cur p; get_at c q).
Proof.
  revert cur. induction p as [|k p IH]; intros cur; simpl; [reflexivity|].
  destruct (getitem cur k); simpl; [apply IH|reflexivity].
Qed.

Lemma getitem_setitem_other cur a v cur' b :
  setitem cur a v = Ok cur' -> a <> b ->
  match a, b with KInt _, KInt _ => false | _, _ => true end = true ->
  getitem cur' b = getitem cur b.
Proof.
  destruct cur as [|x|z|t|l|m]; simpl; try (destruct a; discriminate).
  - destruct a as [s|i]; [discriminate|].
    destruct (seq_pos (length l) i); [|discriminate].
    intros H; inversion H; subst. intros _.
    destruct b as [s|j]; [reflexivity|discriminate].
  - intros H; inversion H; subst. intros Hne _. simpl.
    rewrite dict_get_put_other by congruence. reflexivity.
Qed.

Lemma dict_set_keys_frame cur ks fin v cur' q :
  dict_set_keys cur ks fin v = Ok cur' ->
  diverges_b (List.map subscript ks ++ [subscript fin]) q = true ->
  get_at cur' q = get_at cur q.
Proof.
  revert cur cur' q. induction ks as [|k ks IH]; intros cur cur' q; simpl.
  - intros Hs. destruct q as [|b q]; [discriminate|].
    destruct (decide (subscript fin = b)) as [|Hne]; [destruct q; discriminate|].
    intros Hd. simpl. now rewrite (getitem_setitem_other _ _ _ _ _ Hs Hne Hd).
  - destruct (getitem cur (subscript k)) as [child|e1] eqn:Hg; simpl; [|discriminate].
    destruct (dict_set_keys child ks fin v) as [child'|e2] eqn:Hd; simpl; [|discriminate].
    intros Hs. destruct q as [|b q]; [discriminate|].
    destruct (decide (subscript k = b)) as [<-|Hne].
    + intros Hdiv. simpl. rewrite (getitem_setitem _ _ _ _ Hs), Hg. simpl.
      eapply IH; eauto.
    + intros Hdiv. simpl. now rewrite (getitem_setitem_other _ _ _ _ _ Hs Hne Hdiv).
Qed.

Lemma append_at_frame cur ks item cur' q :
  append_at cur ks item = Ok cur' ->
  diverges_b ks q = true ->
  get_at cur' q = get_at cur q.
Proof.
  revert cur cur' q. induction ks as [|k ks IH]; intros cur cur' q; simpl.
  - intros _ H. destruct q; discriminate.
  - destruct (getitem cur k) as [child|e1] eqn:Hg; simpl; [|discriminate].
    destruct (append_at child ks item) as [child'|e2] eqn:Hd; simpl; [|discriminate].
    intros Hs. destruct q as [|b q]; [discriminate|].
    destruct (decide (k = b)) as [<-|Hne].
    + intros Hdiv. simpl. rewrite (getitem_setitem _ _ _ _ Hs), Hg. simpl.
      eapply IH; eauto.
    + intros Hdiv. simpl. now rewrite (getitem_setitem_other _ _ _ _ _ Hs Hne Hdiv).
Qed.

Lemma dict_set_frame d path v d' q :
  dict_set d path v = Ok d' ->
  diverges_b (List.map subscript (split_on "."%char path)) q = true ->
  get_at d' q = get_at d q.
Proof.
  intros Hd. rewrite path_keys, List.map_app. simpl. intros Hq.
  eapply dict_set_keys_frame; [exact Hd | exact Hq].
Qed.

Lemma dict_set_get d path v d' :
  dict_set d path v = Ok d' ->
  get_at d' (List.map subscript (split_on "."%char path)) = Ok v.
Proof.
  intros Hd.
  destruct (dict_set_keys_ok _ _ _ _ _ Hd) as (c & c' & _ & Hset & Hr').
  rewrite path_keys, List.map_app, get_at_app. simpl.
  fold (path_init path) in Hr'. fold (path_final path) in Hset.
  rewrite <- resolve_get_at, Hr'.
  change (getitem c' (subscript (path_final path)) ≫= (fun child => Ok child)
          = Ok v).
  now rewrite (getitem_setitem _ _ _ _ Hset).
Qed.

(** ** Sorting the keys of a document *)

Lemma value_ind' (P : value -> Prop) :
  P VNone -> (forall b, P (VBool b)) -> (forall i, P (VInt i)) ->
  (forall s, P (VStr s)) ->
  (forall l, Forall P l -> P (VList l)) ->
  (forall m, Forall (fun kv => P kv.2) m -> P (VDict m)) ->
  forall v, P v.
Proof.
  intros HN HB HI HS HL HD.
  exact (fix go (v : value) : P v :=
           match v with
           | VNone => HN
           | VBool b => HB b
           | VInt i => HI i
           | VStr s => HS s
           | VList l =>
               HL l ((fix all (l : list value) : Forall P l :=
                        match l with
                        | [] => @List.Forall_nil _ P
                        | x :: l' => @List.Forall_cons _ P x l' (go x) (all l')
                        end) l)
           | VDict m =>
               HD m ((fix all (m : list (key * value))
                      : Forall (fun kv => P kv.2) m :=
                        match m with
                        | [] => @List.Forall_nil _ _
                        | kv :: m' =>
                            @List.Forall_cons _ (fun kv => P kv.2) kv m'
                              (go kv.2) (all m')
                        end) m)
           end).
Qed.

Lemma forallb_insert_item {A} (P : key * A -> bool) kv m :
  forallb P (insert_item kv m) = P kv && forallb P m.
Proof.
  induction m as [|kv' m IH]; simpl; [reflexivity|].
  destruct (key_leb kv.1 kv'.1); simpl; [reflexivity|].
  rewrite IH. destruct (P kv), (P kv'); reflexivity.
Qed.

Lemma forallb_sort_items {A} (P : key * A -> bool) m :
  forallb P (sort_items m) = forallb P m.
Proof.
  induction m as [|kv m IH]; simpl; [reflexivity|].
  now rewrite forallb_insert_item, IH.
Qed.

Lemma forallb_map_compose {A B} (P : B -> bool) (f : A -> B) (l : list A) :
  forallb P (List.map f l) = forallb (fun x => P (f x)) l.
Proof. induction l as [|x l IH]; simpl; [reflexivity|now rewrite IH]. Qed.

Lemma forallb_ext_on {A} (P Q : A -> bool) (l : list A) :
  (forall x, In x l -> P x = Q x) -> forallb P l = forallb Q l.
Proof.
  induction l as [|x l IH]; simpl; [reflexivity|].
  intros H. rewrite (H x) by auto. rewrite IH by auto. reflexivity.
Qed.

Lemma keys_compare_map {A B} (f : A -> B) (m : list (key * A)) :
  keys_compare (List.map (fun kv => (kv.1, f kv.2)) m) = keys_compare m.
Proof.
  unfold keys_compare. rewrite !forallb_map_compose. reflexivity.
Qed.

Lemma keys_compare_sort_items {A} (m : list (key * A)) :
  keys_compare (sort_items m) = keys_compare m.
Proof. unfold keys_compare. now rewrite !forallb_sort_items. Qed.

(** Where the keys compare, the dump sorts every mapping. *)
Lemma yaml_sort_keys_canon v : keys_sort v = true -> yaml_sort_keys v = canon v.
Proof.
  induction v as [| | | |l IH|m IH] using value_ind'; simpl; try reflexivity.
  - intros Hall. f_equal. apply List.map_ext_in. intros x Hx.
    rewrite List.Forall_forall in IH. apply IH; [exact Hx|].
    rewrite forallb_forall in Hall. now apply Hall.
  - intros Hm. apply andb_true_iff in Hm as [Hc Hall]. rewrite Hc.
    f_equal. f_equal. apply List.map_ext_in. intros kv Hkv.
    rewrite List.Forall_forall in IH. rewrite (IH kv Hkv); [reflexivity|].
    rewrite forallb_forall in Hall. now apply Hall.
Qed.

Lemma keys_sort_canon v : keys_sort (canon v) = keys_sort v.
Proof.
  induction v as [| | | |l IH|m IH] using value_ind'; simpl; try reflexivity.
  - rewrite forallb_map_compose. apply forallb_ext_on.
    rewrite List.Forall_forall in IH. exact IH.
  - rewrite keys_compare_sort_items, keys_compare_map.
    rewrite forallb_sort_items, forallb_map_compose. f_equal.
    apply forallb_ext_on. rewrite List.Forall_forall in IH.
    intros kv Hkv. simpl. now apply IH.
Qed.

Lemma yaml_sort_keys_same a b :
  same_up_to_key_order a b -> keys_sort a = true ->
  yaml_sort_keys a = yaml_sort_keys b.
Proof.
  intros Hsame Ha.
  assert (Hb : keys_sort b = true).
  { rewrite <- keys_sort_canon. unfold same_up_to_key_order in Hsame.
    rewrite <- Hsame. now rewrite keys_sort_canon. }
  now rewrite !yaml_sort_keys_canon.
Qed.

(** ** The order of keys *)
Lemma string_leb_trans (a b c : string) :
  String.leb a b = true -> String.leb b c = true -> String.leb a c = true.
Proof.
  unfold String.leb.
  destruct (String.compare a b) eqn:Hab; try discriminate; intros _;
    destruct (String.compare b c) eqn:Hbc; try discriminate; intros _.
  - apply OrderedTypeEx.String_as_OT.cmp_eq in Hab, Hbc. subst.
    pose proof (proj2 (OrderedTypeEx.String_as_OT.cmp_eq c c) eq_refl) as Hcc.
    unfold OrderedTypeEx.String_as_OT.cmp in Hcc. now rewrite Hcc.
  - apply OrderedTypeEx.String_as_OT.cmp_eq in Hab. subst. now rewrite Hbc.
  - apply OrderedTypeEx.String_as_OT.cmp_eq in Hbc. subst. now rewrite Hab.
  - apply OrderedTypeEx.String_as_OT.cmp_lt in Hab, Hbc.
    pose proof (OrderedTypeEx.String_as_OT.lt_trans _ _ _ Hab Hbc) as Hac.
    apply OrderedTypeEx.String_as_OT.cmp_lt in Hac.
    unfold OrderedTypeEx.String_as_OT.cmp in Hac. now rewrite Hac.
Qed.

Lemma key_leb_trans a b c :
  key_leb a b = true -> key_leb b c = true -> key_leb a c = true.
Proof.
  destruct a as [s|i], b as [t|j], c as [u|k]; simpl; try discriminate; auto.
  - apply string_leb_trans.
  - intros H1 H2. apply Z.leb_le in H1, H2. apply Z.leb_le. lia.
Qed.

Lemma key_leb_antisym a b : key_leb a b = true -> key_leb b a = true -> a = b.
Proof.
  destruct a as [s|i], b as [t|j]; simpl; try discriminate.
  - intros H1 H2. f_equal. now apply String.leb_antisym.
  - intros H1 H2. apply Z.leb_le in H1, H2. f_equal. lia.
Qed.

Lemma key_leb_total a b : key_leb a b = true \/ key_leb b a = true.
Proof.
  destruct a as [s|i], b as [t|j]; simpl; auto.
  - apply String.leb_total.
  - destruct (Z.leb_spec i j); [auto|right; apply Z.leb_le; lia].
Qed.

Lemma insert_item_perm {A} (kv : key * A) m : insert_item kv m ≡ₚ kv :: m.
Proof.
  induction m as [|kv' m IH]; simpl; [reflexivity|].
  destruct (key_leb kv.1 kv'.1); [reflexivity|].
  rewrite IH. apply Permutation_swap.
Qed.

Lemma sort_items_perm {A} (m : list (key * A)) : sort_items m ≡ₚ m.
Proof.
  induction m as [|kv m IH]; simpl; [reflexivity|].
  unfold sort_items in *. simpl. rewrite insert_item_perm. now rewrite IH.
Qed.

Lemma insert_item_sorted {A} (kv : key * A) m :
  Sorted (fun a b : key * A => key_leb a.1 b.1 = true) m ->
  Sorted (fun a b : key * A => key_leb a.1 b.1 = true) (insert_item kv m).
Proof.
  induction 1 as [|kv' m Hs IH Hhd]; simpl; [repeat constructor|].
  destruct (key_leb kv.1 kv'.1) eqn:Hle.
  - constructor; [constructor; assumption|]. constructor. exact Hle.
  - constructor; [exact IH|].
    destruct m as [|kv'' m]; simpl.
    + constructor. destruct (key_leb_total kv.1 kv'.1); congruence.
    + destruct (key_leb kv.1 kv''.1).
      * constructor. destruct (key_leb_total kv.1 kv'.1); congruence.
      * inversion Hhd; subst. now constructor.
Qed.

Lemma sort_items_sorted {A} (m : list (key * A)) :
  Sorted (fun a b : key * A => key_leb a.1 b.1 = true) (sort_items m).
Proof.
  induction m as [|kv m IH]; [constructor|].
  unfold sort_items in *. simpl. now apply insert_item_sorted.
Qed.

(** Sorting forgets the order the items were written in, as long as no
    key occurs twice. *)
Lemma sort_items_reordered {A} (m m' : list (key * A)) :
  m ≡ₚ m' -> NoDup (List.map fst m) -> sort_items m = sort_items m'.
Proof.
  intros Hp Hnd.
  assert (Htrans : Transitive (fun a b : key * A => key_leb a.1 b.1 = true)).
  { intros a b c. apply key_leb_trans. }
  apply (Sorted_unique_strong (fun a b : key * A => key_leb a.1 b.1 = true));
    [|apply sort_items_sorted|apply sort_items_sorted
     |now rewrite !sort_items_perm].
  intros x1 x2 H1 H2 H12 H21.
  pose proof (key_leb_antisym _ _ H12 H21) as Hk.
  rewrite sort_items_perm in H1. rewrite sort_items_perm, <- Hp in H2.
  clear -Hnd H1 H2 Hk. induction m as [|kv m IH]; [inversion H1|].
  simpl in Hnd. apply NoDup_cons in Hnd as [Hnot Hnd].
  apply elem_of_cons in H1 as [->|H1]; apply elem_of_cons in H2 as [->|H2].
  - reflexivity.
  - destruct Hnot. rewrite Hk. now apply (list_elem_of_fmap_2 fst).
  - destruct Hnot. rewrite <- Hk. now apply (list_elem_of_fmap_2 fst).
  - auto.
Qed.

(** Writing the items of a mapping in another order, and its values the
    same up to the order of their keys, gives a document that is the
    same up to the order of its keys. *)
Lemma reordered_mapping_same (m m1 m' : list (key * value)) :
  Forall2 (fun kv kv1 => kv.1 = kv1.1 /\ same_up_to_key_order kv.2 kv1.2) m m1 ->
  m1 ≡ₚ m' ->
  NoDup (List.map fst m) ->
  same_up_to_key_order (VDict m) (VDict m').
Proof.
  intros Hvals Hp Hnd. unfold same_up_to_key_order. simpl. f_equal.
  assert (E : List.map (fun kv => (kv.1, canon kv.2)) m
              = List.map (fun kv => (kv.1, canon kv.2)) m1).
  { clear Hp Hnd. induction Hvals as [|kv kv1 m m1 [Hk Hv] _ IH]; [reflexivity|].
    unfold same_up_to_key_order in Hv.
    simpl. f_equal; [now rewrite Hk, Hv | now apply IH]. }
  rewrite E. apply sort_items_reordered.
  - now apply Permutation_map.
  - rewrite <- E. rewrite List.map_map. simpl. exact Hnd.
Qed.

Lemma same_items_same (l l' : list value) :
  Forall2 same_up_to_key_order l l' ->
  same_up_to_key_order (VList l) (VList l').
Proof.
  intros H. unfold same_up_to_key_order. simpl. f_equal.
  induction H as [|x y l l' Hxy _ IH]; [reflexivity|].
  simpl. now rewrite Hxy, IH.
Qed.

(** ** [dict_set] on objects with an identity *)

Lemma getitem_in_frame h c k v h' cur k' :
  setitem_in h (RObj c) k v = Ok h' ->
  (forall o, cur = RObj c -> h !! c = Some o -> same_slot o k k' = false) ->
  getitem_in h' cur k' = getitem_in h cur k'.
Proof.
  unfold setitem_in. intros Hs Hslot.
  destruct cur as [| | | |l]; try reflexivity.
  destruct (decide (l = c)) as [->|Hl].
  - destruct (h !! c) as [o|] eqn:Ho; [|discriminate].
    specialize (Hslot o eq_refl eq_refl).
    destruct o as [items|m].
    + destruct k as [s|i]; [discriminate|].
      destruct (seq_pos (length items) i) as [p|] eqn:Hp; [|discriminate].
      inversion Hs; subst h'. unfold getitem_in.
      rewrite lookup_insert_eq, Ho.
      destruct k' as [s|j]; [reflexivity|].
      rewrite length_insert.
      destruct (seq_pos (length items) j) as [p'|] eqn:Hp'; [|reflexivity].
      simpl in Hslot. rewrite Hp, Hp' in Hslot.
      apply bool_decide_eq_false in Hslot.
      rewrite list_lookup_insert_ne by congruence. reflexivity.
    + inversion Hs; subst h'. unfold getitem_in.
      rewrite lookup_insert_eq, Ho.
      simpl in Hslot. apply bool_decide_eq_false in Hslot.
      rewrite dict_get_put_other by congruence. reflexivity.
  - destruct (h !! c) as [[items|m]|] eqn:Ho; [| |discriminate].
    + destruct k as [s|i]; [discriminate|].
      destruct (seq_pos (length items) i) as [p|] eqn:Hp; [|discriminate].
      inversion Hs; subst h'. unfold getitem_in.
      now rewrite lookup_insert_ne by congruence.
    + inversion Hs; subst h'. unfold getitem_in.
      now rewrite lookup_insert_ne by congruence.
Qed.

Lemma get_at_in_frame h c k v h' cur q :
  setitem_in h (RObj c) k v = Ok h' ->
  reads_slot h cur q c k = false ->
  get_at_in h' cur q = get_at_in h cur q.
Proof.
  intros Hs. revert cur. induction q as [|k' q IH]; intros cur; simpl; [reflexivity|].
  intros Hr. apply orb_false_iff in Hr as [Hhere Hlater].
  rewrite (getitem_in_frame h c k v h' cur k' Hs).
  - destruct (getitem_in h cur k') as [child|e]; simpl; [|reflexivity].
    now apply IH.
  - intros o -> Ho. rewrite Ho in Hhere.
    rewrite bool_decide_eq_true_2 in Hhere by reflexivity. exact Hhere.
Qed.

Lemma setitem_in_obj h cur k v h' :
  setitem_in h cur k v = Ok h' -> exists c, cur = RObj c.
Proof. destruct cur; try discriminate. eauto. Qed.

Lemma resolve_in_get_at h cur ks :
  resolve_in h cur ks = get_at_in h cur (List.map subscript ks).
Proof.
  revert cur. induction ks as [|k ks IH]; intros cur; simpl; [reflexivity|].
  destruct (getitem_in h cur (subscript k)); simpl; auto.
Qed.

Lemma get_at_in_app h cur p q :
  get_at_in h cur (p ++ q) = (c ← get_at_in h cur p; get_at_in h c q).
Proof.
  revert cur. induction p as [|k p IH]; intros cur; simpl; [reflexivity|].
  destruct (getitem_in h cur k); simpl; auto.
Qed.

Lemma getitem_in_setitem_in h cur k v h' :
  setitem_in h cur k v = Ok h' -> getitem_in h' cur k = Ok v.
Proof.
  unfold setitem_in, getitem_in.
  destruct cur as [| | | |l]; try discriminate.
  destruct (h !! l) as [[items|m]|] eqn:Ho; [| |discriminate].
  - destruct k as [s|i]; [discriminate|].
    destruct (seq_pos (length items) i) as [p|] eqn:Hp; [|discriminate].
    intros H; inversion H; subst h'. rewrite lookup_insert_eq, length_insert, Hp.
    apply seq_pos_Some in Hp as [Hp _].
    now rewrite list_lookup_insert_eq.
  - intros H; inversion H; subst h'. rewrite lookup_insert_eq.
    now rewrite dict_get_put_same.
Qed.

Lemma dict_set_in_place_inv h d path v h' :
  dict_set_in_place h d path v = Ok h' ->
  exists c, resolve_in h d (path_init path) = Ok (RObj c) /\
            setitem_in h (RObj c) (subscript (path_final path)) v = Ok h'.
Proof.
  unfold dict_set_in_place. fold (path_init path). fold (path_final path).
  destruct (resolve_in h d (path_init path)) as [cur|e]; simpl; [|discriminate].
  intros Hs. destruct (setitem_in_obj _ _ _ _ _ Hs) as [c ->]. eauto.
Qed.

Lemma setitem_in_others h c k v h' l :
  setitem_in h (RObj c) k v = Ok h' -> l <> c -> h' !! l = h !! l.
Proof.
  unfold setitem_in. intros Hs Hl.
  destruct (h !! c) as [[items|m]|]; [| |discriminate].
  - destruct k as [s|i]; [discriminate|].
    destruct (seq_pos (length items) i); [|discriminate].
    inversion Hs; subst h'. now apply lookup_insert_ne.
  - inversion Hs; subst h'. now apply lookup_insert_ne.
Qed.

Lemma getitem_in_dict h l m k v :
  h !! l = Some (ODict m) -> dict_get k m = Some v ->
  getitem_in h (RObj l) k = Ok v.
Proof. intros Hl Hk. unfold getitem_in. now rewrite Hl, Hk. Qed.

Lemma getitem_in_list h l items i p v :
  h !! l = Some (OList items) -> seq_pos (length items) i = Some p ->
  items !! p = Some v ->
  getitem_in h (RObj l) (KInt i) = Ok v.
Proof. intros Hl Hp Hv. unfold getitem_in. now rewrite Hl, Hp, Hv. Qed.

(** ** Documents without shared objects *)

Lemma chain_range {A B} (P : A -> B -> loc -> loc -> Prop) ts rs lo hi :
  Forall (fun t => forall r a b, P t r a b -> (a <= b)%nat) ts ->
  chain P ts rs lo hi -> (lo <= hi)%nat.
Proof.
  revert rs lo. induction ts as [|t ts IH]; intros [|r rs] lo HF; simpl; try tauto.
  - lia.
  - intros (mid & HP & Hc). apply Forall_cons in HF as [Ht HF].
    specialize (Ht _ _ _ HP). specialize (IH rs mid HF Hc). lia.
Qed.

Lemma tree_at_range h t : forall r lo hi, tree_at h t r lo hi -> (lo <= hi)%nat.
Proof.
  induction t as [|b|i|s|l IH|m IH] using value_ind'; intros r lo hi; simpl;
    try (intros [_ ->]; lia).
  - intros (l0 & rs & _ & -> & _ & Hc).
    apply chain_range in Hc; [lia|exact IH].
  - intros (l0 & rm & _ & -> & _ & Hc).
    apply chain_range in Hc; [lia|].
    eapply Forall_impl; [exact IH|]. simpl. intros kt Hkt kr a b [_ H]. eauto.
Qed.

Lemma chain_impl {A B} (P Q : A -> B -> loc -> loc -> Prop) ts rs lo hi :
  Forall (fun t => forall r a b, P t r a b -> (a <= b)%nat) ts ->
  Forall (fun t => forall r a b, (lo <= a)%nat -> (b <= hi)%nat ->
                                 P t r a b -> Q t r a b) ts ->
  chain P ts rs lo hi -> chain Q ts rs lo hi.
Proof.
  revert rs lo. induction ts as [|t ts IH]; intros [|r rs] lo HR HF; simpl; try tauto.
  intros (mid & HP & Hc).
  apply Forall_cons in HR as [Hr HR]. apply Forall_cons in HF as [Ht HF].
  pose proof (Hr _ _ _ HP) as Hlo.
  pose proof (chain_range _ _ _ _ _ HR Hc) as Hhi.
  exists mid. split; [apply Ht; auto; lia|].
  apply IH; [exact HR| |exact Hc].
  eapply Forall_impl; [exact HF|]. simpl. intros t' Ht' r' a b Ha Hb. apply Ht'; lia.
Qed.

Lemma chain_all2 {A B} (P : A -> B -> loc -> loc -> Prop) (Q : A -> B -> Prop)
    ts rs lo hi :
  Forall (fun t => forall r a b, P t r a b -> (a <= b)%nat) ts ->
  Forall (fun t => forall r a b, (lo <= a)%nat -> (b <= hi)%nat ->
                                 P t r a b -> Q t r) ts ->
  chain P ts rs lo hi -> all2 Q ts rs.
Proof.
  revert rs lo. induction ts as [|t ts IH]; intros [|r rs] lo HR HF; simpl; try tauto.
  intros (mid & HP & Hc).
  apply Forall_cons in HR as [Hr HR]. apply Forall_cons in HF as [Ht HF].
  pose proof (Hr _ _ _ HP) as Hlo.
  pose proof (chain_range _ _ _ _ _ HR Hc) as Hhi.
  split; [eapply Ht; [| |exact HP]; lia|].
  apply (IH rs mid); [exact HR| |exact Hc].
  eapply Forall_impl; [exact HF|]. simpl. intros t' Ht' r' a b Ha Hb. apply Ht'; lia.
Qed.

Lemma tree_at_ranges h (ts : list value) :
  Forall (fun t => forall r a b, tree_at h t r a b -> (a <= b)%nat) ts.
Proof. apply Forall_forall. intros t _. apply tree_at_range. Qed.

Lemma tree_at_item_ranges h (m : list (key * value)) :
  Forall (fun kt : key * value =>
            forall (kr : key * ref) a b,
              kt.1 = kr.1 /\ tree_at h kt.2 kr.2 a b -> (a <= b)%nat) m.
Proof. apply Forall_forall. intros t _ kr a b [_ H]. eapply tree_at_range; eauto. Qed.

(** Only the objects of the document matter. *)
Lemma tree_at_ext h h' t :
  forall r lo hi, tree_at h t r lo hi ->
    (forall l, (lo <= l < hi)%nat -> h' !! l = h !! l) ->
    tree_at h' t r lo hi.
Proof.
  induction t as [|b|i|s|l IH|m IH] using value_ind'; intros r lo hi; simpl; auto.
  - intros (l0 & rs & -> & -> & Hl & Hc) Hext.
    pose proof (chain_range _ _ _ _ _ (tree_at_ranges h l) Hc) as Hr.
    exists l0, rs. split; [reflexivity|]. split; [reflexivity|].
    split; [rewrite Hext by lia; exact Hl|].
    eapply chain_impl; [apply tree_at_ranges| |exact Hc].
    eapply Forall_impl; [exact IH|]. simpl. intros t Ht r a b Ha Hb Hta.
    apply Ht; [exact Hta|]. intros l1 Hl1. apply Hext. lia.
  - intros (l0 & rm & -> & -> & Hl & Hc) Hext.
    pose proof (chain_range _ _ _ _ _ (tree_at_item_ranges h m) Hc) as Hr.
    exists l0, rm. split; [reflexivity|]. split; [reflexivity|].
    split; [rewrite Hext by lia; exact Hl|].
    eapply chain_impl; [apply tree_at_item_ranges| |exact Hc].
    eapply Forall_impl; [exact IH|]. simpl. intros kt Ht kr a b Ha Hb [Hk Hta].
    split; [exact Hk|]. apply Ht; [exact Hta|]. intros l1 Hl1. apply Hext. lia.
Qed.

Lemma tree_at_stands_for h t :
  forall r lo hi, tree_at h t r lo hi -> stands_for h t r.
Proof.
  induction t as [|b|i|s|l IH|m IH] using value_ind'; intros r lo hi; simpl;
    try (intros [-> _]; reflexivity).
  - intros (l0 & rs & -> & -> & Hl & Hc). exists l0, rs.
    split; [reflexivity|]. split; [exact Hl|].
    eapply chain_all2; [apply tree_at_ranges| |exact Hc].
    eapply Forall_impl; [exact IH|]. simpl. intros t Ht r a b _ _. apply Ht.
  - intros (l0 & rm & -> & -> & Hl & Hc). exists l0, rm.
    split; [reflexivity|]. split; [exact Hl|].
    eapply chain_all2; [apply tree_at_item_ranges| |exact Hc].
    eapply Forall_impl; [exact IH|]. simpl. intros kt Ht kr a b _ _ [Hk Hta].
    split; [exact Hk|]. eapply Ht; eauto.
Qed.

Lemma alloc_tree_at t :
  forall h0 n0 r h n,
    alloc t (h0, n0) = (r, (h, n)) ->
    (forall l, (n0 <= l)%nat -> h0 !! l = None) ->
    tree_at h t r n0 n /\
    (forall l, (l < n0)%nat -> h !! l = h0 !! l) /\
    (forall l, (n <= l)%nat -> h !! l = None).
Proof.
  induction t as [|b|i|s|ts IH|m IH] using value_ind'; intros h0 n0 r h n;
    try solve [simpl; intros H Hb; inversion H; subst; auto].
  - intros Halloc Hb. simpl in Halloc.
    match type of Halloc with
    | context [?f ts (h0, n0)] => set (go := f) in *
    end.
    assert (Haux : forall h0 n0 rs h1 n1,
               go ts (h0, n0) = (rs, (h1, n1)) ->
               (forall l, (n0 <= l)%nat -> h0 !! l = None) ->
               chain (tree_at h1) ts rs n0 n1 /\
               (forall l, (l < n0)%nat -> h1 !! l = h0 !! l) /\
               (forall l, (n1 <= l)%nat -> h1 !! l = None)).
    { clear Halloc Hb h0 n0 r h n.
      induction IH as [|x ts Hx _ IHts]; intros h0 n0 rs h1 n1 Hgo Hb.
      - simpl in Hgo. inversion Hgo; subst. simpl. auto.
      - simpl in Hgo.
        destruct (alloc x (h0, n0)) as [r1 [h2 n2]] eqn:Hax.
        destruct (go ts (h2, n2)) as [rs' [h3 n3]] eqn:Hgo'.
        inversion Hgo; subst.
        destruct (Hx _ _ _ _ _ Hax Hb) as (Tx & Ax & Bx).
        destruct (IHts _ _ _ _ _ Hgo' Bx) as (Tts & Ats & Bts).
        pose proof (tree_at_range _ _ _ _ _ Tx) as Rx.
        split; [|split].
        + simpl. exists n2. split; [|exact Tts].
          eapply tree_at_ext; [exact Tx|]. intros l Hl. apply Ats. lia.
        + intros l Hl. rewrite Ats by lia. apply Ax. lia.
        + exact Bts. }
    destruct (go ts (h0, n0)) as [rs [h1 n1]] eqn:Hgo.
    inversion Halloc; subst.
    destruct (Haux _ _ _ _ _ Hgo Hb) as (Tts & Ats & Bts).
    pose proof (chain_range _ _ _ _ _ (tree_at_ranges h1 ts) Tts) as Rts.
    split; [|split].
    + simpl. exists n1, rs. split; [reflexivity|]. split; [reflexivity|].
      split; [apply lookup_insert_eq|].
      eapply chain_impl; [apply tree_at_ranges| |exact Tts].
      apply Forall_forall. intros t _ r a b Ha Hb' Ht.
      eapply tree_at_ext; [exact Ht|]. intros l Hl.
      apply lookup_insert_ne. lia.
    + intros l Hl. rewrite lookup_insert_ne by lia. apply Ats. lia.
    + intros l Hl. rewrite lookup_insert_ne by lia. apply Bts. lia.
  - intros Halloc Hb. simpl in Halloc.
    match type of Halloc with
    | context [?f m (h0, n0)] => set (go := f) in *
    end.
    assert (Haux : forall h0 n0 rm h1 n1,
               go m (h0, n0) = (rm, (h1, n1)) ->
               (forall l, (n0 <= l)%nat -> h0 !! l = None) ->
               chain (fun (kt : key * value) (kr : key * ref) lo' hi' =>
                        kt.1 = kr.1 /\ tree_at h1 kt.2 kr.2 lo' hi') m rm n0 n1 /\
               (forall l, (l < n0)%nat -> h1 !! l = h0 !! l) /\
               (forall l, (n1 <= l)%nat -> h1 !! l = None)).
    { clear Halloc Hb h0 n0 r h n.
      induction IH as [|[k x] m Hx _ IHm]; intros h0 n0 rm h1 n1 Hgo Hb.
      - simpl in Hgo. inversion Hgo; subst. simpl. auto.
      - simpl in Hgo. simpl in Hx.
        destruct (alloc x (h0, n0)) as [r1 [h2 n2]] eqn:Hax.
        destruct (go m (h2, n2)) as [rm' [h3 n3]] eqn:Hgo'.
        inversion Hgo; subst.
        destruct (Hx _ _ _ _ _ Hax Hb) as (Tx & Ax & Bx).
        destruct (IHm _ _ _ _ _ Hgo' Bx) as (Tm & Am & Bm).
        pose proof (tree_at_range _ _ _ _ _ Tx) as Rx.
        split; [|split].
        + simpl. exists n2. split; [|exact Tm]. split; [reflexivity|].
          eapply tree_at_ext; [exact Tx|]. intros l Hl. apply Am. lia.
        + intros l Hl. rewrite Am by lia. apply Ax. lia.
        + exact Bm. }
    destruct (go m (h0, n0)) as [rm [h1 n1]] eqn:Hgo.
    inversion Halloc; subst.
    destruct (Haux _ _ _ _ _ Hgo Hb) as (Tm & Am & Bm).
    pose proof (chain_range _ _ _ _ _ (tree_at_item_ranges h1 m) Tm) as Rm.
    split; [|split].
    + simpl. exists n1, rm. split; [reflexivity|]. split; [reflexivity|].
      split; [apply lookup_insert_eq|].
      eapply chain_impl; [apply tree_at_item_ranges| |exact Tm].
      apply Forall_forall. intros kt _ kr a b Ha Hb' [Hk Ht]. split; [exact Hk|].
      eapply tree_at_ext; [exact Ht|]. intros l Hl.
      apply lookup_insert_ne. lia.
    + intros l Hl. rewrite lookup_insert_ne by lia. apply Am. lia.
    + intros l Hl. rewrite lookup_insert_ne by lia. apply Bm. lia.
Qed.

Lemma all2_insert {A B} (P : A -> B -> Prop) ts rs p t r :
  all2 P ts rs -> P t r -> all2 P (<[p := t]> ts) (<[p := r]> rs).
Proof.
  revert rs p. induction ts as [|t0 ts IH]; intros [|r0 rs] p; simpl; try tauto.
  intros [H0 Hts] Htr. destruct p as [|p]; simpl; auto.
Qed.

Lemma all2_dict_put {A B} (P : A -> B -> Prop) m rm k t r :
  all2 (fun (kt : key * A) (kr : key * B) => kt.1 = kr.1 /\ P kt.2 kr.2) m rm ->
  P t r ->
  all2 (fun (kt : key * A) (kr : key * B) => kt.1 = kr.1 /\ P kt.2 kr.2)
    (dict_put k t m) (dict_put k r rm).
Proof.
  revert rm. induction m as [|[k0 t0] m IH]; intros [|[k1 r0] rm]; simpl; try tauto.
  intros [[Hk H0] Hm] Htr. simpl in Hk. subst k1.
  destruct (decide (k0 = k)); simpl; auto.
Qed.

Lemma all2_length {A B} (P : A -> B -> Prop) ts rs :
  all2 P ts rs -> length rs = length ts.
Proof.
  revert rs. induction ts as [|t ts IH]; intros [|r rs]; simpl; try tauto.
  intros [_ H]. now rewrite (IH _ H).
Qed.

(** Reading a key of a dict of an alias-free document: the item read has
    its own range of locations, and with another document written
    inside that range the dict stands for the dict with that item
    replaced. *)
Lemma chain_dict_get h k m :
  forall rm lo hi,
    chain (fun (kt : key * value) (kr : key * ref) lo' hi' =>
             kt.1 = kr.1 /\ tree_at h kt.2 kr.2 lo' hi') m rm lo hi ->
    match dict_get k m with
    | Some child =>
        exists rchild a b,
          dict_get k rm = Some rchild /\ (lo <= a)%nat /\ (b <= hi)%nat /\
          tree_at h child rchild a b /\
          forall h' child',
            (forall l, ~ (a <= l < b)%nat -> h' !! l = h !! l) ->
            stands_for h' child' rchild ->
            all2 (fun (kt : key * value) (kr : key * ref) =>
                    kt.1 = kr.1 /\ stands_for h' kt.2 kr.2)
              (dict_put k child' m) rm
    | None => dict_get k rm = None
    end.
Proof.
  induction m as [|[k0 t0] m IH]; intros [|[k1 r0] rm] lo hi; simpl; try tauto.
  intros (mid & [Hk Ht] & Hc). simpl in Hk, Ht. subst k1.
  pose proof (tree_at_range _ _ _ _ _ Ht) as Rt.
  pose proof (chain_range _ _ _ _ _ (tree_at_item_ranges h m) Hc) as Rc.
  destruct (decide (k0 = k)) as [->|Hne].
  - exists r0, lo, mid. split; [reflexivity|]. split; [lia|]. split; [lia|].
    split; [exact Ht|]. intros h' child' Hext Hs. simpl.
    split; [auto|].
    eapply chain_all2; [apply tree_at_item_ranges| |exact Hc].
    apply Forall_forall. intros kt _ kr a b Ha Hb [Hk Hta]. split; [exact Hk|].
    eapply tree_at_stands_for, tree_at_ext; [exact Hta|].
    intros l Hl. apply Hext. lia.
  - specialize (IH rm mid hi Hc).
    destruct (dict_get k m) as [child|]; [|exact IH].
    destruct IH as (rchild & a & b & Hg & Ha & Hb & Hta & Hre).
    exists rchild, a, b. split; [exact Hg|]. split; [lia|]. split; [lia|].
    split; [exact Hta|]. intros h' child' Hext Hs. simpl.
    split; [|now apply Hre]. split; [reflexivity|]. simpl.
    eapply tree_at_stands_for, tree_at_ext; [exact Ht|].
    intros l Hl. apply Hext. lia.
Qed.

Lemma chain_list_lookup h ts :
  forall rs lo hi,
    chain (tree_at h) ts rs lo hi ->
    length rs = length ts /\
    forall p child,
      ts !! p = Some child ->
      exists rchild a b,
        rs !! p = Some rchild /\ (lo <= a)%nat /\ (b <= hi)%nat /\
        tree_at h child rchild a b /\
        forall h' child',
          (forall l, ~ (a <= l < b)%nat -> h' !! l = h !! l) ->
          stands_for h' child' rchild ->
          all2 (stands_for h') (<[p := child']> ts) rs.
Proof.
  induction ts as [|t0 ts IH]; intros [|r0 rs] lo hi; simpl; try tauto.
  - intros _. split; [reflexivity|]. intros p child Hp. destruct p; discriminate.
  - intros (mid & Ht & Hc).
    pose proof (tree_at_range _ _ _ _ _ Ht) as Rt.
    pose proof (chain_range _ _ _ _ _ (tree_at_ranges h ts) Hc) as Rc.
    destruct (IH rs mid hi Hc) as [Hlen Hlook].
    split; [now rewrite Hlen|].
    intros [|p] child Hp; simpl in Hp.
    + inversion Hp; subst child.
      exists r0, lo, mid. split; [reflexivity|]. split; [lia|]. split; [lia|].
      split; [exact Ht|]. intros h' child' Hext Hs. simpl. split; [exact Hs|].
      eapply chain_all2; [apply tree_at_ranges| |exact Hc].
      apply Forall_forall. intros t _ r a b Ha Hb Hta.
      eapply tree_at_stands_for, tree_at_ext; [exact Hta|].
      intros l Hl. apply Hext. lia.
    + destruct (Hlook p child Hp) as (rchild & a & b & Hg & Ha & Hb & Hta & Hre).
      exists rchild, a, b. split; [exact Hg|]. split; [lia|]. split; [lia|].
      split; [exact Hta|]. intros h' child' Hext Hs. simpl.
      split; [|now apply Hre].
      eapply tree_at_stands_for, tree_at_ext; [exact Ht|].
      intros l Hl. apply Hext. lia.
Qed.

(** A subscript read in an alias-free document, on the tree and in the
    store. *)
Lemma getitem_tree_at h t r lo hi k :
  tree_at h t r lo hi ->
  match getitem t k with
  | Ok child =>
      exists rchild a b,
        getitem_in h r k = Ok rchild /\ (lo <= a)%nat /\ (b <= hi)%nat /\
        tree_at h child rchild a b /\
        forall h' child',
          (a < b)%nat ->
          (forall l, ~ (a <= l < b)%nat -> h' !! l = h !! l) ->
          stands_for h' child' rchild ->
          exists t', setitem t k child' = Ok t' /\ stands_for h' t' r
  | Raise e => getitem_in h r k = Raise e
  end.
Proof.
  destruct t as [|b|i|s|ts|m]; simpl.
  - intros [-> _]. now destruct k.
  - intros [-> _]. now destruct k.
  - intros [-> _]. now destruct k.
  - intros [-> <-]. destruct k as [s0|i]; [reflexivity|]. simpl.
    destruct (seq_pos (String.length s) i) as [p|]; [|reflexivity].
    destruct (string_nth p s) as [c|]; [|reflexivity].
    exists (RStr (String c EmptyString)), lo, lo.
    split; [reflexivity|]. split; [lia|]. split; [lia|].
    split; [simpl; auto|]. intros h' child' Hlt. lia.
  - intros (l & rs & -> & -> & Hl & Hc).
    destruct (chain_list_lookup _ _ _ _ _ Hc) as [Hlen Hlook].
    pose proof (chain_range _ _ _ _ _ (tree_at_ranges h ts) Hc) as Rc.
    destruct k as [s0|i]; simpl; rewrite Hl; [reflexivity|].
    rewrite Hlen.
    destruct (seq_pos (length ts) i) as [p|] eqn:Hp; [|reflexivity].
    destruct (ts !! p) as [child|] eqn:Hchild.
    + destruct (Hlook p child Hchild) as (rchild & a & b & Hg & Ha & Hb & Hta & Hre).
      rewrite Hg. exists rchild, a, b. split; [reflexivity|].
      split; [lia|]. split; [lia|]. split; [exact Hta|].
      intros h' child' _ Hext Hs. eexists. split; [reflexivity|].
      simpl. exists l, rs. split; [reflexivity|].
      split; [rewrite Hext by lia; exact Hl|]. now apply Hre.
    + apply lookup_ge_None in Hchild.
      rewrite (proj2 (lookup_ge_None rs p)) by lia. reflexivity.
  - intros (l & rm & -> & -> & Hl & Hc).
    pose proof (chain_dict_get h k m rm lo l Hc) as Hget.
    pose proof (chain_range _ _ _ _ _ (tree_at_item_ranges h m) Hc) as Rc.
    unfold getitem_in. rewrite Hl.
    destruct (dict_get k m) as [child|].
    + destruct Hget as (rchild & a & b & Hg & Ha & Hb & Hta & Hre).
      rewrite Hg. exists rchild, a, b. split; [reflexivity|].
      split; [lia|]. split; [lia|]. split; [exact Hta|].
      intros h' child' _ Hext Hs. eexists. split; [reflexivity|].
      simpl. exists l, rm. split; [reflexivity|].
      split; [rewrite Hext by lia; exact Hl|]. now apply Hre.
    + now rewrite Hget.
Qed.

(** A subscript assignment in an alias-free document, on the tree and in
    the store. *)
Lemma setitem_tree_at h t r lo hi k tv rv :
  tree_at h t r lo hi ->
  (forall h', (forall l, ~ (lo <= l < hi)%nat -> h' !! l = h !! l) ->
              stands_for h' tv rv) ->
  match setitem t k tv with
  | Ok t' =>
      exists c h',
        r = RObj c /\ (lo <= c < hi)%nat /\ setitem_in h r k rv = Ok h' /\
        (forall l, l <> c -> h' !! l = h !! l) /\ stands_for h' t' r
  | Raise e => setitem_in h r k rv = Raise e
  end.
Proof.
  destruct t as [|b|i|s|ts|m]; simpl.
  - intros [-> _] _. now destruct k.
  - intros [-> _] _. now destruct k.
  - intros [-> _] _. now destruct k.
  - intros [-> _] _. now destruct k.
  - intros (l & rs & -> & -> & Hl & Hc) Hv.
    destruct (chain_list_lookup _ _ _ _ _ Hc) as [Hlen _].
    pose proof (chain_range _ _ _ _ _ (tree_at_ranges h ts) Hc) as Rc.
    destruct k as [s0|i]; simpl; rewrite Hl; [reflexivity|].
    rewrite Hlen.
    destruct (seq_pos (length ts) i) as [p|] eqn:Hp; [|reflexivity].
    exists l. eexists. split; [reflexivity|]. split; [lia|].
    split; [reflexivity|].
    split; [intros l' Hl'; now apply lookup_insert_ne|].
    simpl. exists l. eexists. split; [reflexivity|].
    split; [apply lookup_insert_eq|].
    apply all2_insert.
    + eapply chain_all2; [apply tree_at_ranges| |exact Hc].
      apply Forall_forall. intros t _ r a b Ha Hb Hta.
      eapply tree_at_stands_for, tree_at_ext; [exact Hta|].
      intros l' Hl'. apply lookup_insert_ne. lia.
    + apply Hv. intros l' Hl'. apply lookup_insert_ne. lia.
  - intros (l & rm & -> & -> & Hl & Hc) Hv.
    pose proof (chain_range _ _ _ _ _ (tree_at_item_ranges h m) Hc) as Rc.
    unfold setitem_in. rewrite Hl.
    exists l. eexists. split; [reflexivity|]. split; [lia|].
    split; [reflexivity|].
    split; [intros l' Hl'; now apply lookup_insert_ne|].
    simpl. exists l. eexists. split; [reflexivity|].
    split; [apply lookup_insert_eq|].
    apply (all2_dict_put (fun t r => stands_for _ t r)).
    + eapply chain_all2; [apply tree_at_item_ranges| |exact Hc].
      apply Forall_forall. intros kt _ kr a b Ha Hb [Hk Hta]. split; [exact Hk|].
      eapply tree_at_stands_for, tree_at_ext; [exact Hta|].
      intros l' Hl'. apply lookup_insert_ne. lia.
    + apply Hv. intros l' Hl'. apply lookup_insert_ne. lia.
Qed.

(** The walk and the assignment of [dict_set] in an alias-free document:
    the tree and the store agree, on the result and on the error. *)
Lemma dict_set_keys_tree_at h tv rv ks fin :
  forall t r lo hi,
    tree_at h t r lo hi ->
    (forall h', (forall l, ~ (lo <= l < hi)%nat -> h' !! l = h !! l) ->
                stands_for h' tv rv) ->
    match dict_set_keys t ks fin tv with
    | Ok t' =>
        exists c h',
          resolve_in h r ks = Ok (RObj c) /\ (lo <= c < hi)%nat /\
          setitem_in h (RObj c) (subscript fin) rv = Ok h' /\
          (forall l, l <> c -> h' !! l = h !! l) /\ stands_for h' t' r
    | Raise e =>
        (cur ← resolve_in h r ks; setitem_in h cur (subscript fin) rv) = Raise e
    end.
Proof.
  induction ks as [|k ks IH]; intros t r lo hi Ht Hv.
  - simpl. pose proof (setitem_tree_at h t r lo hi (subscript fin) tv rv Ht Hv) as H.
    destruct (setitem t (subscript fin) tv) as [t'|e]; [|exact H].
    destruct H as (c & h' & -> & Hc & Hs & Hfr & Hst).
    exists c, h'. auto.
  - simpl. pose proof (getitem_tree_at h t r lo hi (subscript k) Ht) as Hg.
    destruct (getitem t (subscript k)) as [child|e]; simpl;
      [|rewrite Hg; reflexivity].
    destruct Hg as (rchild & a & b & Hg & Ha & Hb & Hta & Hre).
    rewrite Hg. simpl.
    assert (Hv' : forall h', (forall l, ~ (a <= l < b)%nat -> h' !! l = h !! l) ->
                             stands_for h' tv rv).
    { intros h' Hext. apply Hv. intros l Hl. apply Hext. lia. }
    specialize (IH child rchild a b Hta Hv').
    destruct (dict_set_keys child ks fin tv) as [child'|e]; simpl; [|exact IH].
    destruct IH as (c & h' & Hr & Hc & Hs & Hfr & Hst).
    destruct (Hre h' child') as (t' & Hset & Hst'); [lia| |exact Hst|].
    { intros l Hl. apply Hfr. intros ->. lia. }
    rewrite Hset. exists c, h'.
    split; [exact Hr|]. split; [lia|]. split; [exact Hs|].
    split; [exact Hfr | exact Hst'].
Qed.

(** On a document built without aliases, with the value built before it,
    [dict_set] in place gives the document the tree model computes, and
    raises what the tree model raises. *)
Lemma dict_set_in_place_agrees (t v : value) (path : string) rv h1 n1 r h n :
  alloc v (∅, 0%nat) = (rv, (h1, n1)) ->
  alloc t (h1, n1) = (r, (h, n)) ->
  match dict_set t path v with
  | Ok t' =>
      exists h', dict_set_in_place h r path rv = Ok h' /\ stands_for h' t' r
  | Raise e => dict_set_in_place h r path rv = Raise e
  end.
Proof.
  intros Hv Ht.
  destruct (alloc_tree_at v _ _ _ _ _ Hv) as (Tv & _ & Bv);
    [intros l _; apply lookup_empty|].
  destruct (alloc_tree_at t _ _ _ _ _ Ht Bv) as (Tt & At & _).
  pose proof (tree_at_range _ _ _ _ _ Tt) as Rt.
  assert (Hstable : forall h', (forall l, ~ (n1 <= l < n)%nat -> h' !! l = h !! l) ->
                               stands_for h' v rv).
  { intros h' Hext. eapply tree_at_stands_for, tree_at_ext; [exact Tv|].
    intros l Hl. rewrite Hext by lia. apply At. lia. }
  pose proof (dict_set_keys_tree_at h v rv (path_init path) (path_final path)
                t r n1 n Tt Hstable) as H.
  unfold dict_set, dict_set_in_place.
  fold (path_init path). fold (path_final path).
  destruct (dict_set_keys t (path_init path) (path_final path) v) as [t'|e];
    [|exact H].
  destruct H as (c & h' & Hr & _ & Hs & _ & Hst).
  exists h'. rewrite Hr. simpl. auto.
Qed.

(** What [contents] reads is a document the reference stands for. *)
Lemma contents_stands_for fuel h :
  forall r t, contents fuel h r = Some t -> stands_for h t r.
Proof.
  induction fuel as [|fuel IH]; intros r t; destruct r as [| | | |l]; simpl;
    try (intros H; inversion H; subst; reflexivity); try discriminate.
  destruct (h !! l) as [[items|m]|] eqn:Hl; [| |discriminate].
  - destruct (mapM (contents fuel h) items) as [ts|] eqn:Hm; [|discriminate].
    intros H; inversion H; subst t. simpl. exists l, items.
    split; [reflexivity|]. split; [exact Hl|].
    apply mapM_Some in Hm. clear Hl H.
    induction Hm as [|r t rs ts Hrt _ IHm]; simpl; auto.
  - destruct (mapM (fun kr : key * ref => pair kr.1 <$> contents fuel h kr.2) m)
      as [tm|] eqn:Hm; [|discriminate].
    intros H; inversion H; subst t. simpl. exists l, m.
    split; [reflexivity|]. split; [exact Hl|].
    apply mapM_Some in Hm. clear Hl H.
    induction Hm as [|kr kt rm tm Hrt _ IHm]; simpl; auto.
    split; [|exact IHm].
    destruct (contents fuel h kr.2) as [t|] eqn:Hc; [|discriminate].
    simpl in Hrt. inversion Hrt; subst kt. simpl. auto.
Qed.

(** ** The image patch, in place *)

(** C7, as the code has it.  On a template whose [spec.containers] is a
    list with a dict as first entry, patching ["spec.containers.0.image"]
    assigns in place in that dict object: its [image] key holds the
    value, its other keys keep their values and their order, and no
    other object of the store changes.  A read of any document that
    never subscripts that object at [image] gives what it gave before,
    and every place that holds the object shows the new image.  On a
    template built without aliases the patched document is the template
    with the [image] of container 0 set: no key of the template or of
    its [spec] moves or appears, and the document reads as before along
    every other path. *)
Theorem dict_set_image_in_place :
  (forall (h : store) (ld ls lcs c : loc) (m sm items : list (key * ref))
          (cs : list ref) (v : ref),
      h !! ld = Some (ODict m) ->
      dict_get (KStr "spec") m = Some (RObj ls) ->
      h !! ls = Some (ODict sm) ->
      dict_get (KStr "containers") sm = Some (RObj lcs) ->
      h !! lcs = Some (OList (RObj c :: cs)) ->
      h !! c = Some (ODict items) ->
      let items' := dict_put (KStr "image") v items in
      let h' := <[c := ODict items']> h in
      dict_set_in_place h (RObj ld) "spec.containers.0.image" v = Ok h' /\
      dict_get (KStr "image") items' = Some v /\
      (forall k, k <> KStr "image" -> dict_get k items' = dict_get k items) /\
      (is_Some (dict_get (KStr "image") items) ->
         List.map fst items' = List.map fst items) /\
      (dict_get (KStr "image") items = None ->
         items' = items ++ [(KStr "image", v)]) /\
      (forall l, l <> c -> h' !! l = h !! l) /\
      (forall r q, reads_slot h r q c (KStr "image") = false ->
         get_at_in h' r q = get_at_in h r q) /\
      (forall r q, get_at_in h r q = Ok (RObj c) ->
         reads_slot h r q c (KStr "image") = false ->
         get_at_in h' r (q ++ [KStr "image"]) = Ok v)) /\
  (forall (m sm c : list (key * value)) (cs : list value) (v : value)
          (rv r : ref) (h1 h : store) (n1 n : loc),
      dict_get (KStr "spec") m = Some (VDict sm) ->
      dict_get (KStr "containers") sm = Some (VList (VDict c :: cs)) ->
      alloc v (∅, 0%nat) = (rv, (h1, n1)) ->
      alloc (VDict m) (h1, n1) = (r, (h, n)) ->
      let c' := dict_put (KStr "image") v c in
      let sm' := dict_put (KStr "containers") (VList (VDict c' :: cs)) sm in
      let m' := dict_put (KStr "spec") (VDict sm') m in
      exists h',
        dict_set_in_place h r "spec.containers.0.image" rv = Ok h' /\
        stands_for h' (VDict m') r /\
        get_at (VDict m') [KStr "spec"; KStr "containers"; KInt 0; KStr "image"]
          = Ok v /\
        (forall k, k <> KStr "image" -> dict_get k c' = dict_get k c) /\
        List.map fst sm' = List.map fst sm /\
        List.map fst m' = List.map fst m /\
        (forall q,
            diverges_b [KStr "spec"; KStr "containers"; KInt 0; KStr "image"] q
              = true ->
            get_at (VDict m') q = get_at (VDict m) q)).
Proof.
  split.
  - intros h ld ls lcs c m sm items cs v Hld Hspec Hls Hcont Hlcs Hc items' h'.
    assert (Hset : setitem_in h (RObj c) (KStr "image") v = Ok h').
    { unfold setitem_in. now rewrite Hc. }
    split.
    { unfold dict_set_in_place.
      change (split_on "." "spec.containers.0.image")
        with ["spec"; "containers"; "0"; "image"].
      change (removelast ["spec"; "containers"; "0"; "image"])
        with ["spec"; "containers"; "0"].
      change (List.last ["spec"; "containers"; "0"; "image"] EmptyString)
        with "image".
      cbn [resolve_in].
      change (subscript "spec") with (KStr "spec").
      change (subscript "containers") with (KStr "containers").
      change (subscript "0") with (KInt 0).
      change (subscript "image") with (KStr "image").
      rewrite (getitem_in_dict _ _ _ _ _ Hld Hspec). cbn [mbind result_bind].
      rewrite (getitem_in_dict _ _ _ _ _ Hls Hcont). cbn [mbind result_bind].
      rewrite (getitem_in_list h lcs (RObj c :: cs) 0 0%nat (RObj c) Hlcs
                 eq_refl eq_refl).
      cbn [mbind result_bind]. exact Hset. }
    split; [apply dict_get_put_same|].
    split; [intros k Hk; now apply dict_get_put_other|].
    split; [apply dict_put_present|].
    split; [apply dict_put_absent|].
    split; [intros l Hl; now apply lookup_insert_ne|].
    split; [intros r q Hr; exact (get_at_in_frame _ _ _ _ _ _ _ Hset Hr)|].
    intros r q Hq Hr. rewrite get_at_in_app.
    rewrite (get_at_in_frame _ _ _ _ _ _ _ Hset Hr), Hq.
    cbn [mbind result_bind get_at_in].
    now rewrite (getitem_in_setitem_in _ _ _ _ _ Hset).
  - intros m sm c cs v rv r h1 h n1 n Hspec Hcont Hv Ht c' sm' m'.
    destruct (dict_set_image_frame m sm c cs v Hspec Hcont)
      as (Hd & _ & Hc' & _ & _ & _ & _ & Hsm & Hm & _).
    fold c' in Hd, Hc', Hsm, Hm. fold sm' in Hd, Hsm, Hm. fold m' in Hd, Hm.
    pose proof (dict_set_in_place_agrees (VDict m) v "spec.containers.0.image"
                  rv h1 n1 r h n Hv Ht) as Hag.
    rewrite Hd in Hag. destruct Hag as (h' & Hin & Hst).
    exists h'. split; [exact Hin|]. split; [exact Hst|].
    split; [exact (dict_set_get _ _ _ _ Hd)|].
    split; [exact Hc'|]. split; [exact Hsm|]. split; [exact Hm|].
    intros q Hq. exact (dict_set_frame _ _ _ _ q Hd Hq).
Qed.

(** C7 fails on a template with an alias: the list of containers holds
    one object twice, and after the patch of container 0 the image of
    container 1 is the new one too. *)
Lemma aliased_container_image_changes :
  contents 4 aliased_pod_store (RObj 3) = Some aliased_pod /\
  get_at_in aliased_pod_store (RObj 3)
    [KStr "spec"; KStr "containers"; KInt 1; KStr "image"]
    = Ok (RStr "placeholder") /\
  exists h',
    dict_set_in_place aliased_pod_store (RObj 3) "spec.containers.0.image"
      (RStr "img:tag") = Ok h' /\
    get_at_in h' (RObj 3) [KStr "spec"; KStr "containers"; KInt 1; KStr "image"]
      = Ok (RStr "img:tag") /\
    contents 4 h' (RObj 3) =
      Some (VDict [(KStr "kind", VStr "Pod");
                   (KStr "spec",
                    VDict [(KStr "containers",
                            VList [VDict [(KStr "name", VStr "train");
                                          (KStr "image", VStr "img:tag")];
                                   VDict [(KStr "name", VStr "train");
                                          (KStr "image", VStr "img:tag")]]);
                           (KStr "restartPolicy", VStr "Never")])]).
Proof.
  split; [vm_compute; reflexivity|]. split; [vm_compute; reflexivity|].
  eexists. split; [vm_compute; reflexivity|].
  split; vm_compute; reflexivity.
Qed.

(** [example_pod_store] is [example_pod] built object by object. *)
Lemma example_pod_store_alloc :
  alloc example_pod (∅, 0%nat) = (RObj 4, (example_pod_store, 5%nat)).
Proof. vm_compute. reflexivity. Qed.

Lemma dict_set_image_in_place_witness :
  dict_set_in_place example_pod_store (RObj 4) "spec.containers.0.image"
    (RStr "img:tag")
  = Ok (<[0%nat := ODict [(KStr "name", RStr "train"); (KStr "image", RStr "img:tag")]]>
          example_pod_store)
  /\
  get_at_in
    (<[0%nat := ODict [(KStr "name", RStr "train"); (KStr "image", RStr "img:tag")]]>
       aliased_pod_store)
    (RObj 3) ([KStr "spec"; KStr "containers"; KInt 1] ++ [KStr "image"])
  = Ok (RStr "img:tag")
  /\
  exists h',
    dict_set_in_place example_pod_store (RObj 4) "spec.containers.0.image"
      (RStr "img:tag") = Ok h' /\
    stands_for h' example_pod_patched (RObj 4).
Proof.
  split; [|split].
  - apply (proj1 dict_set_image_in_place example_pod_store 4%nat 3%nat 2%nat 0%nat
             [(KStr "kind", RStr "Pod"); (KStr "spec", RObj 3)]
             [(KStr "containers", RObj 2); (KStr "restartPolicy", RStr "Never")]
             [(KStr "name", RStr "train"); (KStr "image", RStr "placeholder")]
             [RObj 1] (RStr "img:tag")); reflexivity.
  - apply (proj1 dict_set_image_in_place aliased_pod_store 3%nat 2%nat 1%nat 0%nat
             [(KStr "kind", RStr "Pod"); (KStr "spec", RObj 2)]
             [(KStr "containers", RObj 1); (KStr "restartPolicy", RStr "Never")]
             [(KStr "name", RStr "train"); (KStr "image", RStr "placeholder")]
             [RObj 0] (RStr "img:tag")); reflexivity.
  - destruct (proj2 dict_set_image_in_place
                [(KStr "kind", VStr "Pod");
                 (KStr "spec",
                  VDict [(KStr "containers",
                          VList [VDict [(KStr "name", VStr "train");
                                        (KStr "image", VStr "placeholder")];
                                 VDict [(KStr "name", VStr "sidecar")]]);
                         (KStr "restartPolicy", VStr "Never")])]
                [(KStr "containers",
                  VList [VDict [(KStr "name", VStr "train");
                                (KStr "image", VStr "placeholder")];
                         VDict [(KStr "name", VStr "sidecar")]]);
                 (KStr "restartPolicy", VStr "Never")]
                [(KStr "name", VStr "train"); (KStr "image", VStr "placeholder")]
                [VDict [(KStr "name", VStr "sidecar")]]
                (VStr "img:tag") (RStr "img:tag") (RObj 4) ∅ example_pod_store
                0%nat 5%nat eq_refl eq_refl eq_refl example_pod_store_alloc)
      as (h' & Hin & Hst & _).
    exists h'. split; [exact Hin | exact Hst].
Defined.

(** ** The Job manifest of [train] *)

Lemma bind_ok_inv {A B} (r : result A) (f : A -> result B) (b : B) :
  (r ≫= f) = Ok b -> exists a, r = Ok a /\ f a = Ok b.
Proof. destruct r as [a|e]; simpl; [eauto|discriminate]. Qed.

Lemma io_bind_ok_inv {W A B} (c : io W A) (f : A -> io W B) (w w' : W) (b : B) :
  (c ≫= f) w = (Ok b, w') -> exists a w1, c w = (Ok a, w1) /\ f a w1 = (Ok b, w').
Proof.
  unfold mbind, io_bind. destruct (c w) as [[a|e] w1]; [eauto|discriminate].
Qed.

Section JobManifest.
Context (cfg : Config) (lib : Libraries) {W : Type} `{!ControlWorld W}.

Lemma build_job_env tmpl project_id image td_hash job_id rasa_extra_args node
    use_cache is_rasa_for_botfront job :
  build_job cfg tmpl project_id image td_hash job_id rasa_extra_args node
    use_cache is_rasa_for_botfront = Ok job ->
  get_at job env_path
    = Ok (VList (job_envs cfg project_id td_hash rasa_extra_args use_cache
                   is_rasa_for_botfront)).
Proof.
  unfold build_job. intros H.
  apply bind_ok_inv in H as (j1 & _ & H).
  apply bind_ok_inv in H as (j2 & _ & H).
  apply bind_ok_inv in H as (j3 & _ & H).
  apply bind_ok_inv in H as (j4 & H4 & H).
  apply bind_ok_inv in H as (j5 & H5 & H).
  apply bind_ok_inv in H as (j6 & H6 & H).
  apply bind_ok_inv in H as (j7 & H7 & H).
  apply bind_ok_inv in H as (j8 & H8 & H).
  apply bind_ok_inv in H as (j9 & H9 & H).
  apply dict_set_get in H4.
  change (List.map subscript (split_on "." "spec.template.spec.containers.0.env"))
    with env_path in H4.
  assert (E9 : get_at j9 env_path = get_at j4 env_path).
  { transitivity (get_at j8 env_path).
    - destruct node as [n|].
      + apply (dict_set_frame _ _ _ _ _ H9). reflexivity.
      + now inversion H9.
    - rewrite (dict_set_frame _ _ _ _ env_path H8) by reflexivity.
      rewrite (dict_set_frame _ _ _ _ env_path H7) by reflexivity.
      rewrite (dict_set_frame _ _ _ _ env_path H6) by reflexivity.
      apply (dict_set_frame _ _ _ _ env_path H5). reflexivity. }
  destruct (truthy_str (LOCAL_VOLUME_PATH cfg) && truthy_str (LOCAL_VOLUME_PVC_NAME cfg)).
  - apply bind_ok_inv in H as (j10 & H10 & H).
    rewrite (append_at_frame _ _ _ _ env_path H) by reflexivity.
    rewrite (append_at_frame _ _ _ _ env_path H10) by reflexivity.
    now rewrite E9.
  - inversion H; subst. now rewrite E9.
Qed.

Lemma prepare_job_inv project_id image training_data rasa_extra_args node
    use_cache is_rasa_for_botfront (w w' : W) job_id td_hash job :
  prepare_job cfg lib project_id image training_data rasa_extra_args node
    use_cache is_rasa_for_botfront w = (Ok (job_id, td_hash, job), w') ->
  content_hash lib training_data = Ok td_hash /\
  exists tmpl,
    build_job cfg tmpl project_id image td_hash job_id rasa_extra_args node
      use_cache is_rasa_for_botfront = Ok job.
Proof.
  unfold prepare_job. intros H.
  apply io_bind_ok_inv in H as (canonical & w1 & Hc & H).
  apply io_bind_ok_inv in H as (id & w2 & _ & H).
  apply io_bind_ok_inv in H as (u1 & w3 & _ & H).
  apply io_bind_ok_inv in H as (u2 & w4 & _ & H).
  apply io_bind_ok_inv in H as (u3 & w5 & _ & H).
  apply io_bind_ok_inv in H as (tmpl & w6 & _ & H).
  apply io_bind_ok_inv in H as (j & w7 & Hb & H).
  unfold lift in Hc, Hb. inversion Hc as [[Hcan Hw]]. inversion Hb as [[Hjob Hw']].
  inversion H; subst. split.
  - unfold content_hash. rewrite Hcan. reflexivity.
  - exists tmpl. exact Hjob.
Qed.

(** C8, as the code has it.  Two training-data documents whose parsed
    values are the same up to the order of the keys of their mappings get
    the same content hash, and with it the same model directory for one
    project, provided the keys of every mapping compare with each other
    (all texts or all ints), so that the dump sorts them; the hash a
    submission works with is that content hash. *)
Theorem sorted_documents_same_content_hash (a b : string) (da db : value) :
  yaml_safe_load lib a = Ok da ->
  yaml_safe_load lib b = Ok db ->
  same_up_to_key_order da db ->
  keys_sort da = true ->
  content_hash lib a = content_hash lib b /\
  (exists h, content_hash lib a = Ok h /\ content_hash lib b = Ok h) /\
  (forall project_id image_a image_b args_a args_b node_a node_b cache_a cache_b
          bf_a bf_b (wa wa' wb wb' : W) id_a id_b hash_a hash_b job_a job_b,
      prepare_job cfg lib project_id image_a a args_a node_a cache_a bf_a wa
        = (Ok (id_a, hash_a, job_a), wa') ->
      prepare_job cfg lib project_id image_b b args_b node_b cache_b bf_b wb
        = (Ok (id_b, hash_b, job_b), wb') ->
      hash_a = hash_b /\
      s3_model_dir cfg project_id hash_a = s3_model_dir cfg project_id hash_b).
Proof.
  intros Ha Hb Hsame Hsort.
  assert (Hdump : yaml_safe_dump_sorted lib da = yaml_safe_dump_sorted lib db).
  { unfold yaml_safe_dump_sorted. f_equal. now apply yaml_sort_keys_same. }
  assert (E : content_hash lib a = content_hash lib b).
  { unfold content_hash, canonical_training_data. rewrite Ha, Hb. simpl.
    now rewrite Hdump. }
  split; [exact E|]. split.
  - exists (md5_hexdigest lib (yaml_safe_dump_sorted lib da)).
    unfold content_hash, canonical_training_data. rewrite Ha, Hb. simpl.
    now rewrite Hdump.
  - intros project_id image_a image_b args_a args_b node_a node_b cache_a cache_b
      bf_a bf_b wa wa' wb wb' id_a id_b hash_a hash_b job_a job_b Hpa Hpb.
    apply prepare_job_inv in Hpa as [Hha _].
    apply prepare_job_inv in Hpb as [Hhb _].
    assert (hash_a = hash_b) as -> by congruence. auto.
Qed.

(** C10.  The [IS_RASA_FOR_BOTFRONT] entry of the Job environment
    carries the value of the global setting, whatever the flag of the
    request is; with the flag set and the setting unset the environment
    has the entry with value [None].  The environment is what the Job
    manifest holds at [spec.template.spec.containers.0.env]. *)
Theorem botfront_env_value_is_global project_id image training_data td_hash
    rasa_extra_args node use_cache is_rasa_for_botfront :
  (forall v,
      In (env_entry "IS_RASA_FOR_BOTFRONT" v)
         (job_envs cfg project_id td_hash rasa_extra_args use_cache
            is_rasa_for_botfront) ->
      v = opt_str (IS_RASA_FOR_BOTFRONT cfg)) /\
  (is_rasa_for_botfront = true -> IS_RASA_FOR_BOTFRONT cfg = None ->
   In (env_entry "IS_RASA_FOR_BOTFRONT" VNone)
      (job_envs cfg project_id td_hash rasa_extra_args use_cache
         is_rasa_for_botfront)) /\
  (forall (w w' : W) job_id job,
      prepare_job cfg lib project_id image training_data rasa_extra_args node
        use_cache is_rasa_for_botfront w = (Ok (job_id, td_hash, job), w') ->
      get_at job env_path
        = Ok (VList (job_envs cfg project_id td_hash rasa_extra_args use_cache
                       is_rasa_for_botfront))).
Proof.
  split; [|split].
  - intros v. unfold job_envs, env_entry.
    destruct (truthy_str rasa_extra_args); destruct use_cache;
      destruct (truthy_str (LOCAL_VOLUME_PATH cfg));
      destruct (is_rasa_for_botfront || truthy_str (IS_RASA_FOR_BOTFRONT cfg));
      simpl; intros H;
      repeat (destruct H as [H|H]; [inversion H; try reflexivity|]);
      destruct H.
  - intros -> Hg. unfold job_envs. rewrite Hg. simpl.
    rewrite !in_app_iff. right. right. right. right. simpl. auto.
  - intros w w' job_id job Hp.
    apply prepare_job_inv in Hp as [_ [tmpl Hb]].
    eapply build_job_env; eauto.
Qed.

End JobManifest.

(** C8 fails on a mapping that mixes an int key and a text key: the two
    documents are the same up to the order of their keys, the dump keeps
    the order each was written in, and the hashes differ. *)
Lemma mixed_keys_change_content_hash :
  yaml_safe_load flow_lib "{1: a, b: 2}" = Ok mixed_keys_first /\
  yaml_safe_load flow_lib "{b: 2, 1: a}" = Ok mixed_keys_second /\
  same_up_to_key_order mixed_keys_first mixed_keys_second /\
  content_hash flow_lib "{1: a, b: 2}" <> content_hash flow_lib "{b: 2, 1: a}".
Proof. repeat split; try reflexivity. vm_compute. discriminate. Qed.

Lemma sorted_documents_same_content_hash_witness :
  content_hash flow_lib "{nlu: [hello], language: en}"
  = content_hash flow_lib "{language: en, nlu: [hello]}"
  /\ content_hash flow_lib "{nlu: [hello], language: en}"
     = Ok "{language: en, nlu: [hello]}".
Proof.
  pose proof (sorted_documents_same_content_hash example_config flow_lib
                (W := Cluster) "{nlu: [hello], language: en}"
                "{language: en, nlu: [hello]}" text_keys_first text_keys_second
                eq_refl eq_refl eq_refl eq_refl) as (H1 & _).
  split; [exact H1 | reflexivity].
Defined.

Lemma botfront_env_value_is_global_witness :
  In (env_entry "IS_RASA_FOR_BOTFRONT" VNone)
     (job_envs example_config "p1" "h" None true true)
  /\ exists job,
       (prepare_job example_config plain_scalar_lib "p1" "img:tag" "h" None None
          true true example_cluster).1
         = Ok ("u1", "h" +:+ String (ascii_of_nat 10) EmptyString, job) /\
       get_at job env_path
         = Ok (VList (job_envs example_config "p1"
                        ("h" +:+ String (ascii_of_nat 10) EmptyString)
                        None true true)).
Proof.
  split.
  - apply (proj1 (proj2 (botfront_env_value_is_global example_config
             plain_scalar_lib (W := Cluster) "p1" "img:tag" "h" "h" None None
             true true))); reflexivity.
  - eexists. split.
    + vm_compute. reflexivity.
    + eapply (proj2 (proj2 (botfront_env_value_is_global example_config
                plain_scalar_lib (W := Cluster) "p1" "img:tag" "h"
                ("h" +:+ String (ascii_of_nat 10) EmptyString) None None true true))
                example_cluster _ "u1").
      vm_compute. reflexivity.
Defined.

(** ** The worker: uploads *)

Module WorkerFacts.
Import Worker.

Lemma pause_after_hold n : (8 <= n)%nat -> pause_after n 10 2560 = 2560.
Proof.
  induction 1 as [|n Hn IH]; [reflexivity|].
  simpl. rewrite IH. reflexivity.
Qed.

Lemma pause_after_closed_form n :
  pause_after n 10 2560 = 10 * 2 ^ Z.min (Z.of_nat n) 8.
Proof.
  destruct (le_lt_dec 8 n) as [Hge|Hlt].
  - rewrite pause_after_hold by exact Hge.
    rewrite Z.min_r by lia. reflexivity.
  - do 8 (destruct n as [|n]; [reflexivity|]). lia.
Qed.

Section Upload.
Context (env : Env) {W : Type} `{!OS W}.

Lemma upload_to_s3_step fuel local_path s3_path pause max_pause (w : W) :
  upload_to_s3 env (S fuel) local_path s3_path pause max_pause w =
  match attempt env local_path s3_path w with
  | (Ok _, w') => Some (Ok tt, print (Text (local_path +:+ " uploaded")) w')
  | (Raise e, w') =>
      if is_exception e then
        upload_to_s3 env fuel local_path s3_path (next_pause pause max_pause)
          max_pause (sleep pause (print_exc e w'))
      else Some (Raise e, w')
  end.
Proof. reflexivity. Qed.

(** After [n] failed attempts the loop is where it started, with the
    pause of the schedule, in the world the failures left. *)
Lemma upload_to_s3_after_failures n fuel local_path s3_path pause max_pause
    (w wn : W) :
  before_attempt env n local_path s3_path pause max_pause w = Some wn ->
  upload_to_s3 env (n + fuel) local_path s3_path pause max_pause w =
  upload_to_s3 env fuel local_path s3_path (pause_after n pause max_pause)
    max_pause wn.
Proof.
  revert fuel wn. induction n as [|n IH]; intros fuel wn H; simpl in H.
  - inversion H; reflexivity.
  - destruct (before_attempt env n local_path s3_path pause max_pause w)
      as [wk|] eqn:Hk; [|discriminate].
    destruct (attempt env local_path s3_path wk) as [[u|e] w'] eqn:Ha;
      [discriminate|].
    destruct (is_exception e) eqn:He; [|discriminate].
    inversion H; subst wn.
    replace (S n + fuel)%nat with (n + S fuel)%nat by lia.
    rewrite (IH (S fuel) wk eq_refl), upload_to_s3_step, Ha, He.
    reflexivity.
Qed.

(** A run that returns has seen an attempt succeed. *)
Lemma upload_to_s3_returns fuel local_path s3_path pause max_pause (w w' : W) :
  upload_to_s3 env fuel local_path s3_path pause max_pause w = Some (Ok tt, w') ->
  exists n wn w'', (n < fuel)%nat /\
    before_attempt env n local_path s3_path pause max_pause w = Some wn /\
    attempt env local_path s3_path wn = (Ok tt, w'') /\
    w' = print (Text (local_path +:+ " uploaded")) w''.
Proof.
  intros Hrun.
  assert (Hgen : forall k f wk,
             (k + f = fuel)%nat ->
             before_attempt env k local_path s3_path pause max_pause w = Some wk ->
             upload_to_s3 env f local_path s3_path
               (pause_after k pause max_pause) max_pause wk = Some (Ok tt, w') ->
             exists n wn w'', (n < fuel)%nat /\
               before_attempt env n local_path s3_path pause max_pause w = Some wn /\
               attempt env local_path s3_path wn = (Ok tt, w'') /\
               w' = print (Text (local_path +:+ " uploaded")) w'').
  { intros k f. revert k. induction f as [|f IH]; intros k wk Hsum Hk Hf.
    - discriminate.
    - rewrite upload_to_s3_step in Hf.
      destruct (attempt env local_path s3_path wk) as [[[]|e] w1] eqn:Ha.
      + inversion Hf; subst w'. exists k, wk, w1. repeat split; auto. lia.
      + destruct (is_exception e) eqn:He; [|discriminate].
        apply (IH (S k) (sleep (pause_after k pause max_pause) (print_exc e w1))).
        * lia.
        * simpl. now rewrite Hk, Ha, He.
        * exact Hf. }
  apply (Hgen 0%nat fuel w); auto.
Qed.

(** C3.  The pause of [upload_to_s3] starts at 10 seconds, doubles
    after each failed attempt while it is below 2560 and then stays
    at 2560.  There is no bound on the attempts: whenever the first
    [n] attempts failed, the loop makes attempt [n+1], after sleeping
    the pause of the schedule.  It returns as soon as an attempt
    succeeds, a return means an attempt succeeded, and when every
    attempt fails it never returns. *)
Theorem upload_to_s3_retries_until_success (local_path s3_path : string)
    (w : W) :
  pause_after 0 10 2560 = 10 /\
  (forall n, pause_after n 10 2560 < 2560 ->
     pause_after (S n) 10 2560 = 2 * pause_after n 10 2560) /\
  (forall n, (8 <= n)%nat -> pause_after n 10 2560 = 2560) /\
  (forall n, pause_after n 10 2560 = 10 * 2 ^ Z.min (Z.of_nat n) 8) /\
  (forall n fuel wn,
     before_attempt env n local_path s3_path 10 2560 w = Some wn ->
     upload_to_s3 env (n + S fuel) local_path s3_path 10 2560 w =
     match attempt env local_path s3_path wn with
     | (Ok _, w') => Some (Ok tt, print (Text (local_path +:+ " uploaded")) w')
     | (Raise e, w') =>
         if is_exception e then
           upload_to_s3 env fuel local_path s3_path
             (pause_after (S n) 10 2560) 2560
             (sleep (pause_after n 10 2560) (print_exc e w'))
         else Some (Raise e, w')
     end) /\
  (forall n fuel wn w',
     before_attempt env n local_path s3_path 10 2560 w = Some wn ->
     attempt env local_path s3_path wn = (Ok tt, w') ->
     (n < fuel)%nat ->
     upload_to_s3 env fuel local_path s3_path 10 2560 w =
       Some (Ok tt, print (Text (local_path +:+ " uploaded")) w')) /\
  (forall fuel w',
     upload_to_s3 env fuel local_path s3_path 10 2560 w = Some (Ok tt, w') ->
     exists n wn w'', (n < fuel)%nat /\
       before_attempt env n local_path s3_path 10 2560 w = Some wn /\
       attempt env local_path s3_path wn = (Ok tt, w'') /\
       w' = print (Text (local_path +:+ " uploaded")) w'') /\
  ((forall n, is_Some (before_attempt env n local_path s3_path 10 2560 w)) ->
   forall fuel, upload_to_s3 env fuel local_path s3_path 10 2560 w = None).
Proof.
  split; [reflexivity|].
  split.
  { intros n Hlt. simpl. unfold next_pause.
    destruct (Z.ltb_spec (pause_after n 10 2560) 2560); lia. }
  split; [apply pause_after_hold|].
  split; [apply pause_after_closed_form|].
  split.
  { intros n fuel wn Hn.
    rewrite (upload_to_s3_after_failures _ _ _ _ _ _ _ _ Hn).
    apply upload_to_s3_step. }
  split.
  { intros n fuel wn w' Hn Ha Hlt.
    replace fuel with (n + S (fuel - S n))%nat by lia.
    rewrite (upload_to_s3_after_failures _ _ _ _ _ _ _ _ Hn).
    rewrite upload_to_s3_step, Ha. reflexivity. }
  split; [intros fuel w'; apply upload_to_s3_returns|].
  intros Hall fuel.
  destruct (Hall fuel) as [wn Hn].
  replace fuel with (fuel + 0)%nat at 1 by lia.
  rewrite (upload_to_s3_after_failures _ _ _ _ _ _ _ _ Hn). reflexivity.
Qed.

End Upload.

Lemma upload_to_s3_retries_until_success_witness :
  exists w',
    upload_to_s3 bucket_env 3 "cache.tar.gz" "models-cache/p1/cache.tar.gz"
      10 2560 (trained_pod [Some os_error; Some os_error])
    = Some (Ok tt, print (Text "cache.tar.gz uploaded") w')
    /\ List.filter (fun ev => match ev with Slept _ => true | _ => false end)
         (pod_trace w') = [Slept 10; Slept 20].
Proof.
  pose proof (upload_to_s3_retries_until_success bucket_env "cache.tar.gz"
                "models-cache/p1/cache.tar.gz"
                (trained_pod [Some os_error; Some os_error]))
    as (_ & _ & _ & _ & _ & H & _).
  eexists. split.
  - eapply (H 2%nat 3%nat); [vm_compute; reflexivity | vm_compute; reflexivity | lia].
  - vm_compute. reflexivity.
Defined.

(** ** The worker: the two storages *)

Section Storages.
Context (env : Env) {W : Type} `{!OS W}.

Lemma upload_to_s3_raises_no_exception fuel local_path s3_path pause max_pause
    (w w' : W) e :
  upload_to_s3 env fuel local_path s3_path pause max_pause w = Some (Raise e, w') ->
  is_exception e = false.
Proof.
  revert pause w. induction fuel as [|fuel IH]; intros pause w; [discriminate|].
  rewrite upload_to_s3_step.
  destruct (attempt env local_path s3_path w) as [[u|e1] w1]; [discriminate|].
  destruct (is_exception e1) eqn:He.
  - apply IH.
  - intros H; inversion H; subst. exact He.
Qed.

(** C4, as the code has it.  Only the object-storage variant retries:
    its [upload_file] is [upload_to_s3], where a failed attempt is
    printed, slept on and tried again, and which never raises an
    [Exception].  The local-volume variant makes the directory and
    copies the file once; an error of either step is raised to the
    caller. *)
Theorem retry_only_in_object_storage (local_path remote_path : string) :
  (forall fuel w0 storage w1,
      S3Storage env fuel w0 = Some (Ok storage, w1) ->
      upload_file storage local_path remote_path
        = upload_to_s3 env fuel local_path remote_path 10 2560) /\
  (forall fuel w e w',
      attempt env local_path remote_path w = (Raise e, w') ->
      is_exception e = true ->
      upload_to_s3 env (S fuel) local_path remote_path 10 2560 w
        = upload_to_s3 env fuel local_path remote_path 20 2560
            (sleep 10 (print_exc e w'))) /\
  (forall fuel w e w',
      upload_to_s3 env fuel local_path remote_path 10 2560 w
        = Some (Raise e, w') ->
      is_exception e = false) /\
  (forall base_path w e w',
      let base := if truthy_str base_path then default EmptyString base_path
                  else "." in
      makedirs_exist_ok (dirname (base +:+ "/" +:+ remote_path)) w
        = (Raise e, w') ->
      upload_file (LocalStorage base_path) local_path remote_path w
        = Some (Raise e, w')) /\
  (forall base_path w w1 r w2,
      let base := if truthy_str base_path then default EmptyString base_path
                  else "." in
      makedirs_exist_ok (dirname (base +:+ "/" +:+ remote_path)) w
        = (Ok tt, w1) ->
      copy local_path (base +:+ "/" +:+ remote_path) w1 = (r, w2) ->
      upload_file (LocalStorage base_path) local_path remote_path w
        = Some (r, w2)).
Proof.
  split.
  { intros fuel w0 storage w1. unfold S3Storage, mbind, proc_bind, call.
    destruct (make_s3_client w0) as [[u|e] w']; [|discriminate].
    intros H; inversion H; subst. reflexivity. }
  split.
  { intros fuel w e w' Ha He. now rewrite upload_to_s3_step, Ha, He. }
  split.
  { intros fuel w e w'. apply upload_to_s3_raises_no_exception. }
  split.
  { intros base_path w e w' base Hm.
    unfold LocalStorage. cbn [upload_file]. unfold mbind, proc_bind, call.
    fold base. now rewrite Hm. }
  intros base_path w w1 r w2 base Hm Hc.
  unfold LocalStorage. cbn [upload_file]. unfold mbind, proc_bind, call.
  fold base. rewrite Hm, Hc. now destruct r.
Qed.

End Storages.

(** C4 fails on the local-volume variant: with the same outside world,
    where the first upload attempt fails, the worker on the bucket
    retries and finishes, and the worker on the volume ends with the
    error. *)
Lemma local_upload_error_is_raised :
  fst <$> upload_file (LocalStorage (Some "/mnt")) "/app/model.tar.gz"
            "models/p1/h/model.tar.gz" (trained_pod [None; Some os_error])
    = Some (Raise os_error) /\
  fst <$> main volume_env 5 (trained_pod (calls_ok 7 ++ [Some os_error]))
    = Some (Raise os_error) /\
  fst <$> main bucket_env 5 (trained_pod (calls_ok 7 ++ [Some os_error]))
    = Some (Ok tt).
Proof. repeat split; vm_compute; reflexivity. Qed.

Lemma retry_only_in_object_storage_witness :
  (exists w',
      upload_file (LocalStorage (Some "/mnt")) "/app/model.tar.gz"
        "models/p1/h/model.tar.gz" (trained_pod [None; Some os_error])
      = Some (Raise os_error, w')) /\
  upload_to_s3 bucket_env 2 "/app/model.tar.gz" "models/p1/h/model.tar.gz"
    10 2560 (trained_pod [Some os_error])
  = upload_to_s3 bucket_env 1 "/app/model.tar.gz" "models/p1/h/model.tar.gz"
      20 2560
      (sleep 10
         (print_exc os_error
            (print (Text "Uploading /app/model.tar.gz to models/p1/h/model.tar.gz")
               (trained_pod [])))).
Proof.
  pose proof (retry_only_in_object_storage bucket_env (W := Pod)
                "/app/model.tar.gz" "models/p1/h/model.tar.gz")
    as (_ & Hretry & _ & _ & Hlocal).
  split.
  - eexists.
    eapply (Hlocal (Some "/mnt") (trained_pod [None; Some os_error]));
      vm_compute; reflexivity.
  - apply (Hretry 1%nat (trained_pod [Some os_error]) os_error); reflexivity.
Defined.

(** ** The worker: the cache after training *)

(** C5 at a failing run.  Training succeeded and the model is uploaded;
    then [shutil.make_archive] raises.  Nothing catches the error:
    [main] ends with it and no traceback was printed by the script.
    The same error while the cache is fetched before training is caught
    and printed, and the run goes on to the end. *)
Theorem cache_archive_error_ends_main :
  fst <$> main bucket_env 5 (trained_pod (calls_ok 8 ++ [Some os_error]))
    = Some (Raise os_error) /\
  (exists w', main bucket_env 5 (trained_pod (calls_ok 8 ++ [Some os_error]))
              = Some (Raise os_error, w') /\
     Did "s3.upload_file" ["/app/model.tar.gz"; "bucket"; "models/p1/h/model.tar.gz"]
       ∈ pod_trace w' /\
     Traceback os_error ∉ pod_trace w') /\
  fst <$> main volume_env 5 (trained_pod (calls_ok 9 ++ [Some os_error]))
    = Some (Raise os_error) /\
  (exists w', main bucket_env 5 (trained_pod (calls_ok 4 ++ [Some os_error]))
              = Some (Ok tt, w') /\
     Traceback os_error ∈ pod_trace w').
Proof.
  split; [vm_compute; reflexivity|].
  split.
  { eexists. split; [vm_compute; reflexivity|].
    split; [|intros Hin]; rewrite ?list_elem_of_In in *; simpl in *.
    - tauto.
    - repeat (destruct Hin as [Hin|Hin]; [discriminate|]). destruct Hin. }
  split; [vm_compute; reflexivity|].
  eexists. split; [vm_compute; reflexivity|].
  rewrite list_elem_of_In. simpl. tauto.
Qed.

End WorkerFacts.

(** * Further properties of the code *)

(** ** [dict_set]: reading back, overwriting, missing keys *)



(** X2.  A successful [dict_set] assigns in one slot of one object, the
    one its loop reached: no other object of the store changes, a read
    of any document that never subscripts that object in that slot gives
    what it gave before, value or error, and the slot holds the value.
    On a document built without aliases the store stands for the
    document before the patch and for the patched document after it, and
    the two read the same, value or error, along every path that parts
    ways with the patched one. *)
Theorem dict_set_keeps_other_reads :
  (forall (h : store) (d : ref) (path : string) (v : ref) (h' : store),
      dict_set_in_place h d path v = Ok h' ->
      exists c,
        resolve_in h d (path_init path) = Ok (RObj c) /\
        (forall l, l <> c -> h' !! l = h !! l) /\
        (forall r q, reads_slot h r q c (subscript (path_final path)) = false ->
           get_at_in h' r q = get_at_in h r q) /\
        getitem_in h' (RObj c) (subscript (path_final path)) = Ok v) /\
  (forall (t v : value) (path : string) (t' : value) (rv r : ref)
          (h1 h : store) (n1 n : loc),
      alloc v (∅, 0%nat) = (rv, (h1, n1)) ->
      alloc t (h1, n1) = (r, (h, n)) ->
      dict_set t path v = Ok t' ->
      exists h',
        dict_set_in_place h r path rv = Ok h' /\
        stands_for h t r /\
        stands_for h' t' r /\
        (forall q,
            diverges_b (List.map subscript (split_on "."%char path)) q = true ->
            get_at t' q = get_at t q)).
Proof.
  split.
  - intros h d path v h' Hd.
    destruct (dict_set_in_place_inv _ _ _ _ _ Hd) as (c & Hr & Hs).
    exists c. split; [exact Hr|].
    split; [intros l Hl; eapply setitem_in_others; eauto|].
    split; [intros r q Hq; exact (get_at_in_frame _ _ _ _ _ _ _ Hs Hq)|].
    eapply getitem_in_setitem_in; eauto.
  - intros t v path t' rv r h1 h n1 n Hv Ht Hd.
    pose proof (dict_set_in_place_agrees t v path rv h1 n1 r h n Hv Ht) as Hag.
    rewrite Hd in Hag. destruct Hag as (h' & Hin & Hst).
    destruct (alloc_tree_at v _ _ _ _ _ Hv) as (_ & _ & Bv);
      [intros l _; apply lookup_empty|].
    destruct (alloc_tree_at t _ _ _ _ _ Ht Bv) as (Tt & _ & _).
    exists h'. split; [exact Hin|].
    split; [eapply tree_at_stands_for; exact Tt|]. split; [exact Hst|].
    intros q Hq. exact (dict_set_frame _ _ _ _ q Hd Hq).
Qed.

Lemma dict_set_keeps_other_reads_witness :
  (exists c,
      resolve_in example_pod_store (RObj 4) ["spec"; "containers"; "0"]
        = Ok (RObj c) /\
      get_at_in
        (<[0%nat := ODict [(KStr "name", RStr "train");
                           (KStr "image", RStr "img:tag")]]> example_pod_store)
        (RObj 4) [KStr "spec"; KStr "containers"; KInt 0; KStr "name"]
      = get_at_in example_pod_store (RObj 4)
          [KStr "spec"; KStr "containers"; KInt 0; KStr "name"]) /\
  (exists h',
      dict_set_in_place example_pod_store (RObj 4) "spec.containers.0.image"
        (RStr "img:tag") = Ok h' /\
      stands_for h' example_pod_patched (RObj 4) /\
      get_at example_pod_patched [KStr "spec"; KStr "restartPolicy"]
      = get_at example_pod [KStr "spec"; KStr "restartPolicy"]).
Proof.
  split.
  - destruct (proj1 dict_set_keeps_other_reads example_pod_store (RObj 4)
                "spec.containers.0.image" (RStr "img:tag")
                (<[0%nat := ODict [(KStr "name", RStr "train");
                                   (KStr "image", RStr "img:tag")]]>
                   example_pod_store))
      as (c & Hr & _ & Hframe & _); [vm_compute; reflexivity|].
    exists c. split; [exact Hr|].
    apply Hframe.
    assert (Hc : c = 0%nat).
    { assert (H0 : resolve_in example_pod_store (RObj 4)
                     (path_init "spec.containers.0.image")
                   = Ok (RObj 0)) by (vm_compute; reflexivity).
      rewrite H0 in Hr. now inversion Hr. }
    subst c. vm_compute. reflexivity.
  - destruct (proj2 dict_set_keeps_other_reads example_pod (VStr "img:tag")
                "spec.containers.0.image" example_pod_patched (RStr "img:tag")
                (RObj 4) ∅ example_pod_store 0%nat 5%nat eq_refl
                example_pod_store_alloc eq_refl)
      as (h' & Hin & _ & Hst & Hframe).
    exists h'. split; [exact Hin|]. split; [exact Hst|].
    apply Hframe. reflexivity.
Defined.






(** X4.  [dict_set] creates no intermediate mapping: when a non-terminal
    segment is a key the mapping reached does not have, the call raises
    [KeyError] with that key. *)
Theorem dict_set_missing_intermediate_key (d : value) (path : string) (v : value)
    (pre post : list string) (k : string) (m : list (key * value)) :
  split_on "."%char path = pre ++ k :: post ->
  post <> [] ->
  resolve d pre = Ok (VDict m) ->
  dict_get (subscript k) m = None ->
  dict_set d path v = Raise (KeyError (subscript k)).
Proof.
  intros Hsplit Hpost Hr Hk. unfold dict_set. rewrite Hsplit.
  rewrite removelast_app by discriminate.
  eapply dict_set_keys_app_raise; [exact Hr|].
  destruct post as [|k' post]; [contradiction|].
  change (removelast (k :: k' :: post)) with (k :: removelast (k' :: post)).
  cbn [dict_set_keys getitem]. now rewrite Hk.
Qed.

Lemma dict_set_missing_intermediate_key_witness :
  dict_set example_pod "spec.template.nodeName" (VStr "n1")
  = Raise (KeyError (KStr "template")).
Proof.
  apply (dict_set_missing_intermediate_key example_pod "spec.template.nodeName"
           (VStr "n1") ["spec"] ["nodeName"] "template"
           [(KStr "containers",
             VList [VDict [(KStr "name", VStr "train");
                           (KStr "image", VStr "placeholder")];
                    VDict [(KStr "name", VStr "sidecar")]]);
            (KStr "restartPolicy", VStr "Never")]);
    [reflexivity | discriminate | reflexivity | reflexivity].
Defined.

(** ** The segments of a path *)

Lemma split_on_join sep s : join sep (split_on sep s) = s.
Proof.
  induction s as [|c s IH]; [reflexivity|].
  simpl. destruct (Ascii.eqb_spec c sep) as [->|Hne].
  - pose proof (split_on_nonempty sep s) as Hn.
    destruct (split_on sep s) as [|h t] eqn:E; [contradiction|].
    change (join sep (EmptyString :: h :: t)) with (String sep (join sep (h :: t))).
    now rewrite IH.
  - destruct (split_on sep s) as [|h t] eqn:E.
    + now destruct (split_on_nonempty sep s).
    + change (join sep (String c h :: t)) with
        (match t with
         | [] => String c h
         | _ => String c h +:+ String sep (join sep t)
         end).
      rewrite <- IH. destruct t; reflexivity.
Qed.

Lemma split_on_no_sep sep s :
  Forall (fun piece => has_char sep piece = false) (split_on sep s).
Proof.
  induction s as [|c s IH]; simpl.
  - repeat constructor.
  - destruct (Ascii.eqb_spec c sep) as [->|Hne].
    + constructor; [reflexivity|exact IH].
    + destruct (split_on sep s) as [|h t] eqn:E;
        [now destruct (split_on_nonempty sep s)|].
      inversion IH as [|? ? Hh Ht]; subst.
      constructor; [|exact Ht]. simpl.
      destruct (Ascii.eqb_spec c sep); [contradiction|exact Hh].
Qed.

(** X5.  The segments [dict_set] works with are the pieces of the path
    between dots: joined with dots they give the path back and none of
    them contains a dot, so the key assigned at the end never contains a
    dot (a key with a dot in it cannot be addressed). *)
Theorem dict_set_segments (path : string) :
  join "."%char (split_on "."%char path) = path /\
  Forall (fun piece => has_char "."%char piece = false) (split_on "."%char path) /\
  has_char "."%char (path_final path) = false /\
  split_on "."%char path = path_init path ++ [path_final path].
Proof.
  split; [apply split_on_join|].
  split; [apply split_on_no_sep|].
  split; [|apply path_keys].
  pose proof (split_on_no_sep "."%char path) as H.
  rewrite path_keys in H. apply Forall_app in H as [_ H].
  now inversion H.
Qed.

(** ** Orchestrator errors and names *)

(** X6.  [check_already_exists_error] answers [True] exactly when every
    API exception of the error has a JSON object body whose reason is
    [AlreadyExists]; an error carrying no API exception therefore counts
    as already-exists. *)
Theorem check_already_exists_error_true (errs : list ApiException) :
  (check_already_exists_error errs = Ok true <->
   Forall (fun e => api_body_of e = BodyObject (Some "AlreadyExists")) errs) /\
  check_already_exists_error [] = Ok true.
Proof.
  split; [|reflexivity].
  induction errs as [|e errs IH]; simpl.
  - split; [constructor|reflexivity].
  - destruct (api_body_of e) as [reason|] eqn:Hb.
    + destruct (decide (reason = Some "AlreadyExists")) as [->|Hne].
      * rewrite IH. split; [now constructor|].
        intros H; now inversion H.
      * split; [discriminate|]. intros H; inversion H; congruence.
    + split; [discriminate|]. intros H; inversion H; congruence.
Qed.

Lemma append_cancel_l (s a b : string) : s +:+ a = s +:+ b -> a = b.
Proof.
  induction s as [|c s IH]; [auto|].
  intros H. change (String c (s +:+ a) = String c (s +:+ b)) in H.
  injection H as H. auto.
Qed.

Lemma has_char_append c a b :
  has_char c (a +:+ b) = has_char c a || has_char c b.
Proof.
  induction a as [|x a IH]; [reflexivity|].
  change (Ascii.eqb x c || has_char c (a +:+ b)
          = Ascii.eqb x c || has_char c a || has_char c b).
  now rewrite IH, orb_assoc.
Qed.

Lemma slash_split (p1 p2 h1 h2 : string) :
  has_char "/"%char h1 = false -> has_char "/"%char h2 = false ->
  p1 +:+ "/" +:+ h1 = p2 +:+ "/" +:+ h2 -> p1 = p2 /\ h1 = h2.
Proof.
  intros H1 H2. revert p2.
  induction p1 as [|c p1 IH]; intros [|c2 p2] H.
  - change (String "/" h1 = String "/" h2) in H. injection H as Hh. auto.
  - change (String "/" h1 = String c2 (p2 +:+ "/" +:+ h2)) in H.
    injection H as Hc Hh. rewrite Hh in H1.
    rewrite has_char_append in H1.
    change (has_char "/" p2 || true = false) in H1.
    rewrite orb_true_r in H1. discriminate.
  - change (String c (p1 +:+ "/" +:+ h1) = String "/" h2) in H.
    injection H as Hc Hh. rewrite <- Hh in H2.
    rewrite has_char_append in H2.
    change (has_char "/" p1 || true = false) in H2.
    rewrite orb_true_r in H2. discriminate.
  - change (String c (p1 +:+ "/" +:+ h1) = String c2 (p2 +:+ "/" +:+ h2)) in H.
    injection H as Hc Hh. destruct (IH _ Hh) as [-> ->]. subst. auto.
Qed.

(** X7.  Different job ids give different Job names, and a Job name and
    a model directory determine what they were made from: [job_name] is
    injective in the id, and [s3_model_dir] is injective in the project
    and the hash as long as the hashes contain no slash (a hex digest
    never does). *)
Theorem names_are_injective (cfg : Config) :
  (forall a b, job_name cfg a = job_name cfg b -> a = b) /\
  (forall p1 p2 h1 h2,
      has_char "/"%char h1 = false -> has_char "/"%char h2 = false ->
      s3_model_dir cfg p1 h1 = s3_model_dir cfg p2 h2 -> p1 = p2 /\ h1 = h2).
Proof.
  split.
  - intros a b H. unfold job_name in H.
    apply append_cancel_l in H. now apply (append_cancel_l "-job-") in H.
  - intros p1 p2 h1 h2 H1 H2 H. unfold s3_model_dir in H.
    apply append_cancel_l in H. apply (append_cancel_l "/") in H.
    now apply slash_split.
Qed.

Lemma names_are_injective_witness :
  ("p1" : string) = "p1" /\ ("0cc175b9" : string) = "0cc175b9".
Proof.
  apply (proj2 (names_are_injective example_config) "p1" "p1" "0cc175b9" "0cc175b9");
    reflexivity.
Defined.

Lemma check_already_exists_error_true_witness :
  Forall (fun e => api_body_of e = BodyObject (Some "AlreadyExists"))
    [conflict_409; conflict_409].
Proof.
  apply (proj1 (proj1 (check_already_exists_error_true [conflict_409; conflict_409]))).
  reflexivity.
Defined.

(** ** [train]: what is submitted *)

Ltac through_patches :=
  repeat match goal with
    | H : dict_set ?a _ _ = Ok ?b |- context [get_at ?b ?q] =>
        rewrite (dict_set_frame a _ _ b q H) by reflexivity
    | H : append_at ?a _ _ = Ok ?b |- context [get_at ?b ?q] =>
        rewrite (append_at_frame a _ _ b q H) by reflexivity
    end.

Lemma seq_pos_front n i : 0 <= i < Z.of_nat n -> seq_pos n i = Some (Z.to_nat i).
Proof.
  intros H. unfold seq_pos.
  destruct (Z.leb_spec 0 i); [|lia]. destruct (Z.ltb_spec i (Z.of_nat n)); [|lia].
  reflexivity.
Qed.

Lemma getitem_app_front l x i :
  0 <= i -> is_ok (getitem (VList l) (KInt i)) ->
  getitem (VList (l ++ [x])) (KInt i) = getitem (VList l) (KInt i).
Proof.
  intros Hi. cbn [getitem].
  destruct (seq_pos (length l) i) as [p|] eqn:Hp; [|intros []].
  intros _. pose proof (seq_pos_Some _ _ _ Hp) as [_ Hb]. unfold in_bounds in Hb.
  rewrite seq_pos_front in Hp by lia. inversion Hp; subst p.
  rewrite length_app. simpl length.
  rewrite seq_pos_front by lia.
  rewrite lookup_app_l by lia. reflexivity.
Qed.

(** Appending to a sequence keeps what is read at its positions counted
    from the front. *)
Lemma append_at_keeps_position cur ks item cur' i q :
  append_at cur ks item = Ok cur' ->
  0 <= i ->
  is_ok (get_at cur (ks ++ [KInt i])) ->
  get_at cur' (ks ++ KInt i :: q) = get_at cur (ks ++ KInt i :: q).
Proof.
  revert cur cur'. induction ks as [|k ks IH]; intros cur cur' Ha Hi Hok.
  - destruct cur as [|b|z|t|l|m]; try discriminate.
    inversion Ha; subst. cbn [app get_at] in *.
    rewrite getitem_app_front; [reflexivity | exact Hi |].
    destruct (getitem (VList l) (KInt i)); [exact I|destruct Hok].
  - cbn [append_at] in Ha. cbn [app get_at] in *.
    destruct (getitem cur k) as [child|e] eqn:Hg; [|destruct Hok].
    cbn [mbind result_bind] in *.
    destruct (append_at child ks item) as [child'|e] eqn:Hc; [|discriminate].
    cbn [mbind result_bind] in Ha.
    rewrite (getitem_setitem _ _ _ _ Ha). cbn [mbind result_bind].
    now apply IH.
Qed.

Section Manifests.
Context (cfg : Config) (lib : Libraries) {W : Type} `{!ControlWorld W}.

Lemma build_job_fields tmpl project_id image td_hash job_id rasa_extra_args node
    use_cache is_rasa_for_botfront job :
  build_job cfg tmpl project_id image td_hash job_id rasa_extra_args node
    use_cache is_rasa_for_botfront = Ok job ->
  get_at job [KStr "metadata"; KStr "name"] = Ok (VStr (job_name cfg job_id)) /\
  get_at job [KStr "metadata"; KStr "labels"; KStr "et/project-id"]
    = Ok (VStr project_id) /\
  get_at job [KStr "metadata"; KStr "labels"; KStr "et/data-hash"]
    = Ok (VStr td_hash) /\
  get_at job [KStr "spec"; KStr "template"; KStr "spec"; KStr "containers"; KInt 0;
              KStr "image"] = Ok (VStr image) /\
  get_at job [KStr "spec"; KStr "template"; KStr "spec"; KStr "containers"; KInt 0;
              KStr "envFrom"; KInt 0; KStr "secretRef"; KStr "name"]
    = Ok (VStr (KUBE_S3_SECRET_NAME cfg)) /\
  get_at job [KStr "spec"; KStr "template"; KStr "spec"; KStr "imagePullSecrets";
              KInt 0; KStr "name"] = Ok (VStr (KUBE_REGCRED_SECRET_NAME cfg)) /\
  get_at job [KStr "spec"; KStr "template"; KStr "spec"; KStr "volumes"; KInt 0;
              KStr "configMap"; KStr "name"]
    = Ok (VStr (KUBE_DEFAULT_NAME_PREFIX cfg +:+ "-cm-" +:+ job_id)) /\
  (forall n, node = Some n ->
     get_at job [KStr "spec"; KStr "template"; KStr "spec"; KStr "nodeName"]
       = Ok (VStr n)).
Proof.
  unfold build_job. intros H.
  apply bind_ok_inv in H as (j1 & H1 & H).
  apply bind_ok_inv in H as (j2 & H2 & H).
  apply bind_ok_inv in H as (j3 & H3 & H).
  apply bind_ok_inv in H as (j4 & H4 & H).
  apply bind_ok_inv in H as (j5 & H5 & H).
  apply bind_ok_inv in H as (j6 & H6 & H).
  apply bind_ok_inv in H as (j7 & H7 & H).
  apply bind_ok_inv in H as (j8 & H8 & H).
  apply bind_ok_inv in H as (j9 & H9 & H).
  pose proof (dict_set_get _ _ _ _ H1) as G1.
  pose proof (dict_set_get _ _ _ _ H2) as G2.
  pose proof (dict_set_get _ _ _ _ H3) as G3.
  pose proof (dict_set_get _ _ _ _ H5) as G5.
  pose proof (dict_set_get _ _ _ _ H6) as G6.
  pose proof (dict_set_get _ _ _ _ H7) as G7.
  pose proof (dict_set_get _ _ _ _ H8) as G8.
  change (List.map subscript (split_on "." "metadata.name"))
    with [KStr "metadata"; KStr "name"] in G1.
  change (List.map subscript (split_on "." "metadata.labels.et/project-id"))
    with [KStr "metadata"; KStr "labels"; KStr "et/project-id"] in G2.
  change (List.map subscript (split_on "." "metadata.labels.et/data-hash"))
    with [KStr "metadata"; KStr "labels"; KStr "et/data-hash"] in G3.
  change (List.map subscript
            (split_on "." "spec.template.spec.containers.0.envFrom.0.secretRef.name"))
    with [KStr "spec"; KStr "template"; KStr "spec"; KStr "containers"; KInt 0;
          KStr "envFrom"; KInt 0; KStr "secretRef"; KStr "name"] in G5.
  change (List.map subscript (split_on "." "spec.template.spec.containers.0.image"))
    with [KStr "spec"; KStr "template"; KStr "spec"; KStr "containers"; KInt 0;
          KStr "image"] in G6.
  change (List.map subscript
            (split_on "." "spec.template.spec.volumes.0.configMap.name"))
    with [KStr "spec"; KStr "template"; KStr "spec"; KStr "volumes"; KInt 0;
          KStr "configMap"; KStr "name"] in G7.
  change (List.map subscript
            (split_on "." "spec.template.spec.imagePullSecrets.0.name"))
    with [KStr "spec"; KStr "template"; KStr "spec"; KStr "imagePullSecrets"; KInt 0;
          KStr "name"] in G8.
  assert (Hnode : forall q,
             diverges_b [KStr "spec"; KStr "template"; KStr "spec"; KStr "nodeName"] q
               = true -> get_at j9 q = get_at j8 q).
  { intros q Hq. destruct node as [n|].
    - now apply (dict_set_frame _ _ _ _ q H9).
    - now inversion H9. }
  assert (Hnode' : forall n, node = Some n ->
             get_at j9 [KStr "spec"; KStr "template"; KStr "spec"; KStr "nodeName"]
               = Ok (VStr n)).
  { intros n ->. apply (dict_set_get _ _ _ _ H9). }
  assert (Hvol : get_at j9 [KStr "spec"; KStr "template"; KStr "spec"; KStr "volumes";
                            KInt 0; KStr "configMap"; KStr "name"]
                 = Ok (VStr (KUBE_DEFAULT_NAME_PREFIX cfg +:+ "-cm-" +:+ job_id))).
  { rewrite Hnode by reflexivity. through_patches. exact G7. }
  destruct (truthy_str (LOCAL_VOLUME_PATH cfg) && truthy_str (LOCAL_VOLUME_PVC_NAME cfg)).
  - apply bind_ok_inv in H as (j10 & H10 & H11).
    assert (Hvol' : get_at job [KStr "spec"; KStr "template"; KStr "spec";
                                KStr "volumes"; KInt 0; KStr "configMap"; KStr "name"]
                    = Ok (VStr (KUBE_DEFAULT_NAME_PREFIX cfg +:+ "-cm-" +:+ job_id))).
    { rewrite (append_at_frame _ _ _ _ _ H11) by reflexivity.
      change ([KStr "spec"; KStr "template"; KStr "spec"; KStr "volumes"; KInt 0;
               KStr "configMap"; KStr "name"])
        with ([KStr "spec"; KStr "template"; KStr "spec"; KStr "volumes"]
              ++ KInt 0 :: [KStr "configMap"; KStr "name"]).
      rewrite (append_at_keeps_position _ _ _ _ 0 _ H10); [exact Hvol | lia |].
      change ([KStr "spec"; KStr "template"; KStr "spec"; KStr "volumes"; KInt 0;
               KStr "configMap"; KStr "name"])
        with (([KStr "spec"; KStr "template"; KStr "spec"; KStr "volumes"] ++ [KInt 0])
              ++ [KStr "configMap"; KStr "name"]) in Hvol.
      rewrite get_at_app in Hvol.
      destruct (get_at j9 ([KStr "spec"; KStr "template"; KStr "spec"; KStr "volumes"]
                           ++ [KInt 0])); [exact I|discriminate]. }
    split; [through_patches; rewrite Hnode by reflexivity; through_patches; exact G1|].
    split; [through_patches; rewrite Hnode by reflexivity; through_patches; exact G2|].
    split; [through_patches; rewrite Hnode by reflexivity; through_patches; exact G3|].
    split; [through_patches; rewrite Hnode by reflexivity; through_patches; exact G6|].
    split; [through_patches; rewrite Hnode by reflexivity; through_patches; exact G5|].
    split; [through_patches; rewrite Hnode by reflexivity; through_patches; exact G8|].
    split; [exact Hvol'|].
    intros n Hn. through_patches. now apply Hnode'.
  - inversion H; subst job.
    split; [rewrite Hnode by reflexivity; through_patches; exact G1|].
    split; [rewrite Hnode by reflexivity; through_patches; exact G2|].
    split; [rewrite Hnode by reflexivity; through_patches; exact G3|].
    split; [rewrite Hnode by reflexivity; through_patches; exact G6|].
    split; [rewrite Hnode by reflexivity; through_patches; exact G5|].
    split; [rewrite Hnode by reflexivity; through_patches; exact G8|].
    split; [exact Hvol|exact Hnode'].
Qed.

End Manifests.

Section Submission.
Context (cfg : Config) (lib : Libraries) {W : Type} `{!ControlWorld W}.

Lemma prepare_job_steps project_id image training_data rasa_extra_args node
    use_cache is_rasa_for_botfront (w w' : W) job_id td_hash job :
  prepare_job cfg lib project_id image training_data rasa_extra_args node
    use_cache is_rasa_for_botfront w = (Ok (job_id, td_hash, job), w') ->
  exists canonical wu ws tmpl wt,
    canonical_training_data lib training_data = Ok canonical /\
    td_hash = md5_hexdigest lib canonical /\
    uuid4 w = (Ok job_id, wu) /\
    upload_train_data cfg
      (s3_model_dir cfg project_id td_hash +:+ "/train_data.yml") canonical
      (logger_info (Info ("Uploading train data to " +:+ canonical)) wu)
      = (Ok tt, ws) /\
    load_yml (JOB_TEMPLATE_PATH cfg) (logger_info (Info "Train data uploaded") ws)
      = (Ok tmpl, wt) /\
    w' = wt /\
    build_job cfg tmpl project_id image td_hash job_id rasa_extra_args node
      use_cache is_rasa_for_botfront = Ok job.
Proof.
  unfold prepare_job. intros H.
  apply io_bind_ok_inv in H as (canonical & w1 & Hc & H).
  apply io_bind_ok_inv in H as (id & w2 & Hid & H).
  apply io_bind_ok_inv in H as ([] & w3 & Hl1 & H).
  apply io_bind_ok_inv in H as ([] & w4 & Hup & H).
  apply io_bind_ok_inv in H as ([] & w5 & Hl2 & H).
  apply io_bind_ok_inv in H as (tmpl & w6 & Ht & H).
  apply io_bind_ok_inv in H as (j & w7 & Hb & H).
  unfold lift in Hc, Hb. unfold log in Hl1, Hl2.
  assert (Hc' : canonical_training_data lib training_data = Ok canonical)
    by congruence.
  assert (w1 = w) by congruence. subst w1.
  inversion Hl1; subst. inversion Hl2; subst.
  assert (Hb' : build_job cfg tmpl project_id image (md5_hexdigest lib canonical) id
                  rasa_extra_args node use_cache is_rasa_for_botfront = Ok j)
    by congruence.
  assert (w7 = w6) by congruence. subst w7.
  inversion H; subst.
  exists canonical, w2, w4, tmpl, w'. repeat split; auto.
Qed.

Lemma build_cm_fields cm project_id td_hash job_id job_uid cm' :
  build_cm cfg cm project_id td_hash job_id job_uid = Ok cm' ->
  get_at cm' [KStr "metadata"; KStr "name"]
    = Ok (VStr (KUBE_DEFAULT_NAME_PREFIX cfg +:+ "-cm-" +:+ job_id)) /\
  get_at cm' [KStr "metadata"; KStr "labels"; KStr "et/job-id"] = Ok (VStr job_id) /\
  get_at cm' [KStr "metadata"; KStr "ownerReferences"; KInt 0; KStr "name"]
    = Ok (VStr (job_name cfg job_id)) /\
  get_at cm' [KStr "metadata"; KStr "ownerReferences"; KInt 0; KStr "uid"]
    = Ok (VStr job_uid).
Proof.
  unfold build_cm. intros H.
  apply bind_ok_inv in H as (c1 & H1 & H).
  apply bind_ok_inv in H as (c2 & H2 & H).
  apply bind_ok_inv in H as (c3 & H3 & H).
  apply bind_ok_inv in H as (c4 & H4 & H).
  apply bind_ok_inv in H as (c5 & H5 & H6).
  pose proof (dict_set_get _ _ _ _ H1) as G1.
  pose proof (dict_set_get _ _ _ _ H4) as G4.
  pose proof (dict_set_get _ _ _ _ H5) as G5.
  pose proof (dict_set_get _ _ _ _ H6) as G6.
  change (List.map subscript (split_on "." "metadata.labels.et/job-id"))
    with [KStr "metadata"; KStr "labels"; KStr "et/job-id"] in G1.
  change (List.map subscript (split_on "." "metadata.ownerReferences.0.name"))
    with [KStr "metadata"; KStr "ownerReferences"; KInt 0; KStr "name"] in G4.
  change (List.map subscript (split_on "." "metadata.ownerReferences.0.uid"))
    with [KStr "metadata"; KStr "ownerReferences"; KInt 0; KStr "uid"] in G5.
  change (List.map subscript (split_on "." "metadata.name"))
    with [KStr "metadata"; KStr "name"] in G6.
  split; [exact G6|].
  split; [through_patches; exact G1|].
  split; [through_patches; exact G4|].
  through_patches; exact G5.
Qed.

Lemma prepare_cm_steps project_id td_hash job_id created (w w' : W) cm :
  prepare_cm cfg project_id td_hash job_id created w = (Ok cm, w') ->
  exists c0 rest train_py,
    created = c0 :: rest /\
    get_at cm [KStr "metadata"; KStr "name"]
      = Ok (VStr (KUBE_DEFAULT_NAME_PREFIX cfg +:+ "-cm-" +:+ job_id)) /\
    get_at cm [KStr "metadata"; KStr "labels"; KStr "et/job-id"] = Ok (VStr job_id) /\
    get_at cm [KStr "metadata"; KStr "ownerReferences"; KInt 0; KStr "name"]
      = Ok (VStr (job_name cfg job_id)) /\
    get_at cm [KStr "metadata"; KStr "ownerReferences"; KInt 0; KStr "uid"]
      = Ok (VStr (created_uid c0)) /\
    get_at cm [KStr "data"; KStr "train_py"] = Ok (VStr train_py).
Proof.
  unfold prepare_cm. intros H.
  apply io_bind_ok_inv in H as (uid & w1 & Hu & H).
  apply io_bind_ok_inv in H as (tmpl & w2 & _ & H).
  apply io_bind_ok_inv in H as (cm1 & w3 & Hb & H).
  apply io_bind_ok_inv in H as (train_py & w4 & _ & H).
  unfold lift in Hu, Hb, H.
  destruct created as [|c0 rest]; [discriminate|].
  inversion Hu; subst uid. inversion Hb as [[Hcm Hw]]. inversion H as [[Hd Hw']].
  destruct (build_cm_fields _ _ _ _ _ _ Hcm) as (F1 & F2 & F3 & F4).
  pose proof (dict_set_get _ _ _ _ Hd) as G.
  change (List.map subscript (split_on "." "data.train_py"))
    with [KStr "data"; KStr "train_py"] in G.
  exists c0, rest, train_py. split; [reflexivity|].
  split; [through_patches; exact F1|].
  split; [through_patches; exact F2|].
  split; [through_patches; exact F3|].
  split; [through_patches; exact F4|exact G].
Qed.

(** X8.  [train] stops at the first failure, before anything is created:
    training data that does not parse is rejected with the parser's error
    and the outside world untouched, and when storing the training data
    fails the error is raised from the world the failed upload left (no
    template is read, no object created). *)
Theorem train_fails_before_creation project_id image training_data
    rasa_extra_args node use_cache is_rasa_for_botfront (w : W) :
  (forall e, yaml_safe_load lib training_data = Raise e ->
     train cfg lib project_id image training_data rasa_extra_args node use_cache
       is_rasa_for_botfront w = (Raise e, w)) /\
  (forall doc job_id wu e ws,
     yaml_safe_load lib training_data = Ok doc ->
     uuid4 w = (Ok job_id, wu) ->
     let canonical := yaml_safe_dump_sorted lib doc in
     upload_train_data cfg
       (s3_model_dir cfg project_id (md5_hexdigest lib canonical)
        +:+ "/train_data.yml") canonical
       (logger_info (Info ("Uploading train data to " +:+ canonical)) wu)
       = (Raise e, ws) ->
     train cfg lib project_id image training_data rasa_extra_args node use_cache
       is_rasa_for_botfront w = (Raise e, ws)).
Proof.
  split.
  - intros e He. unfold train, prepare_job, canonical_training_data, lift, mbind,
      io_bind. rewrite He. reflexivity.
  - intros doc job_id wu e ws Hd Hu canonical Hup.
    unfold train, prepare_job, canonical_training_data, lift, log, mbind, io_bind.
    rewrite Hd. cbn [result_bind]. rewrite Hu. fold canonical. now rewrite Hup.
Qed.

(** X9.  When [train] returns, [created] is [True] and the job id is the
    identifier [uuid4] gave.  The run is one chain from the world of the
    call to the world returned: the Job manifest is prepared, the
    orchestrator creates it and answers with at least one object, the
    creation is logged, the ConfigMap manifest is prepared from the first
    created object, the orchestrator creates it, and that is logged.
    The Job is named after the id, the ConfigMap is named after the id
    too and owned by the Job: its owner reference carries the Job's name
    and the uid of the first object the orchestrator created. *)
Theorem train_returns_created_job project_id image training_data
    rasa_extra_args node use_cache is_rasa_for_botfront (w w' : W) job_id created :
  train cfg lib project_id image training_data rasa_extra_args node use_cache
    is_rasa_for_botfront w = (Ok (job_id, created), w') ->
  created = true /\
  (exists wu, uuid4 w = (Ok job_id, wu)) /\
  exists td_hash job w1 job_obj rest w2 cm w3 cm_objs w4,
    prepare_job cfg lib project_id image training_data rasa_extra_args node
      use_cache is_rasa_for_botfront w = (Ok (job_id, td_hash, job), w1) /\
    create_from_dict job (KUBE_NAMESPACE cfg) w1 = (Ok (job_obj :: rest), w2) /\
    prepare_cm cfg project_id td_hash job_id (job_obj :: rest)
      (logger_info (Info ("Created job " +:+ job_name cfg job_id)) w2)
      = (Ok cm, w3) /\
    create_from_dict cm (KUBE_NAMESPACE cfg) w3 = (Ok cm_objs, w4) /\
    w' = logger_info
           (Info ("Created cm " +:+ KUBE_DEFAULT_NAME_PREFIX cfg +:+ "-cm-"
                  +:+ job_id)) w4 /\
    get_at job [KStr "metadata"; KStr "name"] = Ok (VStr (job_name cfg job_id)) /\
    get_at cm [KStr "metadata"; KStr "name"]
      = Ok (VStr (KUBE_DEFAULT_NAME_PREFIX cfg +:+ "-cm-" +:+ job_id)) /\
    get_at cm [KStr "metadata"; KStr "ownerReferences"; KInt 0; KStr "name"]
      = Ok (VStr (job_name cfg job_id)) /\
    get_at cm [KStr "metadata"; KStr "ownerReferences"; KInt 0; KStr "uid"]
      = Ok (VStr (created_uid job_obj)).
Proof.
  unfold train. intros H.
  apply io_bind_ok_inv in H as ([[id h] job] & w1 & Hp & H).
  apply io_bind_ok_inv in H as (objs & w2 & Hcj & H).
  apply io_bind_ok_inv in H as ([] & w3 & Hl & H).
  apply io_bind_ok_inv in H as (cm & w4 & Hcm & H).
  apply io_bind_ok_inv in H as (cm_objs & w5 & Hcc & H).
  apply io_bind_ok_inv in H as ([] & w6 & Hl2 & H).
  unfold log in Hl, Hl2. inversion Hl; subst w3. inversion Hl2; subst w6.
  inversion H; subst.
  destruct (prepare_job_steps _ _ _ _ _ _ _ _ _ _ _ _ Hp)
    as (canonical & wu & ws & tmpl & wt & _ & _ & Hu & _ & _ & _ & Hb).
  destruct (build_job_fields cfg _ _ _ _ _ _ _ _ _ _ Hb) as (Fname & _).
  destruct (prepare_cm_steps _ _ _ _ _ _ _ Hcm)
    as (c0 & rest & train_py & -> & Cname & _ & Cown & Cuid & _).
  split; [reflexivity|]. split; [eauto|].
  exists h, job, w1, c0, rest, w2, cm, w4, cm_objs, w5.
  repeat split; assumption.
Qed.

(** X10.  The Job manifest [train] submits carries the request: its name
    is the job name, its labels are the project id and the content hash,
    the first container runs the requested image with the configured
    storage secret, the image pull secret is the configured one, the
    mounted ConfigMap is the one named after the job id, and a requested
    node is written to [nodeName]. *)
Theorem job_manifest_carries_request project_id image training_data
    rasa_extra_args node use_cache is_rasa_for_botfront (w w' : W)
    job_id td_hash job :
  prepare_job cfg lib project_id image training_data rasa_extra_args node
    use_cache is_rasa_for_botfront w = (Ok (job_id, td_hash, job), w') ->
  get_at job [KStr "metadata"; KStr "name"] = Ok (VStr (job_name cfg job_id)) /\
  get_at job [KStr "metadata"; KStr "labels"; KStr "et/project-id"]
    = Ok (VStr project_id) /\
  get_at job [KStr "metadata"; KStr "labels"; KStr "et/data-hash"]
    = Ok (VStr td_hash) /\
  get_at job [KStr "spec"; KStr "template"; KStr "spec"; KStr "containers"; KInt 0;
              KStr "image"] = Ok (VStr image) /\
  get_at job [KStr "spec"; KStr "template"; KStr "spec"; KStr "containers"; KInt 0;
              KStr "envFrom"; KInt 0; KStr "secretRef"; KStr "name"]
    = Ok (VStr (KUBE_S3_SECRET_NAME cfg)) /\
  get_at job [KStr "spec"; KStr "template"; KStr "spec"; KStr "imagePullSecrets";
              KInt 0; KStr "name"] = Ok (VStr (KUBE_REGCRED_SECRET_NAME cfg)) /\
  get_at job [KStr "spec"; KStr "template"; KStr "spec"; KStr "volumes"; KInt 0;
              KStr "configMap"; KStr "name"]
    = Ok (VStr (KUBE_DEFAULT_NAME_PREFIX cfg +:+ "-cm-" +:+ job_id)) /\
  (forall n, node = Some n ->
     get_at job [KStr "spec"; KStr "template"; KStr "spec"; KStr "nodeName"]
       = Ok (VStr n)).
Proof.
  intros Hp.
  destruct (prepare_job_steps _ _ _ _ _ _ _ _ _ _ _ _ Hp)
    as (canonical & wu & ws & tmpl & wt & _ & _ & _ & _ & _ & _ & Hb).
  exact (build_job_fields cfg _ _ _ _ _ _ _ _ _ _ Hb).
Qed.

End Submission.

Lemma train_fails_before_creation_witness :
  train example_config picky_lib "p1" "img:tag" tabbed_document None None true false
    example_cluster = (Raise (OtherError "ScannerError"), example_cluster)
  /\ exists ws,
       train example_config picky_lib "p1" "img:tag" "nlu" None None true false
         (cl_with_faults [Some (OtherError "EndpointConnectionError")] example_cluster)
       = (Raise (OtherError "EndpointConnectionError"), ws)
       /\ cl_jobs ws = ∅.
Proof.
  pose proof (train_fails_before_creation example_config picky_lib (W := Cluster)
                "p1" "img:tag" tabbed_document None None true false example_cluster)
    as [H1 _].
  pose proof (train_fails_before_creation example_config picky_lib (W := Cluster)
                "p1" "img:tag" "nlu" None None true false
                (cl_with_faults [Some (OtherError "EndpointConnectionError")]
                   example_cluster))
    as [_ H2].
  split.
  - apply H1. reflexivity.
  - eexists. split.
    + eapply (H2 (VStr "nlu") "u1"); vm_compute; reflexivity.
    + reflexivity.
Defined.

Lemma train_returns_created_job_witness :
  true = true /\
  (exists wu, uuid4 example_cluster = (Ok "u1", wu)) /\
  exists job cm job_obj w',
    train example_config plain_scalar_lib "p1" "img:tag" "nlu" None None true false
      example_cluster = (Ok ("u1", true), w') /\
    get_at job [KStr "metadata"; KStr "name"]
      = Ok (VStr (job_name example_config "u1")) /\
    get_at cm [KStr "metadata"; KStr "name"]
      = Ok (VStr (KUBE_DEFAULT_NAME_PREFIX example_config +:+ "-cm-" +:+ "u1")) /\
    get_at cm [KStr "metadata"; KStr "ownerReferences"; KInt 0; KStr "uid"]
      = Ok (VStr (created_uid job_obj)) /\
    is_Some (cl_jobs w' !! "et-job-u1") /\
    "et-cm-u1" ∈ cl_configmaps w'.
Proof.
  assert (exists w', train example_config plain_scalar_lib "p1" "img:tag" "nlu" None
                       None true false example_cluster = (Ok ("u1", true), w'))
    as [w' Hw] by (eexists; vm_compute; reflexivity).
  destruct (train_returns_created_job example_config plain_scalar_lib (W := Cluster)
              "p1" "img:tag" "nlu" None None true false example_cluster w' "u1" true
              Hw)
    as (H1 & H2 & h & job & w1 & job_obj & rest & w2 & cm & w3 & cm_objs & w4
        & _ & _ & _ & _ & _ & Fj & Fc & _ & Fu).
  split; [exact H1|]. split; [exact H2|].
  exists job, cm, job_obj, w'. split; [exact Hw|].
  split; [exact Fj|]. split; [exact Fc|]. split; [exact Fu|].
  assert (Hfin : is_Some (cl_jobs (train example_config plain_scalar_lib "p1" "img:tag"
                                     "nlu" None None true false example_cluster).2
                          !! "et-job-u1")
                 /\ "et-cm-u1" ∈ cl_configmaps
                      (train example_config plain_scalar_lib "p1" "img:tag" "nlu"
                         None None true false example_cluster).2).
  { split; [vm_compute; eauto|]. vm_compute. reflexivity. }
  rewrite Hw in Hfin. exact Hfin.
Defined.

Lemma job_manifest_carries_request_witness :
  exists job,
    (prepare_job example_config plain_scalar_lib "p1" "img:tag" "nlu" None
       (Some "node-3") true false example_cluster).1
      = Ok ("u1", "nlu" +:+ String (ascii_of_nat 10) EmptyString, job) /\
    get_at job [KStr "metadata"; KStr "name"] = Ok (VStr "et-job-u1") /\
    get_at job [KStr "spec"; KStr "template"; KStr "spec"; KStr "nodeName"]
      = Ok (VStr "node-3").
Proof.
  assert (exists job w',
             prepare_job example_config plain_scalar_lib "p1" "img:tag" "nlu" None
               (Some "node-3") true false example_cluster
             = (Ok ("u1", "nlu" +:+ String (ascii_of_nat 10) EmptyString, job), w'))
    as (job & w' & Hp) by (do 2 eexists; vm_compute; reflexivity).
  destruct (job_manifest_carries_request example_config plain_scalar_lib
              (W := Cluster) "p1" "img:tag" "nlu" None (Some "node-3") true false
              example_cluster w' "u1" _ job Hp)
    as (H1 & _ & _ & _ & _ & _ & _ & H8).
  exists job. split; [now rewrite Hp|].
  split; [exact H1 | exact (H8 "node-3" eq_refl)].
Defined.

(** ** [train]: the optional entries of the environment *)

(** X11.  The environment of the training container starts with the
    model directory; it has a cache path, [S3_CACHE_DIR/project/cache.tar.gz],
    exactly when [use_cache] is set, and extra arguments exactly when the
    request gave a non-empty text, which is passed on unchanged. *)
Theorem job_envs_optional_entries (cfg : Config) project_id td_hash
    rasa_extra_args use_cache is_rasa_for_botfront :
  let envs := job_envs cfg project_id td_hash rasa_extra_args use_cache
                is_rasa_for_botfront in
  head envs = Some (env_entry "S3_MODEL_DIR" (VStr (s3_model_dir cfg project_id td_hash)))
  /\ ((exists v, In (env_entry "S3_CACHE_PATH" v) envs) <-> use_cache = true)
  /\ (forall v, In (env_entry "S3_CACHE_PATH" v) envs ->
        v = VStr (S3_CACHE_DIR cfg +:+ "/" +:+ project_id +:+ "/cache.tar.gz"))
  /\ (forall v, In (env_entry "RASA_EXTRA_ARGS" v) envs <->
        exists s, rasa_extra_args = Some s /\ s <> EmptyString /\ v = VStr s).
Proof.
  intros envs. subst envs. unfold job_envs, env_entry.
  split; [reflexivity|].
  split.
  { split.
    - intros [v Hv].
      destruct use_cache; [reflexivity|].
      destruct (truthy_str rasa_extra_args);
        destruct (truthy_str (LOCAL_VOLUME_PATH cfg));
        destruct (is_rasa_for_botfront || truthy_str (IS_RASA_FOR_BOTFRONT cfg));
        simpl in Hv;
        repeat (destruct Hv as [Hv|Hv]; [discriminate|]); destruct Hv.
    - intros ->. eexists. rewrite !in_app_iff. right. right. left. simpl. eauto. }
  split.
  { intros v Hv.
    destruct use_cache; destruct (truthy_str rasa_extra_args);
      destruct (truthy_str (LOCAL_VOLUME_PATH cfg));
      destruct (is_rasa_for_botfront || truthy_str (IS_RASA_FOR_BOTFRONT cfg));
      simpl in Hv;
      repeat (destruct Hv as [Hv|Hv]; [inversion Hv; try reflexivity|]);
      destruct Hv. }
  intros v. split.
  - intros Hv.
    destruct rasa_extra_args as [s|]; simpl in Hv.
    + destruct (String.eqb_spec s EmptyString) as [->|Hne]; simpl in Hv.
      * destruct use_cache; destruct (truthy_str (LOCAL_VOLUME_PATH cfg));
          destruct (is_rasa_for_botfront || truthy_str (IS_RASA_FOR_BOTFRONT cfg));
          simpl in Hv;
          repeat (destruct Hv as [Hv|Hv]; [discriminate|]); destruct Hv.
      * exists s. split; [reflexivity|]. split; [exact Hne|].
        destruct use_cache; destruct (truthy_str (LOCAL_VOLUME_PATH cfg));
          destruct (is_rasa_for_botfront || truthy_str (IS_RASA_FOR_BOTFRONT cfg));
          simpl in Hv;
          repeat (destruct Hv as [Hv|Hv]; [inversion Hv; try reflexivity|]);
          destruct Hv.
    + destruct use_cache; destruct (truthy_str (LOCAL_VOLUME_PATH cfg));
        destruct (is_rasa_for_botfront || truthy_str (IS_RASA_FOR_BOTFRONT cfg));
        simpl in Hv;
        repeat (destruct Hv as [Hv|Hv]; [discriminate|]); destruct Hv.
  - intros (s & -> & Hne & ->). simpl.
    destruct (String.eqb_spec s EmptyString) as [->|_]; [congruence|]. simpl.
    auto 10.
Qed.

(** ** [logs] and [result] *)

Section Reads.
Context (cfg : Config) {W : Type} `{!ControlWorld W} `{!ReadWorld W}.

(** X12.  [logs] lists the pods labelled with the job name and reads the
    log of the first one only.  No pod gives [None] without reading any
    log, a 400 from the log read (container not started) gives [None],
    and any other error of the log read is raised. *)
Theorem logs_reads_first_pod (job_id : string) (w : W) :
  let list := list_namespaced_pod (KUBE_NAMESPACE cfg)
                ("job-name=" +:+ job_name cfg job_id) in
  (forall w1, list w = (Ok [], w1) -> logs cfg job_id w = (Ok None, w1)) /\
  (forall pod rest w1 text w2, list w = (Ok (pod :: rest), w1) ->
     read_namespaced_pod_log (pod_name pod) (KUBE_NAMESPACE cfg) w1 = (Ok text, w2) ->
     logs cfg job_id w = (Ok (Some text), w2)) /\
  (forall pod rest w1 e w2, list w = (Ok (pod :: rest), w1) ->
     read_namespaced_pod_log (pod_name pod) (KUBE_NAMESPACE cfg) w1
       = (Raise (ApiError e), w2) ->
     api_status e = 400 ->
     logs cfg job_id w = (Ok None, w2)) /\
  (forall pod rest w1 e w2, list w = (Ok (pod :: rest), w1) ->
     read_namespaced_pod_log (pod_name pod) (KUBE_NAMESPACE cfg) w1 = (Raise e, w2) ->
     (forall a, e = ApiError a -> api_status a <> 400) ->
     logs cfg job_id w = (Raise e, w2)) /\
  (forall e w1, list w = (Raise e, w1) -> logs cfg job_id w = (Raise e, w1)).
Proof.
  intros list. unfold logs, mbind, io_bind. fold list.
  repeat split.
  - intros w1 Hl. now rewrite Hl.
  - intros pod rest w1 text w2 Hl Hr. now rewrite Hl, Hr.
  - intros pod rest w1 e w2 Hl Hr He. now rewrite Hl, Hr, He.
  - intros pod rest w1 e w2 Hl Hr He. rewrite Hl, Hr.
    destruct e as [| | | | |a| | |]; try reflexivity.
    destruct (Z.eqb_spec (api_status a) 400) as [Heq|Hne]; [|reflexivity].
    exfalso. exact (He a eq_refl Heq).
  - intros e w1 Hl. now rewrite Hl.
Qed.

Lemma status_of_job_success job :
  status_of_job job = Status.success <-> truthy_int (succeeded (job_status job)) = true.
Proof.
  unfold status_of_job.
  destruct (truthy_int (succeeded (job_status job))); [tauto|].
  destruct (truthy_int (active (job_status job)));
    [|destruct (truthy_int (failed (job_status job)))];
    split; discriminate.
Qed.

(** X13.  [result] is there only for a succeeded Job: whenever [status]
    answers anything but [success], [result] answers [None] from the same
    read of the Job, and whenever [result] hands back an artifact,
    [status] on the same world answers [success]. *)
Theorem result_only_after_success (job_id : string) (w : W) :
  (forall st w1, status cfg job_id w = (Ok st, w1) -> st <> Status.success ->
     result_ cfg job_id w = (Ok None, w1)) /\
  (forall a w2, result_ cfg job_id w = (Ok (Some a), w2) ->
     exists w1, status cfg job_id w = (Ok Status.success, w1)).
Proof.
  split.
  - intros st w1 Hst Hne.
    unfold result_, _get_s3_result_dir, status, mbind, io_bind in *.
    destruct (_get_job cfg job_id w) as [[[job|]|e] w'] eqn:Hj;
      [| |discriminate].
    + inversion Hst; subst.
      destruct (truthy_int (succeeded (job_status job))) eqn:Hs.
      * exfalso. apply Hne. now apply status_of_job_success.
      * reflexivity.
    + inversion Hst; subst. reflexivity.
  - intros a w2 Hres.
    unfold result_, _get_s3_result_dir, status, mbind, io_bind in *.
    destruct (_get_job cfg job_id w) as [[[job|]|e] w'] eqn:Hj;
      [| discriminate | discriminate].
    exists w'.
    destruct (truthy_int (succeeded (job_status job))) eqn:Hs.
    + apply status_of_job_success in Hs. unfold mret, io_ret. now rewrite Hs.
    + discriminate.
Qed.

(** X14.  For a succeeded Job carrying the two labels [train] writes, the
    artifact is [model.tar.gz] in the model directory of that project and
    hash: with a local volume, a path below the volume, without touching
    the storage; otherwise the body of that object in the bucket.  A Job
    that has labels but lacks one of the two makes [result] raise
    [KeyError]. *)
Theorem result_location (job_id : string) (w w1 : W) (job : V1Job) :
  read_namespaced_job (job_name cfg job_id) (KUBE_NAMESPACE cfg) w = (Ok job, w1) ->
  truthy_int (succeeded (job_status job)) = true ->
  (forall project_id data_hash,
     label "et/project-id" (job_labels job) = Ok project_id ->
     label "et/data-hash" (job_labels job) = Ok data_hash ->
     let model_path := s3_model_dir cfg project_id data_hash +:+ "/model.tar.gz" in
     (truthy_str (LOCAL_VOLUME_PATH cfg) = true ->
      result_ cfg job_id w =
        (Ok (Some (ArtifactPath (default EmptyString (LOCAL_VOLUME_PATH cfg)
                                 +:+ "/" +:+ model_path))), w1)) /\
     (truthy_str (LOCAL_VOLUME_PATH cfg) = false ->
      forall body w2,
        s3_get_body (S3_BUCKET_NAME cfg) model_path w1 = (Ok body, w2) ->
        result_ cfg job_id w = (Ok (Some (ArtifactBody body)), w2))) /\
  (forall k, job_labels job <> [] ->
     label "et/project-id" (job_labels job) = Raise (KeyError k)
     \/ (is_ok (label "et/project-id" (job_labels job)) /\
         label "et/data-hash" (job_labels job) = Raise (KeyError k)) ->
     result_ cfg job_id w = (Raise (KeyError k), w1)).
Proof.
  intros Hr Hs.
  assert (Hj : _get_job cfg job_id w = (Ok (Some job), w1)).
  { unfold _get_job. now rewrite Hr. }
  split.
  - intros project_id data_hash Hp Hh model_path. split.
    + intros Hl. unfold result_, _get_s3_result_dir, lift, mbind, io_bind.
      rewrite Hj, Hs. cbn [negb]. rewrite Hp, Hh. unfold mret, io_ret.
      now rewrite Hl.
    + intros Hl body w2 Hb. unfold result_, _get_s3_result_dir, lift, mbind, io_bind.
      rewrite Hj, Hs. cbn [negb]. rewrite Hp, Hh. unfold mret, io_ret.
      rewrite Hl. fold model_path. now rewrite Hb.
  - intros k _ [Hp|[Hp Hh]];
      unfold result_, _get_s3_result_dir, lift, mbind, io_bind;
      rewrite Hj, Hs; cbn [negb].
    + now rewrite Hp.
    + destruct (label "et/project-id" (job_labels job)); [|destruct Hp].
      now rewrite Hh.
Qed.

End Reads.

Lemma logs_reads_first_pod_witness :
  logs example_config "j1" example_reader = (Ok (Some "epoch 1"), example_reader)
  /\ logs example_config "j2" example_reader = (Ok None, example_reader)
  /\ logs example_config "j9" example_reader = (Ok None, example_reader).
Proof.
  pose proof (logs_reads_first_pod example_config "j1" example_reader)
    as (_ & H1 & _).
  pose proof (logs_reads_first_pod example_config "j2" example_reader)
    as (_ & _ & H2 & _).
  pose proof (logs_reads_first_pod example_config "j9" example_reader)
    as (H9 & _).
  split; [|split].
  - eapply H1; reflexivity.
  - eapply H2; reflexivity.
  - apply H9. reflexivity.
Defined.

Lemma result_only_after_success_witness :
  result_ example_config "j2" example_reader = (Ok None, example_reader)
  /\ exists w1, status example_config "j1" example_reader = (Ok Status.success, w1).
Proof.
  pose proof (result_only_after_success example_config "j2" example_reader) as [H2 _].
  pose proof (result_only_after_success example_config "j1" example_reader) as [_ H1].
  split.
  - apply (H2 Status.training); [reflexivity|discriminate].
  - apply (H1 (ArtifactBody "model-bytes") example_reader). reflexivity.
Defined.

Lemma result_location_witness :
  result_ volume_config "j1" example_reader
    = (Ok (Some (ArtifactPath "/mnt/models/p1/0cc175b9/model.tar.gz")), example_reader)
  /\ result_ example_config "j1" example_reader
    = (Ok (Some (ArtifactBody "model-bytes")), example_reader).
Proof.
  assert (Hv : read_namespaced_job (job_name volume_config "j1")
                 (KUBE_NAMESPACE volume_config) example_reader
               = (Ok succeeded_job, example_reader)) by reflexivity.
  assert (He : read_namespaced_job (job_name example_config "j1")
                 (KUBE_NAMESPACE example_config) example_reader
               = (Ok succeeded_job, example_reader)) by reflexivity.
  pose proof (result_location volume_config "j1" example_reader example_reader
                succeeded_job Hv eq_refl) as [Hvol _].
  pose proof (result_location example_config "j1" example_reader example_reader
                succeeded_job He eq_refl) as [Hbucket _].
  split.
  - apply (Hvol "p1" "0cc175b9"); reflexivity.
  - apply (Hbucket "p1" "0cc175b9"); reflexivity.
Defined.

(** ** app.py: the token check *)

Module AppFacts.

Section Routes.
Context (cfg : Config) (lib : Libraries) (AUTH_TOKEN : option string)
  {W : Type} `{!ControlWorld W} `{!ReadWorld W}.

(** X15.  Every route that calls the job manager checks the token first:
    a request whose [Authorization] header differs from [AUTH_TOKEN] is
    answered 401 and the outside world is not touched (no upload, no
    orchestrator call). *)
Theorem routes_reject_wrong_token (request : App.Request) (w : W) :
  App.authorization request <> AUTH_TOKEN ->
  (forall project_id image training_data rasa_extra_args node use_cache
          is_rasa_for_botfront,
      App.train cfg lib AUTH_TOKEN request project_id image training_data
        rasa_extra_args node use_cache is_rasa_for_botfront w
      = (App.HTTPException 401, w)) /\
  (forall job_id,
      App.status cfg AUTH_TOKEN request job_id w = (App.HTTPException 401, w) /\
      App.cancel cfg AUTH_TOKEN request job_id w = (App.HTTPException 401, w) /\
      App.logs cfg AUTH_TOKEN request job_id w = (App.HTTPException 401, w) /\
      App.result cfg AUTH_TOKEN request job_id w = (App.HTTPException 401, w)).
Proof.
  intros Hne.
  assert (Hv : App.verify_token AUTH_TOKEN request = false).
  { unfold App.verify_token. now apply bool_decide_eq_false. }
  split; [intros; unfold App.train | intros job_id; repeat split;
          [unfold App.status | unfold App.cancel | unfold App.logs | unfold App.result]];
    unfold App.guarded; now rewrite Hv.
Qed.


End Routes.

Lemma routes_reject_wrong_token_witness :
  App.result example_config (Some "secret") (App.mkRequest None) "j1" example_reader
    = (App.HTTPException 401, example_reader)
  /\ App.cancel example_config (Some "secret") (App.mkRequest (Some "guess")) "j2"
       example_reader = (App.HTTPException 401, example_reader).
Proof.
  split.
  - apply (routes_reject_wrong_token example_config plain_scalar_lib (Some "secret")
             (App.mkRequest None) example_reader); discriminate.
  - apply (routes_reject_wrong_token example_config plain_scalar_lib (Some "secret")
             (App.mkRequest (Some "guess")) example_reader); simpl; congruence.
Defined.


End AppFacts.

(** ** The worker: cache, exit code, command line *)

Module WorkerRun.
Import Worker WorkerPhases.

Ltac proc_step :=
  match goal with
  | |- context [match ?c with Some _ => _ | None => _ end] =>
      lazymatch c with
      | context [match _ with Some _ => _ | None => _ end] => fail
      | _ => destruct c as [[[?|?] ?]|] eqn:?
      end
  end.

Section Run.
Context (env : Env) {W : Type} `{!OS W}.

Lemma main_phases fuel (w : W) :
  main env fuel w =
  (storage ← before_training env fuel;
   returncode ← run_training env;
   _ ← (if (returncode =? 0)%Z then mret tt else exit returncode : proc W unit);
   after_training env storage) w.
Proof.
  unfold main, before_training, run_training, after_training.
  unfold mbind, proc_bind.
  repeat (proc_step; try reflexivity).
Qed.


(** X18.  The exit code of the training command decides the run: a
    non-zero code ends [main] with [SystemExit] of that code in the world
    the command left, so nothing is uploaded; and [main] returns normally
    only after a command that returned 0 and uploads that returned. *)
Theorem main_propagates_exit_code (fuel : nat) (w : W) :
  (forall storage w1 returncode w2,
     before_training env fuel w = Some (Ok storage, w1) ->
     run_training env w1 = Some (Ok returncode, w2) ->
     returncode <> 0 ->
     main env fuel w = Some (Raise (SystemExit returncode), w2)) /\
  (forall w', main env fuel w = Some (Ok tt, w') ->
     exists storage w1 w2,
       before_training env fuel w = Some (Ok storage, w1) /\
       run_training env w1 = Some (Ok 0, w2) /\
       after_training env storage w2 = Some (Ok tt, w')).
Proof.
  split.
  - intros storage w1 rc w2 Hb Hr Hne. rewrite main_phases.
    unfold mbind at 1, proc_bind at 1. rewrite Hb.
    unfold mbind at 1, proc_bind at 1. rewrite Hr.
    destruct (Z.eqb_spec rc 0); [contradiction|]. reflexivity.
  - intros w' Hm. rewrite main_phases in Hm.
    unfold mbind at 1, proc_bind at 1 in Hm.
    destruct (before_training env fuel w) as [[[storage|e] w1]|] eqn:Hb;
      try discriminate.
    unfold mbind at 1, proc_bind at 1 in Hm.
    destruct (run_training env w1) as [[[rc|e] w2]|] eqn:Hr; try discriminate.
    destruct (Z.eqb_spec rc 0) as [->|Hne]; [|discriminate].
    exists storage, w1, w2. split; [reflexivity|]. split; [exact Hr|exact Hm].
Qed.

(** X19.  Without a cache path the worker never touches the cache: both
    cache steps return at once and leave the world as it is; the step
    after training does the same when the cache directory is missing. *)
Theorem cache_steps_skipped (storage : BaseStorage W) (local_cache_dir : string)
    (w : W) :
  (truthy_str (S3_CACHE_PATH env) = false ->
   restore_cache env storage local_cache_dir w = Some (Ok tt, w) /\
   store_cache env storage local_cache_dir w = Some (Ok tt, w)) /\
  (path_exists local_cache_dir w = false ->
   store_cache env storage local_cache_dir w = Some (Ok tt, w)).
Proof.
  split.
  - intros H. unfold restore_cache, store_cache, mbind, proc_bind. rewrite H.
    split; reflexivity.
  - intros H. unfold store_cache, mbind, proc_bind, exists_path.
    destruct (truthy_str (S3_CACHE_PATH env)); [rewrite H|]; reflexivity.
Qed.

End Run.

Lemma split_on_without_sep sep s :
  has_char sep s = false -> split_on sep s = [s].
Proof.
  induction s as [|c s IH]; simpl; [reflexivity|].
  destruct (Ascii.eqb c sep); simpl; [discriminate|].
  intros H. now rewrite (IH H).
Qed.

(** X20.  The training command is the eight fixed arguments followed by
    the extra arguments: the pieces of [RASA_EXTRA_ARGS] between single
    spaces, in their order, empty pieces dropped.  The pieces joined by
    single spaces are the setting again; an extra argument is a piece
    that is not empty, and contains no space; an unset or empty setting
    adds nothing, and a setting without a space is one argument. *)
Theorem train_command_arguments (env : Env) (train_data_path model_path : string) :
  let setting := default EmptyString (RASA_EXTRA_ARGS env) in
  let pieces := split_on " "%char setting in
  let extra := List.filter (fun arg => negb (String.eqb arg EmptyString)) pieces in
  train_command env train_data_path model_path =
    ["rasa"; "train"; "-c"; train_data_path; "-d"; train_data_path;
     "--fixed-model-name"; model_path] ++ extra /\
  join " "%char pieces = setting /\
  (forall arg, List.In arg extra <-> List.In arg pieces /\ arg <> EmptyString) /\
  Forall (fun arg => arg <> EmptyString /\ has_char " "%char arg = false) extra /\
  (truthy_str (RASA_EXTRA_ARGS env) = false -> extra = []) /\
  (has_char " "%char setting = false -> setting <> EmptyString ->
   extra = [setting]).
Proof.
  intros setting pieces extra.
  assert (Hin : forall arg,
             List.In arg extra <-> List.In arg pieces /\ arg <> EmptyString).
  { intros arg. unfold extra. rewrite List.filter_In.
    destruct (String.eqb_spec arg EmptyString) as [->|Hne]; simpl.
    - split; [intros [_ H]; discriminate | intros [_ H]; now destruct H].
    - split; intros [H _]; auto. }
  assert (Hoff : truthy_str (RASA_EXTRA_ARGS env) = false -> extra = []).
  { unfold extra, pieces, setting, truthy_str.
    destruct (RASA_EXTRA_ARGS env) as [s|]; simpl; [|reflexivity].
    destruct (String.eqb_spec s EmptyString) as [->|]; [reflexivity|discriminate]. }
  split.
  { unfold train_command. fold setting. fold pieces. fold extra.
    destruct (truthy_str (RASA_EXTRA_ARGS env)); [reflexivity|].
    now rewrite Hoff. }
  split; [apply split_on_join|].
  split; [exact Hin|].
  split.
  { apply List.Forall_forall. intros arg Harg.
    apply Hin in Harg as [Hp Hne]. split; [exact Hne|].
    pose proof (split_on_no_sep " "%char setting) as Hall.
    rewrite List.Forall_forall in Hall. now apply Hall. }
  split; [exact Hoff|].
  intros Hsp Hne. unfold extra, pieces.
  rewrite (split_on_without_sep _ _ Hsp). simpl.
  destruct (String.eqb_spec setting EmptyString); [contradiction|reflexivity].
Qed.

Lemma train_command_arguments_witness :
  train_command (mkEnv None "bucket" "models/p1/h" None (Some "--epochs  5 --quiet "))
    "data/train_data.yml" "/app/model.tar.gz"
  = ["rasa"; "train"; "-c"; "data/train_data.yml"; "-d"; "data/train_data.yml";
     "--fixed-model-name"; "/app/model.tar.gz"; "--epochs"; "5"; "--quiet"]
  /\
  List.filter (fun arg => negb (String.eqb arg EmptyString))
    (split_on " "%char (default EmptyString (RASA_EXTRA_ARGS bucket_env))) = []
  /\
  List.filter (fun arg => negb (String.eqb arg EmptyString))
    (split_on " "%char
       (default EmptyString
          (RASA_EXTRA_ARGS (mkEnv None "bucket" "models/p1/h" None (Some "--debug")))))
  = ["--debug"].
Proof.
  pose proof (train_command_arguments
                (mkEnv None "bucket" "models/p1/h" None (Some "--epochs  5 --quiet "))
                "data/train_data.yml" "/app/model.tar.gz") as (H1 & _).
  pose proof (train_command_arguments bucket_env "data/train_data.yml"
                "/app/model.tar.gz") as (_ & _ & _ & _ & H2 & _).
  pose proof (train_command_arguments
                (mkEnv None "bucket" "models/p1/h" None (Some "--debug"))
                "data/train_data.yml" "/app/model.tar.gz")
    as (_ & _ & _ & _ & _ & H3).
  split; [|split].
  - rewrite H1. vm_compute. reflexivity.
  - apply H2. reflexivity.
  - rewrite H3; [reflexivity | reflexivity | discriminate].
Defined.

(** X21.  The pause of [upload_to_s3] never shrinks, and once it has
    reached the cap it stays as it is; starting from a pause that is not
    negative it stays below twice the cap, and it can end above the cap
    when the cap is not the initial pause times a power of two. *)
Theorem pause_never_shrinks (pause max_pause : Z) (n : nat) :
  0 <= pause ->
  pause_after n pause max_pause <= pause_after (S n) pause max_pause /\
  pause_after n pause max_pause <= Z.max pause (2 * max_pause - 2) /\
  (max_pause <= pause_after n pause max_pause ->
   pause_after (S n) pause max_pause = pause_after n pause max_pause).
Proof.
  intros Hp.
  assert (Hinv : forall k, 0 <= pause_after k pause max_pause
                           <= Z.max pause (2 * max_pause - 2)).
  { induction k as [|k IH]; simpl; [lia|].
    unfold next_pause. destruct (Z.ltb_spec (pause_after k pause max_pause) max_pause); lia. }
  pose proof (Hinv n) as Hn. simpl. unfold next_pause.
  destruct (Z.ltb_spec (pause_after n pause max_pause) max_pause); lia.
Qed.

Lemma pause_never_shrinks_witness :
  pause_after 2 10 25 <= pause_after 3 10 25 /\ pause_after 2 10 25 = 40.
Proof.
  split.
  - apply (pause_never_shrinks 10 25 2). lia.
  - reflexivity.
Defined.


Lemma main_propagates_exit_code_witness :
  exists w', main bucket_env 3 (mkPod [] [] 2 []) = Some (Raise (SystemExit 2), w')
             /\ Forall (fun ev => match ev with
                                  | Did "s3.upload_file" _ => False
                                  | _ => True
                                  end) (pod_trace w').
Proof.
  pose proof (main_propagates_exit_code bucket_env 3 (mkPod [] [] 2 [])) as [H _].
  eexists. split.
  - eapply H; [vm_compute; reflexivity | vm_compute; reflexivity | lia].
  - vm_compute. repeat constructor.
Defined.

Lemma cache_steps_skipped_witness :
  store_cache bucket_env (LocalStorage None) ".rasa/cache" (mkPod [] [] 0 [])
  = Some (Ok tt, mkPod [] [] 0 []).
Proof.
  apply (proj2 (cache_steps_skipped bucket_env (LocalStorage None) ".rasa/cache"
                  (mkPod [] [] 0 []))).
  reflexivity.
Defined.

End WorkerRun.
